(** * Currency conversion tool: the normalisation and fallback layer

    A shallow embedding of [app/src/lib/api.ts]: the currency-list
    normaliser, the rate-map normaliser, the 24 hour currency cache, the
    conversion engine with its USD cross-rate fallback and the timeseries
    engine with its per-day fallback.

    Numbers are IEEE 754 binary64 values (Rocq's primitive floats), as in
    JavaScript.  Strings are byte strings: ASCII text is exact, and a
    character outside ASCII is carried as its bytes, which [toUpperCase] and
    [trim] leave alone.  What the platform supplies (number formatting and
    parsing, collation, [Intl.DisplayNames], [Date.parse], the local time
    zone, the API key) is collected in the record [Host]; the network, the
    local storage and the clock are the state [World] that the asynchronous
    functions thread.

    Two things throw besides the code's own [throw] statements and a failed
    request: the conversion of a value to text, for an object that holds a
    property [toString], and a call to [localStorage] that the browser
    refuses.  So the normaliser of the currency list, which converts codes
    and names to text, may throw, and so may [getItem] and [setItem]. *)

From Stdlib Require Import List String Ascii Bool Arith ZArith Lia.
From Stdlib Require Import Floats DecimalString.
From Stdlib Require Import Sorting.Sorted Sorting.Permutation.
Import ListNotations.

Set Warnings "-register-all".

Local Open Scope string_scope.
Local Open Scope list_scope.
Local Open Scope nat_scope.

(** ** Strings *)

Module Str.

Definition chars (s : string) : list ascii := list_ascii_of_string s.

Definition isUpperAZ (c : ascii) : bool :=
  let n := nat_of_ascii c in (65 <=? n) && (n <=? 90).

Definition isLowerAZ (c : ascii) : bool :=
  let n := nat_of_ascii c in (97 <=? n) && (n <=? 122).

Definition upperChar (c : ascii) : ascii :=
  if isLowerAZ c then ascii_of_nat (nat_of_ascii c - 32) else c.

(** [String.prototype.toUpperCase]. *)
Fixpoint toUpperCase (s : string) : string :=
  match s with
  | EmptyString => EmptyString
  | String c r => String (upperChar c) (toUpperCase r)
  end.

(** White space and line terminators that [trim] strips. *)
Definition isSpace (c : ascii) : bool :=
  let n := nat_of_ascii c in ((9 <=? n) && (n <=? 13)) || (n =? 32).

Fixpoint trimStart (s : string) : string :=
  match s with
  | EmptyString => EmptyString
  | String c r => if isSpace c then trimStart r else s
  end.

Fixpoint trimEnd (s : string) : string :=
  match s with
  | EmptyString => EmptyString
  | String c r =>
      match trimEnd r with
      | EmptyString => if isSpace c then EmptyString else String c EmptyString
      | r' => String c r'
      end
  end.

(** [String.prototype.trim]. *)
Definition trim (s : string) : string := trimEnd (trimStart s).

(** [Array.prototype.join] on strings. *)
Fixpoint join (sep : string) (l : list string) : string :=
  match l with
  | [] => EmptyString
  | [s] => s
  | s :: r => (s ++ sep ++ join sep r)%string
  end.

(** Decimal text of an array index, and the index a property key
    denotes when it is the canonical text of one: of an integer below
    2^32 - 1. *)
Definition ofIndex (n : nat) : string := NilZero.string_of_uint (Nat.to_uint n).

Definition toIndex (k : string) : option N :=
  match NilZero.uint_of_string k with
  | Some u =>
      let n := N.of_uint u in
      if (n <? 4294967295)%N && String.eqb (NilZero.string_of_uint (N.to_uint n)) k
      then Some n
      else None
  | None => None
  end.

End Str.

(** The code pattern [/^[A-Z]{3,5}$/]. *)
Definition codePattern (s : string) : bool :=
  (3 <=? String.length s) && (String.length s <=? 5)
  && forallb Str.isUpperAZ (Str.chars s).

(** ** JavaScript values *)

Inductive Value : Type :=
| VUndefined
| VNull
| VBool (b : bool)
| VNum (x : float)
| VStr (s : string)
| VArr (items : list Value)
| VObj (props : list (string * Value)).

(** [VObj props] lists the own enumerable properties in the order
    [Object.entries] reports them; a key is looked up at its first entry. *)

Definition isNullish (v : Value) : bool :=
  match v with VUndefined | VNull => true | _ => false end.

(** [a ?? b]. *)
Definition coalesce (a b : Value) : Value := if isNullish a then b else a.

Declare Scope js_scope.
Delimit Scope js_scope with js.
Infix "??" := coalesce (at level 45, right associativity) : js_scope.
Local Open Scope js_scope.

(** Truthiness of a number: false for [0], [-0] and [NaN]. *)
Definition truthyNum (x : float) : bool :=
  negb (PrimFloat.is_zero x || PrimFloat.is_nan x).

(** [Boolean(v)]. *)
Definition truthy (v : Value) : bool :=
  match v with
  | VUndefined | VNull => false
  | VBool b => b
  | VNum x => truthyNum x
  | VStr s => negb (String.eqb s "")
  | VArr _ | VObj _ => true
  end.

(** [a || b]. *)
Definition orElse (a b : Value) : Value := if truthy a then a else b.

Fixpoint lookup {V : Type} (k : string) (l : list (string * V)) : option V :=
  match l with
  | [] => None
  | (k', v) :: r => if String.eqb k' k then Some v else lookup k r
  end.

(** The element of a list at an index, [undefined] past its end. *)
Definition element {A : Type} (i : N) (l : list A) : option A :=
  if (i <? N.of_nat (List.length l))%N then nth_error l (N.to_nat i) else None.

(** [v[k]] for a value that is neither [null] nor [undefined]: an own
    property of an object, an element of an array or a character of a
    string.  The keys read by this program are fixed lower-case names, trimmed
    upper-cased codes and own keys, so [length] and inherited members are never
    asked for. *)
Definition getProp (v : Value) (k : string) : Value :=
  match v with
  | VObj props => match lookup k props with Some x => x | None => VUndefined end
  | VArr items =>
      match Str.toIndex k with
      | Some i => match element i items with
                  | Some x => x
                  | None => VUndefined
                  end
      | None => VUndefined
      end
  | VStr s =>
      match Str.toIndex k with
      | Some i => match element i (Str.chars s) with
                  | Some c => VStr (String c EmptyString)
                  | None => VUndefined
                  end
      | None => VUndefined
      end
  | _ => VUndefined
  end.

(** [v?.k]. *)
Definition optProp (v : Value) (k : string) : Value :=
  if isNullish v then VUndefined else getProp v k.

Definition typeofNumber (v : Value) : bool :=
  match v with VNum _ => true | _ => false end.

Definition typeofString (v : Value) : bool :=
  match v with VStr _ => true | _ => false end.

(** [typeof v === 'object'] ([null] included). *)
Definition typeofObject (v : Value) : bool :=
  match v with VNull | VArr _ | VObj _ => true | _ => false end.

Definition isArray (v : Value) : bool :=
  match v with VArr _ => true | _ => false end.

Fixpoint indexed (n : nat) (l : list Value) : list (string * Value) :=
  match l with
  | [] => []
  | x :: r => (Str.ofIndex n, x) :: indexed (S n) r
  end.

(** [Object.entries(v)]. *)
Definition entries (v : Value) : list (string * Value) :=
  match v with
  | VObj props => props
  | VArr items => indexed 0 items
  | VStr s => indexed 0 (map (fun c => VStr (String c EmptyString)) (Str.chars s))
  | _ => []
  end.

(** [Object.keys(v)]. *)
Definition keys (v : Value) : list string := map fst (entries v).

(** ** The host platform *)

(** What the code takes from the JavaScript engine and the browser.  A field
    stands for one platform function; the theorems hold for every host, and
    those that need a property of one say so. *)
Record Host : Type := {
  (** [Number::toString]: the text of a number. *)
  numberToString : float -> string;
  (** [StringToNumber]: the number a text denotes, [NaN] when none. *)
  stringToNumber : string -> float;
  (** [String.prototype.localeCompare] as the sign of its result. *)
  localeCompare : string -> string -> comparison;
  (** [new Intl.DisplayNames(['en'], {type: 'currency'})]: [None] when the
      constructor throws; its [of] answers [None] when it throws, [Some None]
      for [undefined] and [Some (Some n)] for a name. *)
  displayNames : option (string -> option (option string));
  (** [new Date(text)] as a time value in milliseconds, [None] for an
      invalid date. *)
  dateParse : string -> option Z;
  (** Offset of local time from UTC, in milliseconds, at a UTC time value
      and at a local time value. *)
  offsetAtUTC : Z -> Z;
  offsetAtLocal : Z -> Z;
  (** [VITE_CURRENCYBEACON_API_KEY]. *)
  API_KEY : option string
}.

(** [String(v)] throws a [TypeError] for an object that holds a property
    [toString]: the property hides [Object.prototype.toString], no value of a
    payload can be called, and [valueOf] gives the object back, so that no
    primitive is found.  Such an object among the elements that an array joins
    makes [String] of the array throw too.  [Number(v)] and a pattern's [test]
    convert the same way and throw in the same cases. *)
Fixpoint stringThrows (v : Value) : bool :=
  match v with
  | VArr items =>
      (fix any (l : list Value) : bool :=
         match l with
         | [] => false
         | e :: r => stringThrows e || any r
         end) items
  | VObj props => match lookup "toString" props with Some _ => true | None => false end
  | _ => false
  end.

Section Conversions.

Context (h : Host).

(** The text [String(v)] gives when it returns. *)
Fixpoint toStr (v : Value) : string :=
  match v with
  | VUndefined => "undefined"
  | VNull => "null"
  | VBool true => "true"
  | VBool false => "false"
  | VNum x => numberToString h x
  | VStr s => s
  | VArr items =>
      Str.join ","
        (map (fun e => match e with
                       | VUndefined | VNull => ""
                       | _ => toStr e
                       end) items)
  | VObj _ => "[object Object]"
  end.

(** [String(v)]: [None] when it throws. *)
Definition stringOf (v : Value) : option string :=
  if stringThrows v then None else Some (toStr v).

(** [Number(v)].  Both calls of [Number] on a value of a payload sit in a
    [try] block (lines 245 and 364) whose handler does what the code does
    next for a number that is not finite; [NaN] stands for the [TypeError]
    thrown there. *)
Definition toNumber (v : Value) : float :=
  match v with
  | VUndefined => PrimFloat.nan
  | VNull => 0%float
  | VBool true => 1%float
  | VBool false => 0%float
  | VNum x => x
  | VStr s => stringToNumber h s
  | VArr _ | VObj _ =>
      if stringThrows v then PrimFloat.nan else stringToNumber h (toStr v)
  end.

End Conversions.

(** [JSON.parse(JSON.stringify(v))] for an object or array [v]: a property
    holding [undefined] is left out, an [undefined] array element and a
    number that is not finite become [null], and [-0] becomes [0]. *)
Fixpoint jsonClone (v : Value) : Value :=
  match v with
  | VUndefined => VNull
  | VNull => VNull
  | VBool b => VBool b
  | VNum x => if PrimFloat.is_finite x
              then (if PrimFloat.is_zero x then VNum 0%float else VNum x)
              else VNull
  | VStr s => VStr s
  | VArr items => VArr (map jsonClone items)
  | VObj props =>
      VObj ((fix go (l : list (string * Value)) : list (string * Value) :=
               match l with
               | [] => []
               | (k, VUndefined) :: r => go r
               | (k, x) :: r => (k, jsonClone x) :: go r
               end) props)
  end.

(** ** Objects built by the code *)

(** A JavaScript object used as a dictionary.  Own keys are reported with the
    integer-like keys first, ascending, then the other keys in the order of
    their first insertion; writing an existing key keeps its place. *)
Module Dict.

Definition t (V : Type) : Type := list (string * V).

Definition empty {V : Type} : t V := [].

Definition get {V : Type} (k : string) (d : t V) : option V := lookup k d.

Definition mem {V : Type} (k : string) (d : t V) : bool :=
  existsb (fun e => String.eqb (fst e) k) d.

Definition overwrite {V : Type} (k : string) (v : V) (d : t V) : t V :=
  map (fun e => if String.eqb (fst e) k then (fst e, v) else e) d.

Fixpoint placeIndex {V : Type} (i : N) (k : string) (v : V) (d : t V) : t V :=
  match d with
  | [] => [(k, v)]
  | e :: r =>
      match Str.toIndex (fst e) with
      | Some j => if (j <? i)%N then e :: placeIndex i k v r else (k, v) :: d
      | None => (k, v) :: d
      end
  end.

Definition place {V : Type} (k : string) (v : V) (d : t V) : t V :=
  match Str.toIndex k with
  | Some i => placeIndex i k v d
  | None => d ++ [(k, v)]
  end.

(** [d[k] = v]. *)
Definition set {V : Type} (k : string) (v : V) (d : t V) : t V :=
  if mem k d then overwrite k v d else place k v d.

(** [Object.keys(d)] and [Object.values(d)]. *)
Definition keys {V : Type} (d : t V) : list string := map fst d.
Definition values {V : Type} (d : t V) : list V := map snd d.

End Dict.

(** ** Sorting *)

(** [Array.prototype.sort] with a comparator: a stable sort.  For a
    consistent comparator the stable sorted arrangement is unique, so
    insertion from the right computes it. *)
Section Sort.

Context {A : Type} (cmp : A -> A -> comparison).

Definition leBy (a b : A) : bool :=
  match cmp a b with Gt => false | _ => true end.

Fixpoint insertBy (x : A) (l : list A) : list A :=
  match l with
  | [] => [x]
  | y :: r => if leBy x y then x :: l else y :: insertBy x r
  end.

Definition sortBy (l : list A) : list A := fold_right insertBy [] l.

End Sort.

(** The elements of [new Set(l)] in insertion order. *)
Fixpoint uniqFrom (seen l : list string) : list string :=
  match l with
  | [] => []
  | x :: r =>
      if existsb (String.eqb x) seen then uniqFrom seen r
      else x :: uniqFrom (x :: seen) r
  end.

Definition uniq (l : list string) : list string := uniqFrom [] l.

(** ** Currencies *)

(** [type Currency = { code; name; symbol? }].  [symbol] is [None] when the
    object has no such property and [Some v] when it holds [v], which may be
    [undefined]. *)
Record Currency : Type := {
  code : string;
  name : string;
  symbol : option Value
}.

Inductive CurrencyType : Type := Fiat | Crypto.

Definition typeName (t : CurrencyType) : string :=
  match t with Fiat => "fiat" | Crypto => "crypto" end.

(** The object a [Currency] is at run time. *)
Definition currencyValue (c : Currency) : Value :=
  VObj ([("code", VStr (code c)); ("name", VStr (name c))]
        ++ match symbol c with Some s => [("symbol", s)] | None => [] end).

Fixpoint mapM {A B : Type} (f : A -> option B) (l : list A) : option (list B) :=
  match l with
  | [] => Some []
  | x :: r =>
      match f x with
      | Some y => match mapM f r with Some r' => Some (y :: r') | None => None end
      | None => None
      end
  end.

(** A loop whose body may throw: [None] as soon as one step throws. *)
Fixpoint foldM {A B : Type} (f : A -> B -> option A) (l : list B) (a : A) : option A :=
  match l with
  | [] => Some a
  | b :: r =>
      match f a b with
      | Some a' => foldM f r a'
      | None => None
      end
  end.

Section Normalizers.

Context (h : Host).

(** The comparator of both sorts: name, then code. *)
Definition compareCurrency (a b : Currency) : comparison :=
  match localeCompare h (name a) (name b) with
  | Eq => localeCompare h (code a) (code b)
  | c => c
  end.

Definition sortCurrencies (l : list Currency) : list Currency :=
  sortBy compareCurrency l.

(** One step of the [map] in [currencyNames]; [None] when [of] throws. *)
Definition withDisplayName (of_ : string -> option (option string))
    (currency : Currency) : option Currency :=
  let hasMeaningfulName :=
    negb (String.eqb (name currency) "")
    && negb (String.eqb (Str.toUpperCase (name currency)) (code currency)) in
  match of_ (code currency) with
  | None => None
  | Some localizedName =>
      let finalName :=
        if hasMeaningfulName then name currency
        else match localizedName with
             | Some n => n
             | None => name currency
             end in
      Some {| code := code currency; name := finalName; symbol := symbol currency |}
  end.

Definition currencyNames (currencies : list Currency) : list Currency :=
  match displayNames h with
  | None => currencies
  | Some of_ =>
      match mapM (withDisplayName of_) currencies with
      | Some named => named
      | None => currencies
      end
  end.

(** The functions of the normaliser answer [None] when they throw the
    [TypeError] of [String] (lines 126 and 135). *)

Definition normalizeCode (value : Value) : option string :=
  match stringOf h (value ?? VStr "") with
  | Some text => Some (Str.toUpperCase (Str.trim text))
  | None => None
  end.

Definition addCandidate (codeRaw nameRaw symbolRaw : Value)
    (currencyByCode : Dict.t Currency) : option (Dict.t Currency) :=
  match normalizeCode codeRaw with
  | None => None
  | Some code =>
      if negb (codePattern code) then Some currencyByCode
      else
        match stringOf h (nameRaw ?? VStr code) with
        | None => None
        | Some name =>
            Some (Dict.set code {| code := code; name := name; symbol := Some symbolRaw |}
                    currencyByCode)
        end
  end.

Definition recordName (v code : Value) : Value :=
  getProp v "name" ?? getProp v "currency_name" ?? getProp v "fullName"
  ?? getProp v "currency" ?? getProp v "label" ?? code.

Definition recordSymbol (v : Value) : Value :=
  getProp v "symbol" ?? getProp v "symbol_native" ?? getProp v "sign".

(** The key of an object-map entry, offered as a code when it matches the
    code pattern. *)
Definition keyCode (key : string) : Value :=
  if codePattern key then VStr key else VUndefined.


(** The code of an array element (lines 150-155). *)
Definition itemCode (v : Value) : Value :=
  getProp v "short_code" ?? getProp v "code" ?? getProp v "iso_code"
  ?? getProp v "ticker" ?? getProp v "currency".

(** The code of an object-map value under [key] (lines 181-187). *)
Definition entryCode (key : string) (v : Value) : Value :=
  getProp v "short_code" ?? getProp v "code" ?? getProp v "iso_code"
  ?? getProp v "ticker" ?? getProp v "currency" ?? keyCode key.

(** Body of the loop over an array source. *)
Definition addItem (currencyByCode : Dict.t Currency) (item : Value)
    : option (Dict.t Currency) :=
  let v := item ?? VObj [] in
  let code := itemCode v in
  let name := recordName v code in
  let symbol := recordSymbol v in
  if truthy code && truthy name then addCandidate code name symbol currencyByCode
  else Some currencyByCode.

(** Body of the loop over the entries of an object source. *)
Definition addEntry (currencyByCode : Dict.t Currency) (e : string * Value)
    : option (Dict.t Currency) :=
  let (key, value) := e in
  match value with
  | VStr _ =>
      if codePattern key then addCandidate (VStr key) value VUndefined currencyByCode
      else Some currencyByCode
  | _ =>
      let v := value ?? VObj [] in
      let code := entryCode key v in
      let name := recordName v code in
      let symbol := recordSymbol v in
      if truthy code && truthy name then addCandidate code name symbol currencyByCode
      else Some currencyByCode
  end.

Definition addSource (currencyByCode : Dict.t Currency) (source : Value)
    : option (Dict.t Currency) :=
  if negb (truthy source) || negb (typeofObject source) then Some currencyByCode
  else if isArray source
       then match source with
            | VArr items => foldM addItem items currencyByCode
            | _ => Some currencyByCode
            end
       else foldM addEntry (entries source) currencyByCode.

Definition currencySources (raw : Value) (type : CurrencyType) : list Value :=
  [ optProp (optProp raw "response") "currencies";
    optProp (optProp raw "response") (typeName type);
    optProp raw "currencies";
    optProp (optProp raw "data") "currencies";
    optProp (optProp raw "data") (typeName type);
    optProp raw "response";
    raw ].

Definition parseCurrenciesJSON (raw : Value) (type : CurrencyType)
    : option (list Currency) :=
  match foldM addSource (currencySources raw type) Dict.empty with
  | Some currencyByCode => Some (sortCurrencies (Dict.values currencyByCode))
  | None => None
  end.

End Normalizers.

(** [Number.isFinite] on a number. *)
Definition isFinite (x : float) : bool := PrimFloat.is_finite x.

Definition addRate (out : Dict.t float) (e : string * Value) : Dict.t float :=
  let (code, value) := e in
  match value with
  | VNum x => if isFinite x then Dict.set (Str.toUpperCase code) x out else out
  | _ => out
  end.

(** [json?.rates ?? json?.response?.rates]. *)
Definition ratesObject (json : Value) : Value :=
  optProp json "rates" ?? optProp (optProp json "response") "rates".

Definition parseRates (json : Value) : Dict.t float :=
  let rates := ratesObject json in
  if negb (truthy rates) || negb (typeofObject rates) then Dict.empty
  else fold_left addRate (entries rates) Dict.empty.

(** ** Effects: the network, the local storage and the clock *)

(** A GET request as [get] issues it: the endpoint and the query. *)
Record Request : Type := {
  endpoint : string;
  query : list (string * string)
}.

(** What a stored text is to [JSON.parse]: text it rejects (the empty text
    included, which the code skips as falsy), or the value it yields. *)
Inductive Item : Type :=
| NotJSON
| JSONText (v : Value).

(** A call to [localStorage]. *)
Inductive StorageCall : Type :=
| GetItem (key : string)
| SetItem (key : string) (value : Item).

Record World : Type := {
  (** The answer to a request after the requests made so far: the parsed
      JSON body, or [None] when the fetch, the status or the body fails. *)
  network : list Request -> Request -> option Value;
  (** The requests made so far, oldest first. *)
  requests : list Request;
  (** [localStorage], latest write first. *)
  storage : list (string * Item);
  (** The calls that [localStorage] refuses: a refused call throws (a
      [SecurityError] where the page may not use the storage, a
      [QuotaExceededError] where a write does not fit) and changes nothing. *)
  refused : StorageCall -> bool;
  (** The readings of [Date.now()], by how many were taken before. *)
  clock : nat -> float;
  ticks : nat
}.

(** What is thrown: the error of [get], the two errors that the conversion
    engine raises itself, the [TypeError] of a conversion to text and the
    [DOMException] of a refused call to [localStorage]. *)
Inductive Exn : Type :=
| TransportError (endpoint : string)
| UnexpectedShape
| FallbackUnavailable
| TypeError
| StorageError.

(** How an asynchronous call settles.  [OutOfFuel] is not a behaviour of
    the program: it marks a run of the model cut short by its loop bound. *)
Inductive Outcome (A : Type) : Type :=
| Returned (a : A)
| Thrown (e : Exn)
| OutOfFuel.

Arguments Returned {A} a.
Arguments Thrown {A} e.
Arguments OutOfFuel {A}.

Definition M (A : Type) : Type := World -> Outcome A * World.

Definition ret {A : Type} (a : A) : M A := fun w => (Returned a, w).

Definition throw {A : Type} (e : Exn) : M A := fun w => (Thrown e, w).

(** The result of a synchronous call that may throw a [TypeError]. *)
Definition orThrow {A : Type} (r : option A) : M A :=
  match r with
  | Some a => ret a
  | None => throw TypeError
  end.

Definition bind {A B : Type} (m : M A) (k : A -> M B) : M B :=
  fun w =>
    match m w with
    | (Returned a, w') => k a w'
    | (Thrown e, w') => (Thrown e, w')
    | (OutOfFuel, w') => (OutOfFuel, w')
    end.

(** [try { body } catch { handler }]. *)
Definition tryCatch {A : Type} (body handler : M A) : M A :=
  fun w =>
    match body w with
    | (Thrown _, w') => handler w'
    | r => r
    end.

Declare Scope monad_scope.
Delimit Scope monad_scope with monad.
Notation "x <- m ;; k" := (bind m (fun x => k))
  (at level 61, m at next level, right associativity) : monad_scope.
Notation "m ;;; k" := (bind m (fun _ => k))
  (at level 61, right associativity) : monad_scope.
Local Open Scope monad_scope.

Definition logRequest (r : Request) (w : World) : World :=
  {| network := network w; requests := requests w ++ [r];
     storage := storage w; refused := refused w;
     clock := clock w; ticks := ticks w |}.

Definition tick (w : World) : World :=
  {| network := network w; requests := requests w;
     storage := storage w; refused := refused w;
     clock := clock w; ticks := S (ticks w) |}.

Definition store (k : string) (v : Item) (w : World) : World :=
  {| network := network w; requests := requests w;
     storage := (k, v) :: storage w; refused := refused w;
     clock := clock w; ticks := ticks w |}.

(** [Date.now()]. *)
Definition dateNow : M float := fun w => (Returned (clock w (ticks w)), tick w).

(** [localStorage.getItem] and [localStorage.setItem]. *)
Definition getItem (k : string) : M (option Item) :=
  fun w =>
    if refused w (GetItem k) then (Thrown StorageError, w)
    else (Returned (lookup k (storage w)), w).

Definition setItem (k : string) (v : Item) : M unit :=
  fun w =>
    if refused w (SetItem k v) then (Thrown StorageError, w)
    else (Returned tt, store k v w).

Section Transport.

Context (h : Host).

(** [URLSearchParams.prototype.set].  The parameters of a query are strings
    and numbers (line 23), whose conversion to text does not throw. *)
Definition querySet (k v : string) (q : list (string * string))
    : list (string * string) :=
  if Dict.mem k q then Dict.overwrite k v q else q ++ [(k, v)].

Definition buildQuery (params : list (string * Value)) : list (string * string) :=
  let query :=
    fold_left (fun q p => if isNullish (snd p) then q
                          else querySet (fst p) (toStr h (snd p)) q)
              params [] in
  match API_KEY h with
  | Some key => if String.eqb key "" then query else querySet "api_key" key query
  | None => query
  end.

Definition request (endpoint : string) (params : list (string * Value)) : Request :=
  {| endpoint := endpoint; query := buildQuery params |}.

(** [get(endpoint, params)]: the parsed body, or the error of lines 55-64
    (a rejected fetch and an unreadable body surface the same way). *)
Definition get (endpoint : string) (params : list (string * Value)) : M Value :=
  fun w =>
    let r := request endpoint params in
    match network w (requests w) r with
    | Some json => (Returned json, logRequest r w)
    | None => (Thrown (TransportError endpoint), logRequest r w)
    end.

End Transport.

(** ** The currency cache *)

Definition ONE_DAY : float := 86400000%float.

(** The currencies offered when only the rates are known (lines 272-275). *)
Definition currenciesOfRates (rates : Dict.t float) : list Currency :=
  let codes := filter codePattern (uniq ("USD" :: Dict.keys rates)) in
  map (fun c => {| code := c; name := c; symbol := None |}) codes.

(** What getCurrencies writes to [localStorage], as [JSON.parse] reads it back. *)
Definition cacheEntry (now : float) (list : list Currency) : Item :=
  JSONText (jsonClone (VObj [("at", VNum now); ("items", VArr (map currencyValue list))])).

Section Cache.

Context (h : Host).

Definition cacheKey (type : CurrencyType) : string :=
  ("cb_currencies_v6_" ++ typeName type)%string.

(** [items] is an array, not empty, and every code looks like one.  A code
    that [test] cannot convert to text throws into the handler of line 254,
    which leads to the refetch as a code that fails the pattern does; the text
    [toStr] gives for such a code does fail it. *)
Definition looksValid (items : Value) : bool :=
  match items with
  | VArr l =>
      (0 <? List.length l)
      && forallb (fun x => codePattern (toStr h (optProp x "code"))) l
  | _ => false
  end.

(** Lines 238-257: the cached items when the entry is usable.  A text that
    does not parse, and [null] (whose destructuring throws), are caught
    and lead to the refetch. *)
Definition readCache (type : CurrencyType) : M (option (list Value)) :=
  cached <- getItem (cacheKey type) ;;
  match cached with
  | Some (JSONText parsed) =>
      if isNullish parsed then ret None
      else
        let at_ := getProp parsed "at" in
        let items := getProp parsed "items" in
        now <- dateNow ;;
        let fresh := PrimFloat.ltb (now - toNumber h at_)%float ONE_DAY in
        if fresh && looksValid items
        then match items with
             | VArr l => ret (Some l)
             | _ => ret None
             end
        else ret None
  | _ => ret None
  end.

(** Lines 259-288: fetch, fall back, name, sort and store. *)
Definition fetchCurrencies (type : CurrencyType) : M (list Value) :=
  list <- tryCatch
            (raw <- get h "currencies" [("type", VStr (typeName type))] ;;
             orThrow (parseCurrenciesJSON h raw type))
            (ret []) ;;
  list <- (if List.length list <? 5
           then tryCatch
                  (latest <- get h "latest" [] ;;
                   ret (currenciesOfRates (parseRates latest)))
                  (ret list)
           else ret list) ;;
  let list := sortCurrencies h (currencyNames h list) in
  now <- dateNow ;;
  setItem (cacheKey type) (cacheEntry now list) ;;;
  ret (map currencyValue list).

Definition getCurrencies (type : CurrencyType) : M (list Value) :=
  hit <- readCache type ;;
  match hit with
  | Some items => ret items
  | None => fetchCurrencies type
  end.

End Cache.

(** ** The conversion engine *)

Record ConvertResponse : Type := {
  result : float;
  rate : option float;
  meta : Value
}.

Definition ratesValue (rates : Dict.t float) : Value :=
  VObj (map (fun e => (fst e, VNum (snd e))) rates).

Definition fallbackMeta (rates : Dict.t float) : Value :=
  VObj [("fallback", VBool true); ("base", VStr "USD"); ("rates", ratesValue rates)].

(** [side === 'USD' ? 1 : rates[side]], [None] for [undefined]. *)
Definition rateUSD (side : string) (rates : Dict.t float) : option float :=
  if String.eqb side "USD" then Some 1%float else Dict.get side rates.

Definition symbolsNeeded (from to : string) : list string :=
  (if String.eqb from "USD" then [] else [from])
  ++ (if String.eqb to "USD" then [] else [to]).

Definition latestParams (from to : string) : list (string * Value) :=
  let symbols := Str.join "," (uniq (symbolsNeeded from to)) in
  if String.eqb symbols "" then [] else [("symbols", VStr symbols)].

Record ConvertParams : Type := {
  from : string;
  to : string;
  amount : float
}.

Section Conversion.

Context (h : Host).

Definition convertViaUSD (from to : string) (amount : float) : M ConvertResponse :=
  latest <- get h "latest" (latestParams from to) ;;
  let rates := parseRates latest in
  match rateUSD from rates, rateUSD to rates with
  | Some fromRateUSD, Some toRateUSD =>
      let perUnitRate := (toRateUSD / fromRateUSD)%float in
      ret {| result := (amount * perUnitRate)%float;
             rate := Some perUnitRate;
             meta := fallbackMeta rates |}
  | _, _ => throw FallbackUnavailable
  end.

(** The number read from a [convert] payload (lines 364-370). *)
Definition convertResult (json : Value) : float :=
  toNumber h
    (optProp json "result" ?? optProp (optProp json "response") "value"
     ?? optProp (optProp json "response") "result"
     ?? optProp (optProp json "data") "result" ?? optProp json "value").

Definition normalizeSide (s : string) : string := Str.toUpperCase (Str.trim s).

(** [Number(params.amount) || 0]. *)
Definition normalizeAmount (x : float) : float :=
  if truthyNum x then x else 0%float.

Definition convertRequestParams (from to : string) (amount : float)
    : list (string * Value) :=
  [("from", VStr from); ("to", VStr to); ("amount", VNum amount)].

Definition convertOnce (params : ConvertParams) : M ConvertResponse :=
  let from := normalizeSide (from params) in
  let to := normalizeSide (to params) in
  let amount := normalizeAmount (amount params) in
  tryCatch
    (json <- get h "convert" (convertRequestParams from to amount) ;;
     let result := convertResult json in
     if isFinite result
     then
       let perUnit := if truthyNum amount then Some (result / amount)%float else None in
       ret {| result := result; rate := perUnit; meta := json |}
     else throw UnexpectedShape)
    (convertViaUSD from to amount).

End Conversion.

(** ** Dates *)

Module DateTime.

Local Open Scope Z_scope.

Definition msPerDay : Z := 86400000.

(** Largest time value a [Date] holds. *)
Definition maxTime : Z := 8640000000000000.

Definition timeClip (t : Z) : option Z :=
  if Z.abs t <=? maxTime then Some t else None.

(** Year, month and day of a day number counted from 1970-01-01, in the
    proleptic Gregorian calendar. *)
Definition civilFromDays (day : Z) : Z * Z * Z :=
  let z := day + 719468 in
  let era := z / 146097 in
  let doe := z - era * 146097 in
  let yoe := (doe - doe / 1460 + doe / 36524 - doe / 146096) / 365 in
  let doy := doe - (365 * yoe + yoe / 4 - yoe / 100) in
  let mp := (5 * doy + 2) / 153 in
  let d := doy - (153 * mp + 2) / 5 + 1 in
  let m := if mp <? 10 then mp + 3 else mp - 9 in
  let y := yoe + era * 400 + (if m <=? 2 then 1 else 0) in
  (y, m, d).

(** The day number of a calendar date. *)
Definition daysFromCivil (y m d : Z) : Z :=
  let y' := if m <=? 2 then y - 1 else y in
  let era := y' / 400 in
  let yoe := y' - era * 400 in
  let doy := (153 * (if 2 <? m then m - 3 else m + 9) + 2) / 5 + d - 1 in
  let doe := yoe * 365 + yoe / 4 - yoe / 100 + doy in
  era * 146097 + doe - 719468.

Definition digits (n : Z) : string :=
  NilZero.string_of_uint (N.to_uint (Z.to_N n)).

Fixpoint zeros (n : nat) : string :=
  match n with O => EmptyString | S k => String "0" (zeros k) end.

(** [n] in decimal, padded with zeros to [width] digits. *)
Definition pad (width : nat) (n : Z) : string :=
  let s := digits n in
  (zeros (width - String.length s) ++ s)%string.

(** The year of [toISOString]: four digits, or a sign and six digits
    outside 0..9999. *)
Definition isoYear (y : Z) : string :=
  if (0 <=? y) && (y <=? 9999) then pad 4 y
  else if y <? 0 then ("-" ++ pad 6 (- y))%string
       else ("+" ++ pad 6 y)%string.

(** [d.toISOString().slice(0, 10)] for a date of time value [t]. *)
Definition isoDate (t : Z) : string :=
  let '(y, m, d) := civilFromDays (t / msPerDay) in
  String.substring 0 10 (isoYear y ++ "-" ++ pad 2 m ++ "-" ++ pad 2 d)%string.

Section Local.

Context (h : Host).

(** [d.setDate(d.getDate() + 1)]: one day later on the local clock. *)
Definition setNextDate (t : Z) : option Z :=
  let localTime := t + offsetAtUTC h t + msPerDay in
  timeClip (localTime - offsetAtLocal h localTime).

(** The loop of lines 449-452.  [None] when [fuel] iterations did not
    reach the end of the range. *)
Fixpoint daysBetween (fuel : nat) (d end_ : option Z) : option (list string) :=
  match fuel with
  | O => None
  | S fuel' =>
      match d, end_ with
      | Some t, Some e =>
          if t <=? e
          then option_map (cons (isoDate t)) (daysBetween fuel' (setNextDate t) end_)
          else Some []
      | _, _ => Some []
      end
  end.

End Local.

End DateTime.

(** ** The timeseries engine *)

Module TimeseriesPoint.
Record t : Type := { date : string; rate : float }.
End TimeseriesPoint.

Record TimeseriesParams : Type := {
  ts_from : string;
  ts_to : string;
  ts_start : string;
  ts_end : string
}.

(** [side === 'USD' ? 1 : day[side]] when it is a number. *)
Definition dayRate (side : string) (day : Value) : option float :=
  if String.eqb side "USD" then Some 1%float
  else match getProp day side with
       | VNum x => Some x
       | _ => None
       end.

(** The point of one date of the [timeseries] payload, if both sides resolve. *)
Definition bucketPoint (from to : string) (buckets : Value) (d : string)
    : option TimeseriesPoint.t :=
  let day := orElse (getProp buckets d) (VObj []) in
  match dayRate from day, dayRate to day with
  | Some rFrom, Some rTo =>
      Some {| TimeseriesPoint.date := d; TimeseriesPoint.rate := (rTo / rFrom)%float |}
  | _, _ => None
  end.

Fixpoint filterMap {A B : Type} (f : A -> option B) (l : list A) : list B :=
  match l with
  | [] => []
  | x :: r => match f x with
              | Some y => y :: filterMap f r
              | None => filterMap f r
              end
  end.

(** [json?.rates ?? json?.data?.rates ?? json?.response?.rates ?? {}]. *)
Definition timeseriesBuckets (json : Value) : Value :=
  optProp json "rates" ?? optProp (optProp json "data") "rates"
  ?? optProp (optProp json "response") "rates" ?? VObj [].

(** Lines 421-436: the series read from a [timeseries] payload.  The
    default [sort] orders the dates by their code units. *)
Definition batchSeries (from to : string) (json : Value) : list TimeseriesPoint.t :=
  let buckets := timeseriesBuckets json in
  let dates := sortBy String.compare (keys buckets) in
  filterMap (bucketPoint from to buckets) dates.

Section Timeseries.

Context (h : Host).

Definition symbolsPair (from to : string) : string := (from ++ "," ++ to)%string.

(** Lines 456-474: one day of the fallback; a failing or incomplete day
    gives no point. *)
Definition historicalPoint (from to day : string) : M (option TimeseriesPoint.t) :=
  tryCatch
    (json <- get h "historical"
               [("base", VStr "USD"); ("date", VStr day);
                ("symbols", VStr (symbolsPair from to))] ;;
     let rates := parseRates json in
     match rateUSD from rates, rateUSD to rates with
     | Some rFrom, Some rTo =>
         ret (Some {| TimeseriesPoint.date := day;
                      TimeseriesPoint.rate := (rTo / rFrom)%float |})
     | _, _ => ret None
     end)
    (ret None).

Fixpoint historicalSeries (from to : string) (days : list string)
    : M (list TimeseriesPoint.t) :=
  match days with
  | [] => ret []
  | day :: rest =>
      p <- historicalPoint from to day ;;
      ps <- historicalSeries from to rest ;;
      ret (match p with Some x => x :: ps | None => ps end)
  end.

Definition compareDate (a b : TimeseriesPoint.t) : comparison :=
  localeCompare h (TimeseriesPoint.date a) (TimeseriesPoint.date b).

Definition timeseriesParams (from to : string) (params : TimeseriesParams)
    : list (string * Value) :=
  [("base", VStr "USD");
   ("start_date", VStr (ts_start params));
   ("end_date", VStr (ts_end params));
   ("symbols", VStr (symbolsPair from to))].

(** [fuel] bounds the iterations of the loop that lists the days. *)
Definition getTimeseries (fuel : nat) (params : TimeseriesParams)
    : M (list TimeseriesPoint.t) :=
  let from := Str.toUpperCase (Str.trim (ts_from params)) in
  let to := Str.toUpperCase (Str.trim (ts_to params)) in
  series <- tryCatch
              (json <- get h "timeseries" (timeseriesParams from to params) ;;
               ret (batchSeries from to json))
              (ret []) ;;
  match series with
  | _ :: _ => ret series
  | [] =>
      let start := dateParse h (ts_start params) in
      let end_ := dateParse h (ts_end params) in
      match DateTime.daysBetween h fuel start end_ with
      | None => fun w => (OutOfFuel, w)
      | Some days =>
          results <- historicalSeries from to days ;;
          ret (sortBy compareDate results)
      end
  end.

End Timeseries.


(** ** The option list of a currency select ([components/CurrencySelect.tsx]) *)

Module CurrencySelect.

(** [[...options].sort(...)]: the options in the order they are shown. *)
Definition sorted (h : Host) (options : list Currency) : list Currency :=
  sortBy (fun a b => match localeCompare h (name a) (name b) with
                     | Eq => localeCompare h (code a) (code b)
                     | c => c
                     end) options.

Definition getLabel (opt : Currency) : string :=
  if negb (String.eqb (name opt) "")
     && negb (String.eqb (Str.toUpperCase (name opt)) (code opt))
  then (name opt ++ " (" ++ code opt ++ ")")%string
  else code opt.

End CurrencySelect.

(** ** The conversion effect of the application ([App]) *)

Module App.

(** The state the effect writes: [converted], [rate], [loadingConv] and
    [errConv], the last as the error its message is taken from. *)
Record ConversionState : Type := {
  converted : option float;
  displayRate : option float;
  loadingConv : bool;
  errConv : option Exn
}.

(** [!debouncedAmount || debouncedAmount < 0 || !fromCode || !toCode]. *)
Definition nothingToConvert (debouncedAmount : float) (fromCode toCode : string) : bool :=
  negb (truthyNum debouncedAmount) || PrimFloat.ltb debouncedAmount 0
  || String.eqb fromCode "" || String.eqb toCode "".

(** [res.rate ?? (debouncedAmount ? res.result / debouncedAmount : null)]. *)
Definition rateOf (debouncedAmount : float) (res : ConvertResponse) : option float :=
  match rate res with
  | Some r => Some r
  | None => if truthyNum debouncedAmount
            then Some (result res / debouncedAmount)%float
            else None
  end.

(** One run of the effect that is not cancelled, from the state [s]. *)
Definition convertEffect (h : Host) (debouncedAmount : float) (fromCode toCode : string)
    (s : ConversionState) : M ConversionState :=
  if nothingToConvert debouncedAmount fromCode toCode
  then ret {| converted := None; displayRate := None;
              loadingConv := loadingConv s; errConv := errConv s |}
  else
    fun w =>
      match convertOnce h {| from := fromCode; to := toCode; amount := debouncedAmount |} w with
      | (Returned res, w') =>
          (Returned {| converted := Some (result res);
                       displayRate := rateOf debouncedAmount res;
                       loadingConv := false; errConv := None |}, w')
      | (Thrown e, w') =>
          (Returned {| converted := None; displayRate := None;
                       loadingConv := false; errConv := Some e |}, w')
      | (OutOfFuel, w') => (OutOfFuel, w')
      end.

End App.

(** ** A reference host, for running the model on concrete inputs *)

Module Fixture.

(** The integer a number is, when it is one. *)
Definition integerOf (x : float) : option Z :=
  match Prim2SF x with
  | S754_zero _ => Some 0%Z
  | S754_finite s m e =>
      let v := if (0 <=? e)%Z then (Z.pos m * 2 ^ e)%Z
               else (Z.pos m / 2 ^ (- e))%Z in
      if (0 <=? e)%Z || (Z.pos m mod 2 ^ (- e) =? 0)%Z
      then Some (if s then (- v)%Z else v)
      else None
  | _ => None
  end.

(** Exact on the integers; the examples print no other number. *)
Definition printNumber (x : float) : string :=
  match integerOf x with
  | Some z => if (z <? 0)%Z then ("-" ++ DateTime.digits (- z))%string
              else DateTime.digits z
  | None => "NaN"
  end.

(** Exact on unsigned decimal integers below 2^53 and on the empty text;
    the examples read no other text as a number. *)
Definition readNumber (s : string) : float :=
  if String.eqb s "" then 0%float
  else match NilZero.uint_of_string s with
       | Some u =>
           let z := Z.of_N (N.of_uint u) in
           if (z <? 2 ^ 53)%Z then PrimFloat.of_uint63 (Uint63.of_Z z)
           else PrimFloat.nan
       | None => PrimFloat.nan
       end.

Definition englishName (c : string) : option string :=
  lookup c [("USD", "US Dollar"); ("EUR", "Euro"); ("GBP", "British Pound");
            ("JPY", "Japanese Yen"); ("CHF", "Swiss Franc")].

(** [of] accepts three letters only, and answers the code itself when it
    knows no name for it. *)
Definition displayNameOf (c : string) : option (option string) :=
  if (String.length c =? 3) && forallb Str.isUpperAZ (Str.chars (Str.toUpperCase c))
  then Some (Some (match englishName (Str.toUpperCase c) with
                   | Some n => n
                   | None => Str.toUpperCase c
                   end))
  else None.

Definition digitValue (c : ascii) : option Z :=
  let n := nat_of_ascii c in
  if (48 <=? n) && (n <=? 57) then Some (Z.of_nat (n - 48)) else None.

Fixpoint numeral (acc : Z) (l : list ascii) : option Z :=
  match l with
  | [] => Some acc
  | c :: r => match digitValue c with
              | Some d => numeral (10 * acc + d)%Z r
              | None => None
              end
  end.

Definition daysInMonth (y m : Z) : Z :=
  (DateTime.daysFromCivil (if m =? 12 then y + 1 else y) (if m =? 12 then 1 else m + 1) 1
   - DateTime.daysFromCivil y m 1)%Z.

(** The date-only form [YYYY-MM-DD], read as midnight UTC. *)
Definition parseISODate (s : string) : option Z :=
  match Str.chars s with
  | [y1; y2; y3; y4; "-"%char; m1; m2; "-"%char; d1; d2] =>
      match numeral 0 [y1; y2; y3; y4], numeral 0 [m1; m2], numeral 0 [d1; d2] with
      | Some y, Some m, Some d =>
          if ((1 <=? m) && (m <=? 12) && (1 <=? d) && (d <=? daysInMonth y m))%Z
          then Some (DateTime.daysFromCivil y m d * DateTime.msPerDay)%Z
          else None
      | _, _, _ => None
      end
  | _ => None
  end.

(** A host on UTC. *)
Definition utcHost : Host :=
  {| numberToString := printNumber;
     stringToNumber := readNumber;
     localeCompare := String.compare;
     displayNames := Some displayNameOf;
     dateParse := parseISODate;
     offsetAtUTC := fun _ => 0%Z;
     offsetAtLocal := fun _ => 0%Z;
     API_KEY := Some "demo" |}.

Definition hour : Z := 3600000.

(** Daylight saving time began in New York on 2024-03-10 at 02:00 local
    time, 07:00 UTC. *)
Definition dstStartUTC : Z :=
  (DateTime.daysFromCivil 2024 3 10 * DateTime.msPerDay + 7 * hour)%Z.

Definition dstStartLocal : Z :=
  (DateTime.daysFromCivil 2024 3 10 * DateTime.msPerDay + 2 * hour)%Z.

(** A host on New York time, for dates of the winter and spring of 2024. *)
Definition newYorkHost : Host :=
  {| numberToString := printNumber;
     stringToNumber := readNumber;
     localeCompare := String.compare;
     displayNames := Some displayNameOf;
     dateParse := parseISODate;
     offsetAtUTC := fun t => if (t <? dstStartUTC)%Z then (- 5 * hour)%Z else (- 4 * hour)%Z;
     offsetAtLocal := fun t => if (t <? dstStartLocal)%Z then (- 5 * hour)%Z else (- 4 * hour)%Z;
     API_KEY := Some "demo" |}.

(** A world with the network [net], no requests made, the storage [st],
    which refuses no call, and a clock that always reads [now]. *)
Definition world (net : list Request -> Request -> option Value)
    (st : list (string * Item)) (now : float) : World :=
  {| network := net; requests := []; storage := st;
     refused := fun _ => false;
     clock := fun _ => now; ticks := 0 |}.

(** The same with a storage that is full: it is read, and takes no write. *)
Definition fullStorage (net : list Request -> Request -> option Value)
    (st : list (string * Item)) (now : float) : World :=
  {| network := net; requests := []; storage := st;
     refused := fun c => match c with SetItem _ _ => true | GetItem _ => false end;
     clock := fun _ => now; ticks := 0 |}.

(** The same with a storage that the page may not use. *)
Definition noStorage (net : list Request -> Request -> option Value)
    (now : float) : World :=
  {| network := net; requests := []; storage := [];
     refused := fun _ => true;
     clock := fun _ => now; ticks := 0 |}.

(** Every request fails. *)
Definition offline : list Request -> Request -> option Value := fun _ _ => None.

(** The endpoint [name] answers [body]; every other request fails. *)
Definition only (name : string) (body : Value) : list Request -> Request -> option Value :=
  fun _ r => if String.eqb (endpoint r) name then Some body else None.

(** Payloads of the shapes the normalisers meet. *)



Definition mixedPayload : Value :=
  VObj [("response",
         VArr [VObj [("short_code", VStr "usd"); ("name", VStr "US Dollar");
                     ("symbol", VStr "$")];
               VObj [("code", VStr "EUR")];
               VObj [("short_code", VStr "GBP"); ("name", VStr "Alpha")]]);
        ("EUR", VStr "Euro");
        ("JPY", VObj [("name", VStr "Yen")]);
        ("meta", VObj [("code", VNum 200)])].

(** A well-formed record before one whose code holds a property
    [toString]. *)
Definition unreadableCode : Value :=
  VArr [VObj [("code", VStr "EUR"); ("name", VStr "Euro")];
        VObj [("code", VObj [("toString", VNull)]); ("name", VStr "Dollar")]].


Definition negativeRate : Value :=
  VObj [("rates", VObj [("EUR", VNum (-1)); ("gbp", VNum 0.5); ("JPY", VStr "150")])].

(** Conversions and the worlds they run in. *)

Definition usdToUsd : ConvertParams := {| from := "USD"; to := "USD"; amount := 100 |}.

Definition eurToGbp : ConvertParams := {| from := " eur"; to := "gbp "; amount := 10 |}.

Definition eurToUsdOfNothing : ConvertParams := {| from := "EUR"; to := "USD"; amount := 0 |}.

Definition latestEurGbp : Value :=
  VObj [("rates", VObj [("EUR", VNum 0.5); ("GBP", VNum 0.25)])].

Definition latestEurOnly : Value :=
  VObj [("response", VObj [("rates", VObj [("EUR", VNum 0.5)])])].

Definition convertedZero : Value := VObj [("result", VNum 0)].

(** Stored entries and currency payloads for the cache. *)

Definition emptyEntry : Item :=
  JSONText (VObj [("at", VNum 1000); ("items", VArr [])]).

Definition twoCurrencies : Value :=
  VObj [("response",
         VArr [VObj [("short_code", VStr "USD"); ("name", VStr "US Dollar")];
               VObj [("short_code", VStr "EUR"); ("name", VStr "EUR")]])].

Definition euroOnly : list Currency :=
  [{| code := "EUR"; name := "Euro"; symbol := None |}].

(** A range of days across the start of daylight saving time, and the
    payloads of the two timeseries endpoints. *)

Definition marchRange : TimeseriesParams :=
  {| ts_from := "USD"; ts_to := "EUR"; ts_start := "2024-03-09"; ts_end := "2024-03-12" |}.

Definition historicalEur : Value := VObj [("rates", VObj [("EUR", VNum 0.5)])].

Definition twoDatesOneComplete : Value :=
  VObj [("rates",
         VObj [("2024-03-10", VObj [("EUR", VNum 0.5)]);
               ("2024-03-09", VObj [("GBP", VNum 0.25)])])].

Definition point (d : string) (r : float) : TimeseriesPoint.t :=
  {| TimeseriesPoint.date := d; TimeseriesPoint.rate := r |}.

(** A list in which one code has four letters. *)
Definition withTether : list Currency :=
  [{| code := "EUR"; name := "EUR"; symbol := None |};
   {| code := "USDT"; name := "USDT"; symbol := None |}].

(** Two records of one code, and rates whose keys differ in case only. *)

Definition dollarOld : Value := VObj [("code", VStr "usd"); ("name", VStr "Old dollar")].

Definition dollarNew : Value :=
  VObj [("short_code", VStr "USD"); ("name", VStr "US Dollar"); ("symbol", VStr "$")].

Definition euroTwice : Value :=
  VObj [("rates", VObj [("eur", VNum 0.5); ("EUR", VNum 0.25); ("GBP", VNum 2)])].

(** A [convert] payload whose [result] is [null] and whose value sits
    under [response], and worlds with a stored list. *)

Definition convertedUnderResponse : Value :=
  VObj [("result", VNull); ("response", VObj [("value", VNum 9)])].

Definition usdToEur3 : ConvertParams := {| from := "USD"; to := "EUR"; amount := 3 |}.

Definition cachedFiat : list (string * Item) :=
  [(cacheKey Fiat, cacheEntry 1000 euroOnly)].

Definition idle : App.ConversionState :=
  {| App.converted := None; App.displayRate := None;
     App.loadingConv := false; App.errConv := None |}.

End Fixture.


(** ** Predicates and functions the statements use *)

(** A comparator is consistent when swapping its arguments flips its sign
    and "not greater" is transitive: what [Array.prototype.sort] asks of it. *)
Record Consistent {A : Type} (cmp : A -> A -> comparison) : Prop := {
  cmp_flip : forall a b, cmp b a = CompOpp (cmp a b);
  cmp_trans : forall a b c, cmp a b <> Gt -> cmp b c <> Gt -> cmp a c <> Gt
}.

(** The accumulation table holds one entry per key, each a currency whose
    code is its key and matches the code pattern. *)
Definition TableOK (d : Dict.t Currency) : Prop :=
  NoDup (Dict.keys d)
  /\ Forall (fun e => code (snd e) = fst e /\ codePattern (fst e) = true) d.

(** [localStorage] lets the entry of a category be read, and takes a write
    under its key. *)
Definition readable (w : World) (type : CurrencyType) : Prop :=
  refused w (GetItem (cacheKey type)) = false.

Definition writable (w : World) (type : CurrencyType) : Prop :=
  forall entry, refused w (SetItem (cacheKey type) entry) = false.

(** The stored entry of a category is usable, with items [l]: [getItem]
    reads it, it parses to a value other than [null], its age is under a day,
    and its items are a non-empty array whose every code matches the code
    pattern. *)
Definition cacheUsable (h : Host) (type : CurrencyType) (w : World) (l : list Value)
    : Prop :=
  exists parsed,
    fst (getItem (cacheKey type) w) = Returned (Some (JSONText parsed))
    /\ isNullish parsed = false
    /\ PrimFloat.ltb (clock w (ticks w) - toNumber h (getProp parsed "at"))%float ONE_DAY
       = true
    /\ getProp parsed "items" = VArr l
    /\ l <> []
    /\ forallb (fun x => codePattern (toStr h (optProp x "code"))) l = true.

(** The body of the loop of [buildQuery]. *)
Definition queryStep (h : Host) (q : list (string * string)) (p : string * Value)
    : list (string * string) :=
  if isNullish (snd p) then q else querySet (fst p) (toStr h (snd p)) q.

(** A currency has a name of its own: one that is not empty and is not its
    code in another case ([hasMeaningfulName], lines 82-83). *)
Definition hasMeaningfulName (c : Currency) : bool :=
  negb (String.eqb (name c) "")
  && negb (String.eqb (Str.toUpperCase (name c)) (code c)).

(** The places a [convert] payload is searched for its result, in order. *)
Definition resultPlaces (json : Value) : list Value :=
  [ optProp json "result";
    optProp (optProp json "response") "value";
    optProp (optProp json "response") "result";
    optProp (optProp json "data") "result";
    optProp json "value" ].

(** The request of one day of the fallback. *)
Definition historicalRequest (h : Host) (from to day : string) : Request :=
  request h "historical"
    [("base", VStr "USD"); ("date", VStr day); ("symbols", VStr (symbolsPair from to))].

(** Iterations that the loop listing the days needs at most, on a host
    whose local time keeps one offset from UTC. *)
Definition daysNeeded (h : Host) (params : TimeseriesParams) : nat :=
  match dateParse h (ts_start params), dateParse h (ts_end params) with
  | Some s, Some e => Z.to_nat ((e - s) / DateTime.msPerDay) + 2
  | _, _ => 1
  end.

(** Every code of a list of currencies matches the code pattern. *)
Definition validCodes (l : list Currency) : Prop :=
  Forall (fun c => codePattern (code c) = true) l.

(** The request for the currency list and the request of its fallback. *)
Definition currenciesRequest (h : Host) (type : CurrencyType) : Request :=
  request h "currencies" [("type", VStr (typeName type))].

Definition latestRequest (h : Host) : Request := request h "latest" [].

(** The list that the first [try] block of [getCurrencies] leaves (lines
    260-266): the normalised answer of [currencies], and the empty list when
    the request fails or the normaliser throws. *)
Definition primaryList (h : Host) (type : CurrencyType) (w : World) : list Currency :=
  match network w (requests w) (currenciesRequest h type) with
  | Some raw =>
      match parseCurrenciesJSON h raw type with
      | Some list => list
      | None => []
      end
  | None => []
  end.

(** Some object within a value holds a property [toString]. *)
Fixpoint hasToString (v : Value) : bool :=
  match v with
  | VArr items =>
      (fix any (l : list Value) : bool :=
         match l with
         | [] => false
         | e :: r => hasToString e || any r
         end) items
  | VObj props =>
      (fix any (l : list (string * Value)) : bool :=
         match l with
         | [] => false
         | (k, x) :: r => String.eqb k "toString" || hasToString x || any r
         end) props
  | _ => false
  end.

(** [x1 ?? x2 ?? ... ?? xn]. *)
Fixpoint coalesceAll (l : list Value) : Value :=
  match l with
  | [] => VUndefined
  | [x] => x
  | x :: r => x ?? coalesceAll r
  end.


(** * Properties *)

(** ** Sorting *)

Section SortFacts.

Context {A : Type} (cmp : A -> A -> comparison).

Lemma insertBy_perm (x : A) (l : list A) :
  Permutation (insertBy cmp x l) (x :: l).
Proof.
  induction l as [|y r IH]; simpl.
  - reflexivity.
  - destruct (leBy cmp x y).
    + reflexivity.
    + rewrite IH. apply perm_swap.
Qed.

Lemma sortBy_perm (l : list A) : Permutation (sortBy cmp l) l.
Proof.
  induction l as [|x r IH]; simpl.
  - constructor.
  - rewrite insertBy_perm. now constructor.
Qed.

Lemma sortBy_nil_iff (l : list A) : sortBy cmp l = [] <-> l = [].
Proof.
  split; intros E.
  - pose proof (sortBy_perm l) as P. rewrite E in P.
    now apply Permutation_nil in P.
  - subst. reflexivity.
Qed.

Hypothesis total : forall a b, leBy cmp a b = true \/ leBy cmp b a = true.
Hypothesis trans : forall a b c,
  leBy cmp a b = true -> leBy cmp b c = true -> leBy cmp a c = true.

Lemma insertBy_sorted (x : A) (l : list A) :
  StronglySorted (fun a b => leBy cmp a b = true) l ->
  StronglySorted (fun a b => leBy cmp a b = true) (insertBy cmp x l).
Proof.
  induction 1 as [|y r Hs IH Hy]; simpl.
  - repeat constructor.
  - destruct (leBy cmp x y) eqn:E.
    + constructor.
      * now constructor.
      * constructor; [exact E|].
        eapply Forall_impl; [|exact Hy]. intros z Hz. now apply trans with y.
    + constructor; [exact IH|].
      apply (Permutation_Forall (Permutation_sym (insertBy_perm x r))).
      constructor; [|exact Hy].
      destruct (total x y) as [T|T]; [congruence|exact T].
Qed.

Lemma sortBy_sorted (l : list A) :
  StronglySorted (fun a b => leBy cmp a b = true) (sortBy cmp l).
Proof.
  induction l as [|x r IH]; simpl.
  - constructor.
  - now apply insertBy_sorted.
Qed.

End SortFacts.

Lemma leBy_iff {A : Type} (cmp : A -> A -> comparison) (a b : A) :
  leBy cmp a b = true <-> cmp a b <> Gt.
Proof.
  unfold leBy. destruct (cmp a b); split; intros; try congruence; try reflexivity.
Qed.

Lemma consistent_total {A : Type} (cmp : A -> A -> comparison) :
  Consistent cmp -> forall a b, leBy cmp a b = true \/ leBy cmp b a = true.
Proof.
  intros [F _] a b. unfold leBy. rewrite (F a b).
  destruct (cmp a b); simpl; auto.
Qed.

Lemma consistent_trans {A : Type} (cmp : A -> A -> comparison) :
  Consistent cmp -> forall a b c,
  leBy cmp a b = true -> leBy cmp b c = true -> leBy cmp a c = true.
Proof.
  intros [_ T] a b c. rewrite !leBy_iff. apply T.
Qed.

Lemma sortBy_consistent {A : Type} (cmp : A -> A -> comparison) (l : list A) :
  Consistent cmp ->
  StronglySorted (fun a b => cmp a b <> Gt) (sortBy cmp l).
Proof.
  intros C.
  pose proof (sortBy_sorted cmp (consistent_total cmp C) (consistent_trans cmp C) l) as S.
  induction S as [|x r _ IH Hx]; constructor; [exact IH|].
  eapply Forall_impl; [|exact Hx]. intros y. apply leBy_iff.
Qed.

(** Two keys in lexicographic order, each under a consistent comparator,
    make a consistent comparator. *)
Lemma lexicographic_consistent {A K1 K2 : Type}
    (c1 : K1 -> K1 -> comparison) (c2 : K2 -> K2 -> comparison)
    (k1 : A -> K1) (k2 : A -> K2) :
  Consistent c1 -> Consistent c2 ->
  Consistent (fun a b => match c1 (k1 a) (k1 b) with
                         | Eq => c2 (k2 a) (k2 b)
                         | c => c
                         end).
Proof.
  intros [F1 T1] [F2 T2]. split.
  - intros a b. rewrite (F1 (k1 a) (k1 b)).
    destruct (c1 (k1 a) (k1 b)); simpl; auto.
  - intros a b c Hab Hbc.
    pose proof (F1 (k1 a) (k1 b)) as Eab.
    pose proof (F1 (k1 b) (k1 c)) as Ebc.
    pose proof (F1 (k1 a) (k1 c)) as Eac.
    pose proof (T1 (k1 a) (k1 b) (k1 c)) as Tabc.
    pose proof (T1 (k1 c) (k1 a) (k1 b)) as Tcab.
    pose proof (T1 (k1 b) (k1 c) (k1 a)) as Tbca.
    pose proof (T2 (k2 a) (k2 b) (k2 c)) as T2abc.
    destruct (c1 (k1 a) (k1 b)) eqn:Cab, (c1 (k1 b) (k1 c)) eqn:Cbc,
             (c1 (k1 a) (k1 c)) eqn:Cac;
      simpl in *; try congruence;
      try (exfalso;
           first [ solve [apply Tabc; congruence]
                 | solve [apply Tcab; congruence]
                 | solve [apply Tbca; congruence] ]);
      try (now apply T2abc).
Qed.

(** ** Dictionaries *)

Section DictFacts.

Context {V : Type}.

Lemma mem_In (k : string) (d : Dict.t V) :
  Dict.mem k d = true <-> In k (Dict.keys d).
Proof.
  unfold Dict.mem, Dict.keys. rewrite existsb_exists, in_map_iff. split.
  - intros [e [He Hk]]. apply String.eqb_eq in Hk. now exists e.
  - intros [e [Hk He]]. exists e. split; [exact He|]. now apply String.eqb_eq.
Qed.

Lemma keys_overwrite (k : string) (v : V) (d : Dict.t V) :
  Dict.keys (Dict.overwrite k v d) = Dict.keys d.
Proof.
  unfold Dict.keys, Dict.overwrite. rewrite map_map. apply map_ext.
  intros e. now destruct (String.eqb (fst e) k).
Qed.

Lemma placeIndex_perm (i : N) (k : string) (v : V) (d : Dict.t V) :
  Permutation (Dict.placeIndex i k v d) ((k, v) :: d).
Proof.
  induction d as [|e r IH]; simpl.
  - reflexivity.
  - destruct (Str.toIndex (fst e)) as [j|]; [|reflexivity].
    destruct (j <? i)%N; [|reflexivity].
    rewrite IH. apply perm_swap.
Qed.

Lemma place_perm (k : string) (v : V) (d : Dict.t V) :
  Permutation (Dict.place k v d) ((k, v) :: d).
Proof.
  unfold Dict.place. destruct (Str.toIndex k).
  - apply placeIndex_perm.
  - symmetry. apply Permutation_cons_append.
Qed.

Lemma set_NoDup (k : string) (v : V) (d : Dict.t V) :
  NoDup (Dict.keys d) -> NoDup (Dict.keys (Dict.set k v d)).
Proof.
  intros N. unfold Dict.set. destruct (Dict.mem k d) eqn:E.
  - now rewrite keys_overwrite.
  - apply (Permutation_NoDup (l := k :: Dict.keys d)).
    + symmetry. unfold Dict.keys.
      change (k :: map fst d) with (map fst ((k, v) :: d)).
      apply Permutation_map, place_perm.
    + constructor; [|exact N].
      intros I. apply mem_In in I. congruence.
Qed.

Lemma set_Forall (P : string * V -> Prop) (k : string) (v : V) (d : Dict.t V) :
  Forall P d -> P (k, v) -> Forall P (Dict.set k v d).
Proof.
  intros F Pk. unfold Dict.set. destruct (Dict.mem k d).
  - unfold Dict.overwrite. apply Forall_map.
    eapply Forall_impl; [|exact F]. intros e Pe. simpl.
    destruct (String.eqb (fst e) k) eqn:E; [|exact Pe].
    apply String.eqb_eq in E. now rewrite E.
  - apply (Permutation_Forall (Permutation_sym (place_perm k v d))).
    now constructor.
Qed.

Lemma set_mem (k k' : string) (v : V) (d : Dict.t V) :
  Dict.mem k' (Dict.set k v d) = String.eqb k k' || Dict.mem k' d.
Proof.
  destruct (Dict.mem k' (Dict.set k v d)) eqn:E.
  - apply mem_In in E. symmetry. apply orb_true_iff.
    unfold Dict.set in E. destruct (Dict.mem k d) eqn:Ek.
    + rewrite keys_overwrite in E. right. now apply mem_In.
    + unfold Dict.keys in E.
      apply (Permutation_in _ (Permutation_map fst (place_perm k v d))) in E.
      destruct E as [E|E]; [left; now apply String.eqb_eq|right; now apply mem_In].
  - symmetry. apply orb_false_iff.
    assert (N : ~ In k' (Dict.keys (Dict.set k v d))).
    { intros I. apply mem_In in I. congruence. }
    split.
    + destruct (String.eqb k k') eqn:Ek; [|reflexivity].
      apply String.eqb_eq in Ek. subst k'. exfalso. apply N.
      unfold Dict.set. destruct (Dict.mem k d) eqn:Em.
      * rewrite keys_overwrite. now apply mem_In.
      * unfold Dict.keys.
        apply (Permutation_in _ (Permutation_sym (Permutation_map fst (place_perm k v d)))).
        now left.
    + destruct (Dict.mem k' d) eqn:Em; [|reflexivity].
      exfalso. apply N. apply mem_In in Em.
      unfold Dict.set. destruct (Dict.mem k d).
      * now rewrite keys_overwrite.
      * unfold Dict.keys.
        apply (Permutation_in _ (Permutation_sym (Permutation_map fst (place_perm k v d)))).
        now right.
Qed.

End DictFacts.

(** ** The currency-list normaliser *)

Lemma fold_left_invariant {A B : Type} (P : A -> Prop) (f : A -> B -> A)
    (l : list B) (a : A) :
  (forall a b, P a -> P (f a b)) -> P a -> P (fold_left f l a).
Proof.
  intros Hf. revert a. induction l as [|b r IH]; simpl; intros a Pa.
  - exact Pa.
  - apply IH. now apply Hf.
Qed.

(** An invariant of a loop that may throw holds of the state it ends in. *)
Lemma foldM_invariant {A B : Type} (P : A -> Prop) (f : A -> B -> option A)
    (l : list B) (a a' : A) :
  (forall a b a', P a -> f a b = Some a' -> P a') ->
  P a -> foldM f l a = Some a' -> P a'.
Proof.
  intros Hf. revert a. induction l as [|b r IH]; simpl; intros a Pa E.
  - now injection E as <-.
  - destruct (f a b) as [a1|] eqn:F; [|discriminate].
    apply (IH a1); [now apply (Hf a b)|exact E].
Qed.

Lemma foldM_app {A B : Type} (f : A -> B -> option A) (l1 l2 : list B) (a : A) :
  foldM f (l1 ++ l2) a
  = match foldM f l1 a with
    | Some a1 => foldM f l2 a1
    | None => None
    end.
Proof.
  revert a. induction l1 as [|b r IH]; simpl; intros a; [reflexivity|].
  destruct (f a b); [apply IH|reflexivity].
Qed.

(** A loop none of whose steps throws ends. *)
Lemma foldM_returns {A B : Type} (f : A -> B -> option A) (l : list B) (a : A) :
  (forall a b, In b l -> f a b <> None) -> exists a', foldM f l a = Some a'.
Proof.
  revert a. induction l as [|b r IH]; simpl; intros a T.
  - now exists a.
  - destruct (f a b) as [a1|] eqn:F.
    + apply IH. intros a2 b2 I. apply T. now right.
    + exfalso. apply (T a b); [now left|exact F].
Qed.

Section NormalizerFacts.

Context (h : Host).

Lemma addCandidate_ok (c n s : Value) (d d' : Dict.t Currency) :
  TableOK d -> addCandidate h c n s d = Some d' -> TableOK d'.
Proof.
  intros [N F]. unfold addCandidate.
  destruct (normalizeCode h c) as [k|]; [|discriminate].
  destruct (codePattern k) eqn:E; simpl.
  - destruct (stringOf h (n ?? VStr k)) as [t|]; [|discriminate].
    intros X. injection X as <-. split.
    + now apply set_NoDup.
    + apply set_Forall; [exact F|]. simpl. now split.
  - intros X. injection X as <-. now split.
Qed.

Lemma addItem_ok (d : Dict.t Currency) (item : Value) (d' : Dict.t Currency) :
  TableOK d -> addItem h d item = Some d' -> TableOK d'.
Proof.
  intros T. unfold addItem.
  match goal with |- context [if ?b then _ else _] => destruct b end.
  - now apply addCandidate_ok.
  - intros X. now injection X as <-.
Qed.

Lemma addEntry_ok (d : Dict.t Currency) (e : string * Value) (d' : Dict.t Currency) :
  TableOK d -> addEntry h d e = Some d' -> TableOK d'.
Proof.
  intros T. destruct e as [key value]. unfold addEntry.
  destruct value;
    repeat match goal with
           | |- context [if ?b then _ else _] => destruct b
           end;
    try (intros X; now injection X as <-); now apply addCandidate_ok.
Qed.

Lemma addSource_ok (d : Dict.t Currency) (source : Value) (d' : Dict.t Currency) :
  TableOK d -> addSource h d source = Some d' -> TableOK d'.
Proof.
  intros T. unfold addSource.
  destruct (negb (truthy source) || negb (typeofObject source));
    [intros X; now injection X as <-|].
  destruct (isArray source).
  - destruct source; try (intros X; now injection X as <-).
    apply (foldM_invariant TableOK); [apply addItem_ok|exact T].
  - apply (foldM_invariant TableOK); [apply addEntry_ok|exact T].
Qed.

Lemma table_ok (raw : Value) (type : CurrencyType) (d : Dict.t Currency) :
  foldM (addSource h) (currencySources raw type) Dict.empty = Some d -> TableOK d.
Proof.
  apply (foldM_invariant TableOK); [apply addSource_ok|].
  split; constructor.
Qed.

Lemma table_codes (d : Dict.t Currency) :
  TableOK d ->
  NoDup (map code (Dict.values d))
  /\ Forall (fun c => codePattern (code c) = true) (Dict.values d).
Proof.
  intros [N F]. unfold Dict.values, Dict.keys in *.
  assert (E : map code (map snd d) = map fst d).
  { rewrite map_map. apply map_ext_in. intros e I.
    rewrite Forall_forall in F. now apply F. }
  split.
  - now rewrite E.
  - apply Forall_map. eapply Forall_impl; [|exact F].
    intros e [Hc Hp]. simpl. now rewrite Hc.
Qed.

Lemma compareCurrency_consistent :
  Consistent (localeCompare h) -> Consistent (compareCurrency h).
Proof.
  intros C. unfold compareCurrency.
  exact (lexicographic_consistent (localeCompare h) (localeCompare h) name code C C).
Qed.

Lemma sortCurrencies_perm (l : list Currency) :
  Permutation (sortCurrencies h l) l.
Proof. apply sortBy_perm. Qed.

Lemma sortCurrencies_codes (l : list Currency) :
  Forall (fun c => codePattern (code c) = true) l ->
  Forall (fun c => codePattern (code c) = true) (sortCurrencies h l).
Proof.
  apply (Permutation_Forall (Permutation_sym (sortCurrencies_perm l))).
Qed.

(** The list is the sorted values of the table the scan ends with. *)
Lemma parseCurrenciesJSON_table (raw : Value) (type : CurrencyType)
    (list : list Currency) :
  parseCurrenciesJSON h raw type = Some list ->
  exists d,
    foldM (addSource h) (currencySources raw type) Dict.empty = Some d
    /\ list = sortCurrencies h (Dict.values d).
Proof.
  unfold parseCurrenciesJSON.
  destruct (foldM (addSource h) (currencySources raw type) Dict.empty) as [d|];
    [|discriminate].
  intros X. injection X as <-. now exists d.
Qed.

(** C3.  For every payload and category the list that the normaliser
    returns has at most one entry per code, every code in it matches the code
    pattern, and, under a consistent [localeCompare], it is sorted by name and
    then by code. *)
Theorem parseCurrenciesJSON_normalized (raw : Value) (type : CurrencyType)
    (list : list Currency) :
  parseCurrenciesJSON h raw type = Some list ->
  NoDup (map code list)
  /\ Forall (fun c => codePattern (code c) = true) list
  /\ (Consistent (localeCompare h) ->
      StronglySorted (fun a b => compareCurrency h a b <> Gt) list).
Proof.
  intros P. destruct (parseCurrenciesJSON_table raw type list P) as [d [T ->]].
  destruct (table_codes d (table_ok raw type d T)) as [N F].
  split; [|split].
  - apply (Permutation_NoDup (l := map code (Dict.values d))); [|exact N].
    apply Permutation_map. symmetry. apply sortCurrencies_perm.
  - now apply sortCurrencies_codes.
  - intros C. apply sortBy_consistent. now apply compareCurrency_consistent.
Qed.

End NormalizerFacts.

(** The codes of a normalised list are distinct and match the pattern. *)
Lemma parseCurrenciesJSON_codes (h : Host) (raw : Value) (type : CurrencyType)
    (list : list Currency) :
  parseCurrenciesJSON h raw type = Some list ->
  NoDup (map code list) /\ validCodes list.
Proof.
  intros P. destruct (parseCurrenciesJSON_table h raw type list P) as [d [T ->]].
  destruct (table_codes d (table_ok h raw type d T)) as [N F]. split.
  - apply (Permutation_NoDup (l := map code (Dict.values d))); [|exact N].
    apply Permutation_map. symmetry. apply sortCurrencies_perm.
  - now apply sortCurrencies_codes.
Qed.

(** The byte order of strings is a consistent comparator. *)
Lemma string_compare_consistent : Consistent String.compare.
Proof.
  split.
  - intros a b. apply String.compare_antisym.
  - intros a. induction a as [|x a IH]; intros [|y b] [|z c]; simpl;
      try congruence.
    unfold Ascii.compare.
    destruct (N.compare_spec (N_of_ascii x) (N_of_ascii y)) as [Exy|Lxy|Gxy];
      destruct (N.compare_spec (N_of_ascii y) (N_of_ascii z)) as [Eyz|Lyz|Gyz];
      destruct (N.compare_spec (N_of_ascii x) (N_of_ascii z)) as [Exz|Lxz|Gxz];
      try congruence; try lia.
    apply IH.
Qed.

(** C3, on a payload that mixes an array of records under [response] with
    code-keyed strings and objects at the top level. *)
Lemma parseCurrenciesJSON_normalized_witness :
  Consistent (localeCompare Fixture.utcHost)
  /\ option_map (map code)
       (parseCurrenciesJSON Fixture.utcHost Fixture.mixedPayload Fiat)
     = Some ["GBP"; "EUR"; "USD"; "JPY"]
  /\ exists list,
       parseCurrenciesJSON Fixture.utcHost Fixture.mixedPayload Fiat = Some list
       /\ NoDup (map code list)
       /\ StronglySorted (fun a b => compareCurrency Fixture.utcHost a b <> Gt) list.
Proof.
  split; [exact string_compare_consistent|].
  split; [vm_compute; reflexivity|].
  eexists. split; [vm_compute; reflexivity|].
  match goal with
  | |- NoDup (map code ?l) /\ _ =>
      destruct (parseCurrenciesJSON_normalized Fixture.utcHost Fixture.mixedPayload Fiat
                  l eq_refl) as [N [_ S]]
  end.
  split; [exact N|]. apply S. exact string_compare_consistent.
Defined.

(** ** Which field gives the code *)

Lemma coalesce_present (a b : Value) : isNullish a = false -> a ?? b = a.
Proof. unfold coalesce. now intros ->. Qed.

Lemma coalesce_absent (a b : Value) : isNullish a = true -> a ?? b = b.
Proof. unfold coalesce. now intros ->. Qed.

Lemma coalesceAll_cons (x : Value) (l : list Value) :
  l <> [] -> coalesceAll (x :: l) = x ?? coalesceAll l.
Proof. destruct l; [congruence|reflexivity]. Qed.

Lemma coalesceAll_first (l : list Value) (i : nat) (x : Value) :
  nth_error l i = Some x ->
  isNullish x = false ->
  (forall j y, j < i -> nth_error l j = Some y -> isNullish y = true) ->
  coalesceAll l = x.
Proof.
  revert i. induction l as [|a r IH]; intros i Hx Hp Hb.
  - destruct i; discriminate.
  - destruct i as [|i]; simpl in Hx.
    + injection Hx as ->. destruct r; [reflexivity|].
      rewrite coalesceAll_cons by discriminate. now apply coalesce_present.
    + assert (Hr : r <> []) by (destruct r; [destruct i; discriminate|discriminate]).
      rewrite coalesceAll_cons by exact Hr.
      rewrite coalesce_absent by (apply (Hb 0 a); [lia|reflexivity]).
      apply (IH i); [exact Hx|exact Hp|].
      intros j y Hj Hy. apply (Hb (S j) y); [lia|exact Hy].
Qed.





Section CodeSelection.

Context (h : Host).

(** What [addCandidate] does with a code: it throws when the code cannot
    be converted to text, drops the candidate when the text fails the pattern,
    and otherwise stores it under the text, or throws for a name that cannot be
    converted. *)
Lemma addCandidate_throws (c n s : Value) (d : Dict.t Currency) :
  stringThrows c = true -> addCandidate h c n s d = None.
Proof.
  intros T. unfold addCandidate, normalizeCode, stringOf.
  destruct c; try discriminate T; cbn [coalesce isNullish]; now rewrite T.
Qed.


Lemma addCandidate_stored (c n s : Value) (d : Dict.t Currency) (k t : string) :
  normalizeCode h c = Some k -> codePattern k = true ->
  isNullish n = false -> stringOf h n = Some t ->
  addCandidate h c n s d
  = Some (Dict.set k {| code := k; name := t; symbol := Some s |} d).
Proof.
  unfold addCandidate. intros -> -> N T. simpl.
  rewrite (coalesce_present n) by exact N. now rewrite T.
Qed.

Lemma truthy_present (v : Value) : truthy v = true -> isNullish v = false.
Proof. now destruct v. Qed.


End CodeSelection.



(** ** The rate-map normaliser *)

Lemma fold_addRate_invariant (P : string * float -> Prop) (ents : list (string * Value))
    (out : Dict.t float) :
  (forall k x, In (k, VNum x) ents -> isFinite x = true -> P (Str.toUpperCase k, x)) ->
  Forall P out -> Forall P (fold_left addRate ents out).
Proof.
  revert out. induction ents as [|[k v] r IH]; simpl; intros out Hin F.
  - exact F.
  - apply IH.
    + intros k' x I. apply Hin. now right.
    + destruct v; try exact F.
      destruct (isFinite x) eqn:E; [|exact F].
      apply set_Forall; [exact F|]. apply Hin; [now left|exact E].
Qed.

Lemma fold_addRate_NoDup (ents : list (string * Value)) (out : Dict.t float) :
  NoDup (Dict.keys out) -> NoDup (Dict.keys (fold_left addRate ents out)).
Proof.
  apply (fold_left_invariant (fun d : Dict.t float => NoDup (Dict.keys d))).
  intros a [k v] N. simpl.
  destruct v; try exact N. destruct (isFinite x); [|exact N].
  now apply set_NoDup.
Qed.

Lemma fold_addRate_mem (ents : list (string * Value)) (out : Dict.t float) (k : string) :
  Dict.mem k (fold_left addRate ents out) = true <->
  Dict.mem k out = true
  \/ exists k0 x, In (k0, VNum x) ents /\ isFinite x = true /\ k = Str.toUpperCase k0.
Proof.
  revert out. induction ents as [|[k1 v] r IH]; simpl; intros out.
  - split; [now left|]. intros [M|[k0 [x [[] _]]]]. exact M.
  - rewrite IH. split.
    + intros [M|[k0 [x [I [Fx E]]]]].
      * destruct v; try (now left).
        destruct (isFinite x) eqn:Fx; [|now left].
        rewrite set_mem in M. apply orb_true_iff in M. destruct M as [M|M].
        -- right. exists k1, x. apply String.eqb_eq in M. auto.
        -- now left.
      * right. exists k0, x. auto.
    + intros [M|[k0 [x [[I|I] [Fx E]]]]].
      * left. destruct v; try exact M. destruct (isFinite x); [|exact M].
        rewrite set_mem, M. apply orb_true_r.
      * injection I as -> ->. left. rewrite Fx, set_mem.
        apply orb_true_iff. left. now apply String.eqb_eq.
      * right. exists k0, x. auto.
Qed.

(** C9, as the code has it.  Every value of the rate map is a finite
    number (of either sign, zero included) and sits under the upper-cased key
    of an entry of the rates object that holds it; every finite entry of the
    rates object has its upper-cased key in the map; no key occurs twice;
    and the map is empty when there is no rates object. *)
Theorem parseRates_finite (json : Value) :
  (forall k x, In (k, x) (parseRates json) ->
     isFinite x = true
     /\ exists k0, k = Str.toUpperCase k0 /\ In (k0, VNum x) (entries (ratesObject json)))
  /\ (truthy (ratesObject json) && typeofObject (ratesObject json) = true ->
      forall k0 x, In (k0, VNum x) (entries (ratesObject json)) -> isFinite x = true ->
      Dict.mem (Str.toUpperCase k0) (parseRates json) = true)
  /\ NoDup (Dict.keys (parseRates json))
  /\ (truthy (ratesObject json) && typeofObject (ratesObject json) = false ->
      parseRates json = Dict.empty).
Proof.
  unfold parseRates.
  destruct (truthy (ratesObject json) && typeofObject (ratesObject json)) eqn:B.
  - apply andb_true_iff in B. destruct B as [T O]. rewrite T, O. simpl.
    split; [|split; [|split]].
    + assert (F : Forall (fun e : string * float =>
                    isFinite (snd e) = true
                    /\ exists k0, fst e = Str.toUpperCase k0
                                  /\ In (k0, VNum (snd e)) (entries (ratesObject json)))
                  (fold_left addRate (entries (ratesObject json)) Dict.empty)).
      { apply fold_addRate_invariant; [|constructor].
        intros k x I Fx. simpl. split; [exact Fx|]. now exists k. }
      intros k x I. rewrite Forall_forall in F. exact (F (k, x) I).
    + intros _ k0 x I Fx. apply fold_addRate_mem. right. now exists k0, x.
    + apply fold_addRate_NoDup. constructor.
    + discriminate.
  - assert (E : negb (truthy (ratesObject json)) || negb (typeofObject (ratesObject json))
                = true).
    { rewrite <- negb_andb, B. reflexivity. }
    rewrite E. split; [|split; [|split]].
    + intros k x [].
    + discriminate.
    + constructor.
    + reflexivity.
Qed.

(** C9 on a payload with a negative, a positive and a textual rate. *)
Lemma parseRates_finite_witness :
  In ("GBP", 0.5%float) (parseRates Fixture.negativeRate)
  /\ isFinite 0.5 = true
  /\ exists k0, "GBP" = Str.toUpperCase k0
                /\ In (k0, VNum 0.5) (entries (ratesObject Fixture.negativeRate)).
Proof.
  assert (I : In ("GBP", 0.5%float) (parseRates Fixture.negativeRate)).
  { vm_compute. right. left. reflexivity. }
  split; [exact I|].
  destruct (parseRates_finite Fixture.negativeRate) as [F _].
  exact (F "GBP" 0.5%float I).
Defined.

(** C9 as the specification words it fails: a negative rate is kept. *)
Lemma parseRates_counterexample :
  In ("EUR", (-1)%float) (parseRates Fixture.negativeRate)
  /\ PrimFloat.ltb 0 (-1) = false.
Proof. vm_compute. split; [left|]; reflexivity. Qed.

(** ** Transport *)

Section TransportFacts.

Context (h : Host).

Lemma get_returned (ep : string) (ps : list (string * Value)) (w : World) (json : Value) :
  network w (requests w) (request h ep ps) = Some json ->
  get h ep ps w = (Returned json, logRequest (request h ep ps) w).
Proof. unfold get. now intros ->. Qed.

Lemma get_thrown (ep : string) (ps : list (string * Value)) (w : World) :
  network w (requests w) (request h ep ps) = None ->
  get h ep ps w = (Thrown (TransportError ep), logRequest (request h ep ps) w).
Proof. unfold get. now intros ->. Qed.

End TransportFacts.

(** ** The conversion engine *)

Section ConversionFacts.

Context (h : Host).

(** The fallback, settled by what [latest] answers. *)
Lemma convertViaUSD_run (from to : string) (amount : float) (w : World) :
  convertViaUSD h from to amount w =
  let w' := logRequest (request h "latest" (latestParams from to)) w in
  match network w (requests w) (request h "latest" (latestParams from to)) with
  | None => (Thrown (TransportError "latest"), w')
  | Some latest =>
      match rateUSD from (parseRates latest), rateUSD to (parseRates latest) with
      | Some fromRateUSD, Some toRateUSD =>
          (Returned {| result := (amount * (toRateUSD / fromRateUSD))%float;
                       rate := Some (toRateUSD / fromRateUSD)%float;
                       meta := fallbackMeta (parseRates latest) |}, w')
      | _, _ => (Thrown FallbackUnavailable, w')
      end
  end.
Proof.
  unfold convertViaUSD, bind, get.
  destruct (network w (requests w) (request h "latest" (latestParams from to)));
    [|reflexivity].
  cbv zeta.
  destruct (rateUSD from (parseRates v)), (rateUSD to (parseRates v)); reflexivity.
Qed.

(** [convertOnce], settled by what [convert] answers. *)
Lemma convertOnce_run (params : ConvertParams) (w : World) :
  let from' := normalizeSide (from params) in
  let to' := normalizeSide (to params) in
  let amount' := normalizeAmount (amount params) in
  let primary := request h "convert" (convertRequestParams from' to' amount') in
  convertOnce h params w =
  match network w (requests w) primary with
  | Some json =>
      if isFinite (convertResult h json)
      then (Returned {| result := convertResult h json;
                        rate := if truthyNum amount'
                                then Some (convertResult h json / amount')%float
                                else None;
                        meta := json |}, logRequest primary w)
      else convertViaUSD h from' to' amount' (logRequest primary w)
  | None => convertViaUSD h from' to' amount' (logRequest primary w)
  end.
Proof.
  cbv zeta. unfold convertOnce, tryCatch, bind, get.
  destruct (network w (requests w) _); [|reflexivity].
  destruct (isFinite (convertResult h v)); reflexivity.
Qed.

Lemma symbolsNeeded_spec (from to s : string) :
  In s (symbolsNeeded from to) <-> (s = from \/ s = to) /\ s <> "USD".
Proof.
  unfold symbolsNeeded.
  destruct (String.eqb_spec from "USD") as [->|Nf], (String.eqb_spec to "USD") as [->|Nt];
    simpl; intuition (subst; congruence).
Qed.

Lemma normalizeAmount_falsy (x : float) :
  truthyNum x = false -> truthyNum (normalizeAmount x) = false.
Proof. unfold normalizeAmount. intros E. now rewrite E. Qed.

(** C1, as the code has it.  When the [convert] call fails or its result
    is not finite, [convertOnce] asks [latest] for the sides that are not USD.
    If that call fails its error is thrown; if a side's rate is missing
    [FallbackUnavailable] is thrown; otherwise the result is
    [amount * (toRateUSD / fromRateUSD)] with rate [toRateUSD / fromRateUSD]
    and the fallback metadata.  In particular USD to USD with amount 100 gives
    result 100 and rate 1 whenever [latest] answers at all. *)
Theorem convertOnce_fallback (params : ConvertParams) (w : World) :
  let from' := normalizeSide (from params) in
  let to' := normalizeSide (to params) in
  let amount' := normalizeAmount (amount params) in
  let primary := request h "convert" (convertRequestParams from' to' amount') in
  let secondary := request h "latest" (latestParams from' to') in
  let w1 := logRequest primary w in
  let w2 := logRequest secondary w1 in
  ((network w (requests w) primary = None
    \/ exists json, network w (requests w) primary = Some json
                    /\ isFinite (convertResult h json) = false) ->
   convertOnce h params w =
   match network w (requests w1) secondary with
   | None => (Thrown (TransportError "latest"), w2)
   | Some latest =>
       match rateUSD from' (parseRates latest), rateUSD to' (parseRates latest) with
       | Some fromRateUSD, Some toRateUSD =>
           (Returned {| result := (amount' * (toRateUSD / fromRateUSD))%float;
                        rate := Some (toRateUSD / fromRateUSD)%float;
                        meta := fallbackMeta (parseRates latest) |}, w2)
       | _, _ => (Thrown FallbackUnavailable, w2)
       end
   end)
  /\ (forall s, In s (symbolsNeeded from' to') <-> (s = from' \/ s = to') /\ s <> "USD")
  /\ (forall side rates,
        rateUSD side rates = if String.eqb side "USD" then Some 1%float
                             else Dict.get side rates)
  /\ (from params = "USD" -> to params = "USD" -> amount params = 100%float ->
      network w (requests w) primary = None ->
      forall latest, network w (requests w1) secondary = Some latest ->
      convertOnce h params w =
      (Returned {| result := 100%float; rate := Some 1%float;
                   meta := fallbackMeta (parseRates latest) |}, w2)).
Proof.
  cbv zeta. split; [|split; [|split]].
  - intros P. rewrite convertOnce_run. cbv zeta.
    destruct P as [P | [json [P F]]]; rewrite P; [|rewrite F];
      rewrite convertViaUSD_run; reflexivity.
  - intros s. apply symbolsNeeded_spec.
  - reflexivity.
  - intros Ef Et Ea P latest L. rewrite convertOnce_run. cbv zeta.
    rewrite Ef, Et, Ea in *. change (normalizeSide "USD") with "USD" in *.
    change (normalizeAmount 100) with 100%float in *.
    rewrite P. rewrite convertViaUSD_run. cbv zeta.
    cbn [network requests logRequest] in *. rewrite L. reflexivity.
Qed.

(** C2, as the code has it.  A failure of the [convert] call, or a result
    that is not finite, is caught and leads to the fallback; what
    [convertOnce] throws is what the fallback throws: the transport error of
    the [latest] call, or [FallbackUnavailable] when a side's rate is
    missing. *)
Theorem convertOnce_errors (params : ConvertParams) (w : World) :
  let from' := normalizeSide (from params) in
  let to' := normalizeSide (to params) in
  let amount' := normalizeAmount (amount params) in
  let primary := request h "convert" (convertRequestParams from' to' amount') in
  let secondary := request h "latest" (latestParams from' to') in
  let w1 := logRequest primary w in
  (network w (requests w) primary = None ->
   convertOnce h params w = convertViaUSD h from' to' amount' w1)
  /\ (forall e w', convertOnce h params w = (Thrown e, w') ->
      (e = TransportError "latest" /\ network w (requests w1) secondary = None)
      \/ (e = FallbackUnavailable
          /\ exists latest, network w (requests w1) secondary = Some latest
             /\ (rateUSD from' (parseRates latest) = None
                 \/ rateUSD to' (parseRates latest) = None))).
Proof.
  cbv zeta. split.
  - intros P. rewrite convertOnce_run. cbv zeta. now rewrite P.
  - intros e w'. rewrite convertOnce_run. cbv zeta.
    assert (V : convertViaUSD h (normalizeSide (from params)) (normalizeSide (to params))
                  (normalizeAmount (amount params))
                  (logRequest (request h "convert"
                     (convertRequestParams (normalizeSide (from params))
                        (normalizeSide (to params)) (normalizeAmount (amount params)))) w)
                = (Thrown e, w') ->
                (e = TransportError "latest"
                 /\ network w (requests (logRequest (request h "convert"
                      (convertRequestParams (normalizeSide (from params))
                         (normalizeSide (to params)) (normalizeAmount (amount params)))) w))
                      (request h "latest" (latestParams (normalizeSide (from params))
                                             (normalizeSide (to params)))) = None)
                \/ (e = FallbackUnavailable
                    /\ exists latest,
                       network w (requests (logRequest (request h "convert"
                         (convertRequestParams (normalizeSide (from params))
                            (normalizeSide (to params)) (normalizeAmount (amount params)))) w))
                         (request h "latest" (latestParams (normalizeSide (from params))
                                                (normalizeSide (to params)))) = Some latest
                       /\ (rateUSD (normalizeSide (from params)) (parseRates latest) = None
                           \/ rateUSD (normalizeSide (to params)) (parseRates latest) = None))).
    { rewrite convertViaUSD_run. cbv zeta. simpl network.
      destruct (network w _ (request h "latest" _)) as [latest|] eqn:L.
      - destruct (rateUSD (normalizeSide (from params)) (parseRates latest)) eqn:Rf.
        + destruct (rateUSD (normalizeSide (to params)) (parseRates latest)) eqn:Rt.
          * discriminate.
          * intros E. injection E as <- _. right. split; [reflexivity|].
            exists latest. auto.
        + intros E. injection E as <- _. right. split; [reflexivity|].
          exists latest. auto.
      - intros E. injection E as <- _. now left. }
    destruct (network w (requests w) _) as [json|]; [|exact V].
    destruct (isFinite (convertResult h json)); [discriminate|exact V].
Qed.

(** C6, as the code has it.  With an amount of 0 (or one that
    [Number(x) || 0] turns into 0) the rate is [undefined] when the primary
    path answered, and the per-unit cross rate, a number, when the fallback
    answered. *)
Theorem convertOnce_zero_amount (params : ConvertParams) (w : World)
    (r : ConvertResponse) (w' : World) :
  let from' := normalizeSide (from params) in
  let to' := normalizeSide (to params) in
  let primary := request h "convert" (convertRequestParams from' to' 0%float) in
  let secondary := request h "latest" (latestParams from' to') in
  truthyNum (amount params) = false ->
  convertOnce h params w = (Returned r, w') ->
  (rate r = None
   /\ exists json, network w (requests w) primary = Some json
                   /\ isFinite (convertResult h json) = true
                   /\ result r = convertResult h json /\ meta r = json)
  \/ (exists latest fromRateUSD toRateUSD,
        network w (requests w ++ [primary]) secondary = Some latest
        /\ rateUSD from' (parseRates latest) = Some fromRateUSD
        /\ rateUSD to' (parseRates latest) = Some toRateUSD
        /\ rate r = Some (toRateUSD / fromRateUSD)%float
        /\ meta r = fallbackMeta (parseRates latest)).
Proof.
  cbv zeta. intros Z. rewrite convertOnce_run. cbv zeta.
  unfold normalizeAmount. rewrite Z.
  change (truthyNum 0) with false.
  assert (V : convertViaUSD h (normalizeSide (from params)) (normalizeSide (to params)) 0
                (logRequest (request h "convert"
                   (convertRequestParams (normalizeSide (from params))
                      (normalizeSide (to params)) 0)) w) = (Returned r, w') ->
              exists latest fromRateUSD toRateUSD,
                network w (requests w ++ [request h "convert"
                   (convertRequestParams (normalizeSide (from params))
                      (normalizeSide (to params)) 0)])
                  (request h "latest" (latestParams (normalizeSide (from params))
                                         (normalizeSide (to params)))) = Some latest
                /\ rateUSD (normalizeSide (from params)) (parseRates latest) = Some fromRateUSD
                /\ rateUSD (normalizeSide (to params)) (parseRates latest) = Some toRateUSD
                /\ rate r = Some (toRateUSD / fromRateUSD)%float
                /\ meta r = fallbackMeta (parseRates latest)).
  { rewrite convertViaUSD_run. cbv zeta. simpl network. simpl requests.
    destruct (network w _ (request h "latest" _)) as [latest|] eqn:L; [|discriminate].
    destruct (rateUSD (normalizeSide (from params)) (parseRates latest)) as [f|] eqn:Rf;
      [|discriminate].
    destruct (rateUSD (normalizeSide (to params)) (parseRates latest)) as [t|] eqn:Rt;
      [|discriminate].
    intros E. injection E as <- _. exists latest, f, t. auto. }
  destruct (network w (requests w) _) as [json|] eqn:P.
  - destruct (isFinite (convertResult h json)) eqn:F.
    + intros E. injection E as <- _. left. split; [reflexivity|].
      exists json. auto.
    + intros E. right. now apply V.
  - intros E. right. now apply V.
Qed.

End ConversionFacts.

(** C1 on EUR to GBP, with [convert] down and [latest] answering both rates. *)
Lemma convertOnce_fallback_witness :
  convertOnce Fixture.utcHost Fixture.eurToGbp
    (Fixture.world (Fixture.only "latest" Fixture.latestEurGbp) [] 0)
  = (Returned {| result := 5%float; rate := Some 0.5%float;
                 meta := fallbackMeta [("EUR", 0.5%float); ("GBP", 0.25%float)] |},
     logRequest (request Fixture.utcHost "latest" [("symbols", VStr "EUR,GBP")])
       (logRequest (request Fixture.utcHost "convert"
                      (convertRequestParams "EUR" "GBP" 10))
          (Fixture.world (Fixture.only "latest" Fixture.latestEurGbp) [] 0))).
Proof.
  destruct (convertOnce_fallback Fixture.utcHost Fixture.eurToGbp
              (Fixture.world (Fixture.only "latest" Fixture.latestEurGbp) [] 0))
    as [F _].
  rewrite F; [reflexivity|]. left. reflexivity.
Defined.

(** C1 as the specification words it fails: with both endpoints down, USD
    to USD throws the transport error of [latest], though no rate is needed. *)
Lemma convertOnce_fallback_counterexample :
  fst (convertOnce Fixture.utcHost Fixture.usdToUsd
         (Fixture.world Fixture.offline [] 0))
  = Thrown (TransportError "latest").
Proof. reflexivity. Qed.

(** C2 on EUR to GBP, with [convert] down and [latest] lacking GBP. *)
Lemma convertOnce_errors_witness :
  fst (convertOnce Fixture.utcHost Fixture.eurToGbp
         (Fixture.world (Fixture.only "latest" Fixture.latestEurOnly) [] 0))
  = Thrown FallbackUnavailable
  /\ exists latest,
       Fixture.only "latest" Fixture.latestEurOnly
         [request Fixture.utcHost "convert" (convertRequestParams "EUR" "GBP" 10)]
         (request Fixture.utcHost "latest" (latestParams "EUR" "GBP")) = Some latest
       /\ (rateUSD "EUR" (parseRates latest) = None
           \/ rateUSD "GBP" (parseRates latest) = None).
Proof.
  split; [reflexivity|].
  destruct (convertOnce_errors Fixture.utcHost Fixture.eurToGbp
              (Fixture.world (Fixture.only "latest" Fixture.latestEurOnly) [] 0))
    as [_ E].
  destruct (E FallbackUnavailable
              (snd (convertOnce Fixture.utcHost Fixture.eurToGbp
                      (Fixture.world (Fixture.only "latest" Fixture.latestEurOnly) [] 0)))
              eq_refl) as [[D _]|[_ X]].
  - discriminate D.
  - exact X.
Defined.

(** C2 as the specification words it fails: the error thrown is the
    transport error of [latest], not [FallbackUnavailable]. *)
Lemma convertOnce_errors_counterexample :
  fst (convertOnce Fixture.utcHost Fixture.eurToGbp
         (Fixture.world Fixture.offline [] 0))
  = Thrown (TransportError "latest")
  /\ TransportError "latest" <> FallbackUnavailable.
Proof. split; [reflexivity|discriminate]. Qed.

(** C6 on the primary path: [convert] answers 0 for an amount of 0. *)
Lemma convertOnce_zero_amount_witness :
  (rate {| result := 0; rate := None; meta := Fixture.convertedZero |} = None
   /\ exists json,
        Fixture.only "convert" Fixture.convertedZero []
          (request Fixture.utcHost "convert" (convertRequestParams "EUR" "USD" 0))
        = Some json
        /\ isFinite (convertResult Fixture.utcHost json) = true
        /\ 0%float = convertResult Fixture.utcHost json
        /\ Fixture.convertedZero = json)
  \/ (exists latest fromRateUSD toRateUSD,
        Fixture.only "convert" Fixture.convertedZero
          ([] ++ [request Fixture.utcHost "convert" (convertRequestParams "EUR" "USD" 0)])
          (request Fixture.utcHost "latest" (latestParams "EUR" "USD")) = Some latest
        /\ rateUSD "EUR" (parseRates latest) = Some fromRateUSD
        /\ rateUSD "USD" (parseRates latest) = Some toRateUSD
        /\ None = Some (toRateUSD / fromRateUSD)%float
        /\ Fixture.convertedZero = fallbackMeta (parseRates latest)).
Proof.
  exact (convertOnce_zero_amount Fixture.utcHost Fixture.eurToUsdOfNothing
           (Fixture.world (Fixture.only "convert" Fixture.convertedZero) [] 0)
           {| result := 0; rate := None; meta := Fixture.convertedZero |}
           (logRequest (request Fixture.utcHost "convert"
                          (convertRequestParams "EUR" "USD" 0))
              (Fixture.world (Fixture.only "convert" Fixture.convertedZero) [] 0))
           eq_refl eq_refl).
Defined.

(** C6 as the specification words it fails: on the fallback path an amount
    of 0 comes back with the rate 2, not [undefined]. *)
Lemma convertOnce_zero_amount_counterexample :
  fst (convertOnce Fixture.utcHost Fixture.eurToUsdOfNothing
         (Fixture.world (Fixture.only "latest" Fixture.latestEurOnly) [] 0))
  = Returned {| result := 0%float; rate := Some 2%float;
                meta := fallbackMeta [("EUR", 0.5%float)] |}.
Proof. reflexivity. Qed.

(** ** The currency cache *)

Section CacheFacts.

Context (h : Host).

Lemma readCache_run (type : CurrencyType) (w : World) :
  readCache h type w =
  if refused w (GetItem (cacheKey type)) then (Thrown StorageError, w)
  else
    match lookup (cacheKey type) (storage w) with
    | Some (JSONText parsed) =>
        if isNullish parsed then (Returned None, w)
        else
          if PrimFloat.ltb (clock w (ticks w) - toNumber h (getProp parsed "at"))%float
               ONE_DAY
             && looksValid h (getProp parsed "items")
          then match getProp parsed "items" with
               | VArr l => (Returned (Some l), tick w)
               | _ => (Returned None, tick w)
               end
          else (Returned None, tick w)
    | _ => (Returned None, w)
    end.
Proof.
  unfold readCache, bind, getItem, dateNow, ret.
  destruct (refused w (GetItem (cacheKey type))); [reflexivity|].
  destruct (lookup (cacheKey type) (storage w)) as [[|parsed]|]; try reflexivity.
  destruct (isNullish parsed); [reflexivity|].
  destruct (_ && _); [|reflexivity].
  destruct (getProp parsed "items"); reflexivity.
Qed.

(** Reading the cache touches nothing but the clock. *)
Lemma readCache_world (type : CurrencyType) (w : World) :
  snd (readCache h type w) = w \/ snd (readCache h type w) = tick w.
Proof.
  rewrite readCache_run.
  destruct (refused w (GetItem (cacheKey type))); [left; reflexivity|].
  destruct (lookup (cacheKey type) (storage w)) as [[|parsed]|];
    try (left; reflexivity).
  destruct (isNullish parsed); [left; reflexivity|].
  destruct (_ && _); [|right; reflexivity].
  destruct (getProp parsed "items"); right; reflexivity.
Qed.

Lemma readCache_hit (type : CurrencyType) (w : World) (l : list Value) (w' : World) :
  readCache h type w = (Returned (Some l), w') <-> cacheUsable h type w l /\ w' = tick w.
Proof.
  rewrite readCache_run. unfold cacheUsable, getItem. split.
  - destruct (refused w (GetItem (cacheKey type))); [discriminate|].
    destruct (lookup (cacheKey type) (storage w)) as [[|parsed]|]; try discriminate.
    destruct (isNullish parsed) eqn:N; [discriminate|].
    destruct (PrimFloat.ltb _ ONE_DAY) eqn:F; simpl; [|discriminate].
    destruct (getProp parsed "items") eqn:I; simpl; try discriminate.
    destruct (0 <? List.length items) eqn:L; simpl; [|discriminate].
    destruct (forallb _ items) eqn:A; [|discriminate].
    intros E. injection E as <- <-. split; [|reflexivity].
    exists parsed. repeat split; try assumption; try reflexivity.
    intros ->. discriminate L.
  - intros [[parsed [S [N [F [I [L A]]]]]] ->].
    destruct (refused w (GetItem (cacheKey type))); [discriminate|].
    cbn [fst] in S. injection S as S.
    rewrite S, N, F, I. simpl. rewrite A.
    destruct l; [congruence|reflexivity].
Qed.

(** A refused read is thrown on; a read that is answered gives a hit or a
    miss. *)
Lemma readCache_refused (type : CurrencyType) (w : World) :
  refused w (GetItem (cacheKey type)) = true ->
  readCache h type w = (Thrown StorageError, w).
Proof. intros R. now rewrite readCache_run, R. Qed.

Lemma readCache_outcome (type : CurrencyType) (w : World) :
  readable w type -> exists hit, fst (readCache h type w) = Returned hit.
Proof.
  unfold readable. intros R. rewrite readCache_run, R.
  destruct (lookup (cacheKey type) (storage w)) as [[|parsed]|];
    try (now exists None).
  destruct (isNullish parsed); [now exists None|].
  destruct (_ && _); [|now exists None].
  destruct (getProp parsed "items"); try (now exists None).
  now exists (Some items).
Qed.

(** The list the fetches settle on, before naming and sorting, the world
    after them, and the write that ends the call. *)
Lemma fetchCurrencies_run (type : CurrencyType) (w : World) :
  let w1 := logRequest (currenciesRequest h type) w in
  let primary := primaryList h type w in
  let chosen :=
    if List.length primary <? 5
    then match network w (requests w1) (latestRequest h) with
         | Some latest => currenciesOfRates (parseRates latest)
         | None => primary
         end
    else primary in
  let w2 := if List.length primary <? 5 then logRequest (latestRequest h) w1 else w1 in
  let final := sortCurrencies h (currencyNames h chosen) in
  let entry := cacheEntry (clock w (ticks w)) final in
  fetchCurrencies h type w =
  if refused w (SetItem (cacheKey type) entry) then (Thrown StorageError, tick w2)
  else (Returned (map currencyValue final), store (cacheKey type) entry (tick w2)).
Proof.
  cbv zeta. unfold primaryList, fetchCurrencies, tryCatch, bind, get, orThrow, ret, throw,
    dateNow, setItem.
  fold (currenciesRequest h type). fold (latestRequest h).
  destruct (network w (requests w) (currenciesRequest h type)) as [raw|]; simpl.
  - destruct (parseCurrenciesJSON h raw type) as [list|]; simpl.
    + destruct (List.length list <? 5); simpl.
      * destruct (network w _ (latestRequest h)); simpl;
          match goal with |- context [refused w ?c] => destruct (refused w c) end;
          reflexivity.
      * match goal with |- context [refused w ?c] => destruct (refused w c) end;
          reflexivity.
    + destruct (network w _ (latestRequest h)); simpl;
        match goal with |- context [refused w ?c] => destruct (refused w c) end;
        reflexivity.
  - destruct (network w _ (latestRequest h)); simpl;
      match goal with |- context [refused w ?c] => destruct (refused w c) end;
      reflexivity.
Qed.

Lemma getCurrencies_run (type : CurrencyType) (w : World) :
  getCurrencies h type w =
  match readCache h type w with
  | (Returned (Some items), w') => (Returned items, w')
  | (Returned None, w') => fetchCurrencies h type w'
  | (Thrown e, w') => (Thrown e, w')
  | (OutOfFuel, w') => (OutOfFuel, w')
  end.
Proof.
  unfold getCurrencies, bind.
  destruct (readCache h type w) as [[[l|]| |] w']; reflexivity.
Qed.

End CacheFacts.

Section CacheTheorems.

Context (h : Host).

Lemma mapM_codes (of_ : string -> option (option string)) (l named : list Currency) :
  mapM (withDisplayName of_) l = Some named -> map code named = map code l.
Proof.
  revert named. induction l as [|c r IH]; simpl; intros named E.
  - now injection E as <-.
  - unfold withDisplayName at 1 in E.
    destruct (of_ (code c)) as [localized|]; [|discriminate].
    destruct (mapM (withDisplayName of_) r) as [r'|]; [|discriminate].
    injection E as <-. simpl. f_equal. now apply IH.
Qed.

(** Naming changes no code. *)
Lemma currencyNames_codes (l : list Currency) :
  map code (currencyNames h l) = map code l.
Proof.
  unfold currencyNames. destruct (displayNames h) as [of_|]; [|reflexivity].
  destruct (mapM (withDisplayName of_) l) eqn:E; [|reflexivity].
  now apply mapM_codes with of_.
Qed.

Lemma currencyNames_nil : currencyNames h [] = [].
Proof. unfold currencyNames. now destruct (displayNames h). Qed.

Lemma validCodes_map (l l' : list Currency) :
  map code l' = map code l -> validCodes l -> validCodes l'.
Proof.
  unfold validCodes. intros E V.
  assert (V' : Forall (fun s => codePattern s = true) (map code l')).
  { rewrite E. now apply Forall_map. }
  now apply Forall_map in V'.
Qed.

Lemma currenciesOfRates_valid (rates : Dict.t float) :
  validCodes (currenciesOfRates rates).
Proof.
  unfold validCodes, currenciesOfRates. apply Forall_map.
  apply Forall_forall. intros c I. apply filter_In in I. simpl. tauto.
Qed.

Lemma final_valid (l : list Currency) :
  validCodes l -> validCodes (sortCurrencies h (currencyNames h l)).
Proof.
  intros V. apply sortCurrencies_codes.
  apply (validCodes_map l); [apply currencyNames_codes|exact V].
Qed.

(** The list of the first [try] block holds distinct well-formed codes. *)
Lemma primaryList_codes (type : CurrencyType) (w : World) :
  NoDup (map code (primaryList h type w)) /\ validCodes (primaryList h type w).
Proof.
  unfold primaryList.
  destruct (network w (requests w) (currenciesRequest h type)) as [raw|];
    [|split; constructor].
  destruct (parseCurrenciesJSON h raw type) as [list|] eqn:P; [|split; constructor].
  exact (parseCurrenciesJSON_codes h raw type list P).
Qed.

Lemma unchanged_world (type : CurrencyType) (w : World) :
  let w0 := snd (readCache h type w) in
  network w0 = network w /\ requests w0 = requests w
  /\ storage w0 = storage w /\ refused w0 = refused w /\ clock w0 = clock w.
Proof.
  cbv zeta. destruct (readCache_world h type w) as [-> | ->]; now repeat split.
Qed.

(** Every list a fetch settles on holds well-formed codes only; the fetch
    ends with the write of the list under the cache key, and returns the list
    when the storage takes the write. *)
Lemma fetchCurrencies_stores (type : CurrencyType) (w : World) :
  exists final w2,
    fetchCurrencies h type w
    = (if refused w (SetItem (cacheKey type) (cacheEntry (clock w (ticks w)) final))
       then (Thrown StorageError, tick w2)
       else (Returned (map currencyValue final),
             store (cacheKey type) (cacheEntry (clock w (ticks w)) final) (tick w2)))
    /\ validCodes final
    /\ storage w2 = storage w
    /\ exists more, requests w2 = requests w ++ currenciesRequest h type :: more.
Proof.
  pose proof (fetchCurrencies_run h type w) as R. cbv zeta in R.
  eexists. eexists. split; [exact R|]. split; [|split].
  - apply final_valid.
    destruct (primaryList_codes type w) as [_ P].
    destruct (_ <? 5); [|exact P].
    destruct (network w _ (latestRequest h)); [apply currenciesOfRates_valid|exact P].
  - destruct (_ <? 5); reflexivity.
  - destruct (_ <? 5); simpl.
    + exists [latestRequest h]. now rewrite <- app_assoc.
    + now exists [].
Qed.

(** A fetch returns a list or throws the error of the refused write. *)
Lemma fetchCurrencies_outcome (type : CurrencyType) (w : World) :
  (exists items, fst (fetchCurrencies h type w) = Returned items)
  \/ fst (fetchCurrencies h type w) = Thrown StorageError.
Proof.
  destruct (fetchCurrencies_stores type w) as [final [w2 [F _]]]. rewrite F.
  destruct (refused w _); [now right|left; now eexists].
Qed.

Lemma fetchCurrencies_written (type : CurrencyType) (w : World) :
  (forall entry, refused w (SetItem (cacheKey type) entry) = false) ->
  exists final w2,
    fetchCurrencies h type w
    = (Returned (map currencyValue final),
       store (cacheKey type) (cacheEntry (clock w (ticks w)) final) (tick w2))
    /\ validCodes final
    /\ storage w2 = storage w
    /\ exists more, requests w2 = requests w ++ currenciesRequest h type :: more.
Proof.
  intros W. destruct (fetchCurrencies_stores type w) as [final [w2 [F R]]].
  rewrite W in F. now exists final, w2.
Qed.

Lemma stored_code (c : Currency) :
  toStr h (optProp (jsonClone (currencyValue c)) "code") = code c.
Proof. reflexivity. Qed.

Lemma looksValid_stored (list : list Currency) :
  list <> [] -> validCodes list ->
  looksValid h (VArr (map jsonClone (map currencyValue list))) = true.
Proof.
  unfold validCodes. intros N V. unfold looksValid. apply andb_true_iff. split.
  - rewrite !length_map. destruct list; [congruence|reflexivity].
  - rewrite forallb_forall. intros x I.
    apply in_map_iff in I. destruct I as [y [<- I]].
    apply in_map_iff in I. destruct I as [c [<- I]].
    rewrite stored_code. rewrite Forall_forall in V. now apply V.
Qed.

(** A currency without a symbol is stored and read back unchanged. *)
Lemma jsonClone_currencyValue (c : Currency) :
  symbol c = None -> jsonClone (currencyValue c) = currencyValue c.
Proof. unfold currencyValue. intros ->. reflexivity. Qed.

(** C8, as the code has it.  For every category and every behaviour of the
    network the errors of both fetches are swallowed: [getCurrencies] returns
    a list or throws the error of a refused call to [localStorage], and
    nothing else.  It returns a list whenever the storage lets the entry be
    read and takes the write, the empty list when the cache gives nothing and
    both fetches fail; it throws when the read is refused, and after a miss
    when the write is. *)
Theorem getCurrencies_never_throws (type : CurrencyType) (w : World) :
  ((exists items, fst (getCurrencies h type w) = Returned items)
   \/ fst (getCurrencies h type w) = Thrown StorageError)
  /\ (readable w type -> writable w type ->
      exists items w', getCurrencies h type w = (Returned items, w'))
  /\ (writable w type ->
      fst (readCache h type w) = Returned None ->
      network w (requests w) (currenciesRequest h type) = None ->
      network w (requests w ++ [currenciesRequest h type]) (latestRequest h) = None ->
      fst (getCurrencies h type w) = Returned [])
  /\ (refused w (GetItem (cacheKey type)) = true ->
      getCurrencies h type w = (Thrown StorageError, w))
  /\ (fst (readCache h type w) = Returned None ->
      (forall entry, refused w (SetItem (cacheKey type) entry) = true) ->
      fst (getCurrencies h type w) = Thrown StorageError).
Proof.
  split; [|split; [|split; [|split]]].
  - rewrite getCurrencies_run.
    destruct (refused w (GetItem (cacheKey type))) eqn:G.
    + rewrite (readCache_refused h type w G). now right.
    + destruct (readCache_outcome h type w G) as [hit E].
      destruct (readCache h type w) as [o w'] eqn:R. simpl in E. subst o.
      destruct hit as [items|]; [left; now exists items|].
      apply fetchCurrencies_outcome.
  - intros G W. rewrite getCurrencies_run.
    destruct (readCache_outcome h type w G) as [hit E].
    destruct (unchanged_world type w) as [_ [_ [_ [Fw _]]]].
    destruct (readCache h type w) as [o w'] eqn:R. simpl in E, Fw. subst o.
    destruct hit as [items|].
    + now exists items, w'.
    + destruct (fetchCurrencies_written type w') as [final [w2 [F _]]].
      { intros entry. rewrite Fw. apply W. }
      rewrite F. eauto.
  - intros W M P L. rewrite getCurrencies_run.
    destruct (unchanged_world type w) as [Nw [Rw [_ [Fw _]]]].
    destruct (readCache h type w) as [o w'] eqn:R. simpl in *. subst o.
    rewrite fetchCurrencies_run. cbv zeta. unfold primaryList.
    cbn [requests logRequest]. rewrite Nw, Rw, P.
    cbn [List.length Nat.ltb Nat.leb]. rewrite L, Fw, W.
    rewrite currencyNames_nil. reflexivity.
  - intros G. now rewrite getCurrencies_run, (readCache_refused h type w G).
  - intros M W. rewrite getCurrencies_run.
    destruct (unchanged_world type w) as [_ [_ [_ [Fw _]]]].
    destruct (readCache h type w) as [o w'] eqn:R. simpl in *. subst o.
    rewrite fetchCurrencies_run. cbv zeta. now rewrite Fw, W.
Qed.


End CacheTheorems.

Section CacheRoundTrip.

Context (h : Host).

Lemma cons_neq_self {A : Type} (x : A) (l : list A) : x :: l <> l.
Proof.
  intros E. apply (f_equal (@List.length A)) in E. simpl in E. lia.
Qed.

Lemma getCurrencies_hit (type : CurrencyType) (w : World) (l : list Value) :
  getCurrencies h type w = (Returned l, tick w) <-> cacheUsable h type w l.
Proof.
  rewrite getCurrencies_run. split.
  - destruct (refused w (GetItem (cacheKey type))) eqn:G;
      [rewrite (readCache_refused h type w G); discriminate|].
    destruct (readCache_outcome h type w G) as [hit E].
    destruct (unchanged_world h type w) as [_ [_ [Sw _]]].
    destruct (readCache h type w) as [o w'] eqn:R. simpl in E, Sw. subst o.
    destruct hit as [items|].
    + intros X. injection X as -> ->. now apply (readCache_hit h type w) in R.
    + destruct (fetchCurrencies_stores h type w') as [final [w2 [F [_ [S2 _]]]]].
      rewrite F. destruct (refused w' _); [discriminate|].
      intros X. apply (f_equal snd) in X.
      apply (f_equal storage) in X. simpl in X. rewrite S2, Sw in X.
      now apply cons_neq_self in X.
  - intros U.
    assert (R : readCache h type w = (Returned (Some l), tick w))
      by now apply readCache_hit.
    now rewrite R.
Qed.

(** C5, as the code has it.  [getCurrencies] returns the stored items at
    once, with no request and no write, exactly when the entry is usable:
    read from the storage, parsed to something other than [null], younger than
    24 hours, with an array of items that is not empty and whose every code
    matches the pattern.  Otherwise, the storage being read, it refetches;
    an entry of age 24 hours or more is refetched.  A list that a fetch
    returned and stored, when not empty, is returned as it was serialised by
    any later call that reads the storage within 24 hours of the stored
    time. *)
Theorem getCurrencies_cache (type : CurrencyType) (w : World) :
  (forall l, getCurrencies h type w = (Returned l, tick w) <-> cacheUsable h type w l)
  /\ (readable w type -> (forall l, ~ cacheUsable h type w l) ->
      getCurrencies h type w = fetchCurrencies h type (snd (readCache h type w))
      /\ exists more,
           requests (snd (getCurrencies h type w))
           = requests w ++ currenciesRequest h type :: more)
  /\ (forall parsed,
        fst (getItem (cacheKey type) w) = Returned (Some (JSONText parsed)) ->
        isNullish parsed = false ->
        PrimFloat.ltb (clock w (ticks w) - toNumber h (getProp parsed "at"))%float ONE_DAY
        = false ->
        getCurrencies h type w = fetchCurrencies h type (tick w))
  /\ (forall items w1 w2,
        fetchCurrencies h type w = (Returned items, w1) ->
        items <> [] ->
        storage w2 = storage w1 ->
        readable w2 type ->
        PrimFloat.ltb
          (clock w2 (ticks w2) - toNumber h (jsonClone (VNum (clock w (ticks w)))))%float
          ONE_DAY = true ->
        getCurrencies h type w2 = (Returned (map jsonClone items), tick w2)).
Proof.
  split; [|split; [|split]].
  - intros l. apply getCurrencies_hit.
  - intros G N. rewrite getCurrencies_run.
    destruct (readCache_outcome h type w G) as [hit E].
    destruct (unchanged_world h type w) as [_ [Rw _]].
    destruct (readCache h type w) as [o w'] eqn:R. simpl in E, Rw. subst o.
    destruct hit as [items|].
    + apply (readCache_hit h type w) in R. destruct R as [U _].
      now apply N in U.
    + split; [reflexivity|].
      destruct (fetchCurrencies_stores h type w') as [final [w2 [F [_ [_ [more Q]]]]]].
      cbn [snd]. rewrite F. exists more.
      destruct (refused w' _); cbn [snd requests store tick]; now rewrite Q, Rw.
  - intros parsed S N F. rewrite getCurrencies_run, readCache_run.
    unfold getItem in S.
    destruct (refused w (GetItem (cacheKey type))); [discriminate|].
    cbn [fst] in S. injection S as S. now rewrite S, N, F.
  - intros items w1 w2 F N S G A.
    destruct (fetchCurrencies_stores h type w) as [final [w0 [F' [V _]]]].
    rewrite F' in F. destruct (refused w _); [discriminate|]. injection F as <- <-.
    apply getCurrencies_hit.
    exists (jsonClone (VObj [("at", VNum (clock w (ticks w)));
                             ("items", VArr (map currencyValue final))])).
    assert (Nf : final <> []) by (intros ->; now apply N).
    pose proof (looksValid_stored h final Nf V) as L.
    unfold looksValid in L. apply andb_true_iff in L. destruct L as [_ L].
    repeat split.
    + unfold getItem. unfold readable in G. rewrite G, S.
      cbn [fst storage store lookup]. now rewrite String.eqb_refl.
    + exact A.
    + intros E. apply map_eq_nil in E. now apply N.
    + exact L.
Qed.

End CacheRoundTrip.

(** C8 with the network down and an empty storage that works. *)
Lemma getCurrencies_never_throws_witness :
  fst (getCurrencies Fixture.utcHost Fiat (Fixture.world Fixture.offline [] 0))
  = Returned [].
Proof.
  destruct (getCurrencies_never_throws Fixture.utcHost Fiat
              (Fixture.world Fixture.offline [] 0)) as [_ [_ [E _]]].
  apply E; try reflexivity. intros entry. reflexivity.
Defined.

(** C8 as the specification words it fails: with both fetches failing and
    a storage that is full, [getCurrencies] throws where an empty list is
    promised; and it throws before any fetch where the page may not use the
    storage.  With a storage that works the same network gives the empty
    list. *)
Lemma getCurrencies_never_throws_counterexample :
  getCurrencies Fixture.utcHost Fiat (Fixture.fullStorage Fixture.offline [] 0)
  = (Thrown StorageError,
     tick (logRequest (latestRequest Fixture.utcHost)
             (logRequest (currenciesRequest Fixture.utcHost Fiat)
                (Fixture.fullStorage Fixture.offline [] 0))))
  /\ getCurrencies Fixture.utcHost Fiat (Fixture.noStorage Fixture.offline 0)
     = (Thrown StorageError, Fixture.noStorage Fixture.offline 0)
  /\ fst (getCurrencies Fixture.utcHost Fiat (Fixture.world Fixture.offline [] 0))
     = Returned [].
Proof. repeat split. Qed.


(** C5 on an entry one second old that holds one currency. *)
Lemma getCurrencies_cache_witness :
  getCurrencies Fixture.utcHost Fiat
    (Fixture.world Fixture.offline
       [(cacheKey Fiat, cacheEntry 1000 Fixture.euroOnly)] 2000)
  = (Returned [VObj [("code", VStr "EUR"); ("name", VStr "Euro")]],
     tick (Fixture.world Fixture.offline
             [(cacheKey Fiat, cacheEntry 1000 Fixture.euroOnly)] 2000)).
Proof.
  destruct (getCurrencies_cache Fixture.utcHost Fiat
              (Fixture.world Fixture.offline
                 [(cacheKey Fiat, cacheEntry 1000 Fixture.euroOnly)] 2000)) as [H _].
  apply H.
  exists (VObj [("at", VNum 1000);
                ("items", VArr [VObj [("code", VStr "EUR"); ("name", VStr "Euro")]])]).
  repeat split; try reflexivity. discriminate.
Defined.

(** C5 as the specification words it fails: an entry that is present, one
    second old and whose every item (there is none) has a well-formed code is
    not returned; the currencies are fetched again. *)
Lemma getCurrencies_cache_counterexample :
  lookup (cacheKey Fiat) [(cacheKey Fiat, Fixture.emptyEntry)] = Some Fixture.emptyEntry
  /\ PrimFloat.ltb (2000 - 1000) ONE_DAY = true
  /\ forallb (fun x => codePattern (toStr Fixture.utcHost (optProp x "code"))) [] = true
  /\ requests (snd (getCurrencies Fixture.utcHost Fiat
                      (Fixture.world Fixture.offline
                         [(cacheKey Fiat, Fixture.emptyEntry)] 2000)))
     = [currenciesRequest Fixture.utcHost Fiat; latestRequest Fixture.utcHost].
Proof. repeat split. Qed.

(** ** The timeseries engine *)

Lemma StronglySorted_strict {A : Type} (R : A -> A -> Prop) (l : list A) :
  StronglySorted R l -> NoDup l ->
  StronglySorted (fun a b => R a b /\ a <> b) l.
Proof.
  induction 1 as [|x r S IH F]; intros N; constructor.
  - apply IH. now inversion N.
  - inversion N as [|? ? Nx Nr]; subst.
    rewrite Forall_forall in *. intros y I. split; [now apply F|].
    intros ->. now apply Nx.
Qed.

(** The default sort puts distinct keys in strictly ascending order. *)
Lemma sorted_keys_strict (l : list string) :
  NoDup l ->
  StronglySorted (fun a b => String.compare a b = Lt) (sortBy String.compare l).
Proof.
  intros N.
  assert (S : StronglySorted (fun a b => String.compare a b <> Gt /\ a <> b)
                (sortBy String.compare l)).
  { apply StronglySorted_strict.
    - apply sortBy_consistent, string_compare_consistent.
    - apply (Permutation_NoDup (Permutation_sym (sortBy_perm String.compare l)) N). }
  induction S as [|x r _ IH F]; constructor; [exact IH|].
  eapply Forall_impl; [|exact F]. intros y [G D]. simpl in *.
  destruct (String.compare x y) eqn:E; try congruence.
  apply String.compare_eq_iff in E. congruence.
Qed.

Lemma filterMap_In {A B : Type} (f : A -> option B) (l : list A) (y : B) :
  In y (filterMap f l) <-> exists x, In x l /\ f x = Some y.
Proof.
  induction l as [|a r IH]; simpl.
  - split; [intros []|intros [x [[] _]]].
  - destruct (f a) as [b|] eqn:E; simpl; rewrite IH; split.
    + intros [<-|[x [I Fx]]]; [exists a; auto|exists x; auto].
    + intros [x [[<-|I] Fx]]; [left; congruence|right; now exists x].
    + intros [x [I Fx]]. exists x; auto.
    + intros [x [[<-|I] Fx]]; [congruence|now exists x].
Qed.

Lemma filterMap_sorted {A B : Type} (f : A -> option B) (key : B -> A)
    (R : A -> A -> Prop) (l : list A) :
  (forall x y, f x = Some y -> key y = x) ->
  StronglySorted R l ->
  StronglySorted (fun a b => R (key a) (key b)) (filterMap f l).
Proof.
  intros K. induction 1 as [|x r S IH F]; simpl.
  - constructor.
  - destruct (f x) as [y|] eqn:E; [|exact IH].
    constructor; [exact IH|].
    apply Forall_forall. intros z I. apply filterMap_In in I.
    destruct I as [x' [I Fx]]. rewrite (K x y E), (K x' z Fx).
    rewrite Forall_forall in F. now apply F.
Qed.

Lemma bucketPoint_date (from to : string) (buckets : Value) (d : string)
    (p : TimeseriesPoint.t) :
  bucketPoint from to buckets d = Some p ->
  TimeseriesPoint.date p = d
  /\ exists rFrom rTo,
       dayRate from (orElse (getProp buckets d) (VObj [])) = Some rFrom
       /\ dayRate to (orElse (getProp buckets d) (VObj [])) = Some rTo
       /\ TimeseriesPoint.rate p = (rTo / rFrom)%float.
Proof.
  unfold bucketPoint.
  destruct (dayRate from _) as [rFrom|]; [|discriminate].
  destruct (dayRate to _) as [rTo|]; [|discriminate].
  intros E. injection E as <-. split; [reflexivity|]. now exists rFrom, rTo.
Qed.

Section TimeseriesFacts.

Context (h : Host).

(** X1, the part of C7 that holds: the batch path.  When the [timeseries]
    call answers a payload that yields a point, [getTimeseries] returns the
    points of that payload: they
    are strictly ascending by date, and each stands for a date of the payload
    on which both sides resolve to numbers, with their quotient as its rate;
    a date that lacks a side gives no point. *)
Theorem getTimeseries_batch_ascending (fuel : nat) (params : TimeseriesParams)
    (w : World) (json : Value) :
  let from' := Str.toUpperCase (Str.trim (ts_from params)) in
  let to' := Str.toUpperCase (Str.trim (ts_to params)) in
  let buckets := timeseriesBuckets json in
  network w (requests w) (request h "timeseries" (timeseriesParams from' to' params))
  = Some json ->
  batchSeries from' to' json <> [] ->
  NoDup (keys buckets) ->
  fst (getTimeseries h fuel params w) = Returned (batchSeries from' to' json)
  /\ StronglySorted
       (fun a b => String.compare (TimeseriesPoint.date a) (TimeseriesPoint.date b) = Lt)
       (batchSeries from' to' json)
  /\ (forall p, In p (batchSeries from' to' json) ->
      In (TimeseriesPoint.date p) (keys buckets)
      /\ exists rFrom rTo,
           dayRate from' (orElse (getProp buckets (TimeseriesPoint.date p)) (VObj []))
           = Some rFrom
           /\ dayRate to' (orElse (getProp buckets (TimeseriesPoint.date p)) (VObj []))
              = Some rTo
           /\ TimeseriesPoint.rate p = (rTo / rFrom)%float)
  /\ (forall d, In d (keys buckets) ->
      dayRate from' (orElse (getProp buckets d) (VObj [])) = None
      \/ dayRate to' (orElse (getProp buckets d) (VObj [])) = None ->
      ~ In d (map TimeseriesPoint.date (batchSeries from' to' json))).
Proof.
  cbv zeta. intros P N D. split; [|split; [|split]].
  - unfold getTimeseries, tryCatch, bind, get, ret. rewrite P.
    destruct (batchSeries _ _ json); [congruence|reflexivity].
  - unfold batchSeries.
    apply (filterMap_sorted _ TimeseriesPoint.date
             (fun a b => String.compare a b = Lt)).
    + intros x y E. now apply bucketPoint_date in E.
    + now apply sorted_keys_strict.
  - intros p I. unfold batchSeries in I. apply filterMap_In in I.
    destruct I as [d [I E]]. apply bucketPoint_date in E. destruct E as [<- R].
    split; [|exact R].
    apply (Permutation_in _ (sortBy_perm String.compare _)). exact I.
  - intros d I Miss J. apply in_map_iff in J. destruct J as [p [<- J]].
    unfold batchSeries in J. apply filterMap_In in J.
    destruct J as [d' [_ E]]. apply bucketPoint_date in E.
    destruct E as [<- [rFrom [rTo [Rf [Rt _]]]]].
    destruct Miss as [Miss|Miss]; congruence.
Qed.

End TimeseriesFacts.

(** The batch path on a payload of two dates, of which one lacks EUR: the
    series is the one complete date. *)
Lemma getTimeseries_batch_ascending_witness :
  fst (getTimeseries Fixture.utcHost 0 Fixture.marchRange
         (Fixture.world (Fixture.only "timeseries" Fixture.twoDatesOneComplete) [] 0))
  = Returned [Fixture.point "2024-03-10" 0.5].
Proof.
  destruct (getTimeseries_batch_ascending Fixture.utcHost 0 Fixture.marchRange
              (Fixture.world (Fixture.only "timeseries" Fixture.twoDatesOneComplete) [] 0)
              Fixture.twoDatesOneComplete eq_refl) as [E _].
  - discriminate.
  - vm_compute. repeat constructor; simpl; intuition discriminate.
  - exact E.
Defined.

(** The per-day fallback on a host on UTC lists each day of the range once. *)
Example getTimeseries_fallback_utc :
  fst (getTimeseries Fixture.utcHost 5 Fixture.marchRange
         (Fixture.world (Fixture.only "historical" Fixture.historicalEur) [] 0))
  = Returned [Fixture.point "2024-03-09" 0.5; Fixture.point "2024-03-10" 0.5;
              Fixture.point "2024-03-11" 0.5; Fixture.point "2024-03-12" 0.5].
Proof. vm_compute. reflexivity. Qed.

(** C7 fails on the per-day fallback where local time has daylight saving.
    On New York time, for 2024-03-09 to 2024-03-12 with [timeseries] down and
    [historical] answering, the day after 2024-03-10T00:00Z on the local
    clock is 2024-03-10T23:00Z: the date 2024-03-10 is listed, asked for and
    returned twice, and 2024-03-12 is never reached. *)
Theorem getTimeseries_repeats_a_day :
  DateTime.daysBetween Fixture.newYorkHost 5
    (dateParse Fixture.newYorkHost "2024-03-09") (dateParse Fixture.newYorkHost "2024-03-12")
  = Some ["2024-03-09"; "2024-03-10"; "2024-03-10"; "2024-03-11"]
  /\ fst (getTimeseries Fixture.newYorkHost 5 Fixture.marchRange
            (Fixture.world (Fixture.only "historical" Fixture.historicalEur) [] 0))
     = Returned [Fixture.point "2024-03-09" 0.5; Fixture.point "2024-03-10" 0.5;
                 Fixture.point "2024-03-10" 0.5; Fixture.point "2024-03-11" 0.5].
Proof. split; vm_compute; reflexivity. Qed.

(** * Further properties *)

(** ** Lookups in dictionaries and queries *)

Section LookupFacts.

Context {V : Type}.

Lemma lookup_In (k : string) (d : list (string * V)) (v : V) :
  lookup k d = Some v -> In (k, v) d.
Proof.
  induction d as [|[k1 v1] r IH]; simpl; [discriminate|].
  destruct (String.eqb_spec k1 k) as [->|N].
  - intros E. injection E as ->. now left.
  - intros E. right. now apply IH.
Qed.

Lemma lookup_None (k : string) (d : list (string * V)) :
  lookup k d = None <-> ~ In k (map fst d).
Proof.
  induction d as [|[k1 v1] r IH]; simpl.
  - tauto.
  - destruct (String.eqb_spec k1 k) as [->|N].
    + split; [discriminate|]. intros H. exfalso. apply H. now left.
    + rewrite IH. tauto.
Qed.

Lemma lookup_mem (k : string) (d : list (string * V)) :
  Dict.mem k d = true <-> exists v, lookup k d = Some v.
Proof.
  destruct (lookup k d) as [v|] eqn:E.
  - split; [now exists v|]. intros _. apply mem_In. unfold Dict.keys.
    apply lookup_In in E. apply in_map_iff. now exists (k, v).
  - split.
    + intros M. apply mem_In in M. now apply lookup_None in E.
    + intros [v D]. discriminate.
Qed.

Lemma lookup_app_other (k k' : string) (v : V) (d : list (string * V)) :
  k' <> k -> lookup k' (d ++ [(k, v)]) = lookup k' d.
Proof.
  intros N. induction d as [|[k1 v1] r IH]; simpl.
  - destruct (String.eqb_spec k k'); congruence.
  - now rewrite IH.
Qed.

Lemma lookup_app_same (k : string) (v : V) (d : list (string * V)) :
  Dict.mem k d = false -> lookup k (d ++ [(k, v)]) = Some v.
Proof.
  induction d as [|[k1 v1] r IH]; simpl.
  - now rewrite String.eqb_refl.
  - intros M. apply orb_false_iff in M. destruct M as [M1 M2]. simpl in M1.
    rewrite M1. now apply IH.
Qed.

Lemma lookup_overwrite_same (k : string) (v : V) (d : list (string * V)) :
  Dict.mem k d = true -> lookup k (Dict.overwrite k v d) = Some v.
Proof.
  induction d as [|[k1 v1] r IH]; simpl; [discriminate|].
  destruct (String.eqb k1 k) eqn:E; simpl.
  - now rewrite E.
  - rewrite E. exact IH.
Qed.

Lemma lookup_overwrite_other (k k' : string) (v : V) (d : list (string * V)) :
  k' <> k -> lookup k' (Dict.overwrite k v d) = lookup k' d.
Proof.
  intros N. induction d as [|[k1 v1] r IH]; simpl; [reflexivity|].
  destruct (String.eqb_spec k1 k) as [->|N1]; simpl.
  - destruct (String.eqb_spec k k'); [congruence|exact IH].
  - now rewrite IH.
Qed.

Lemma lookup_placeIndex_same (i : N) (k : string) (v : V) (d : Dict.t V) :
  Dict.mem k d = false -> lookup k (Dict.placeIndex i k v d) = Some v.
Proof.
  induction d as [|[k1 v1] r IH]; simpl.
  - now rewrite String.eqb_refl.
  - intros M. apply orb_false_iff in M. destruct M as [M1 M2]. simpl in M1.
    destruct (Str.toIndex k1) as [j|]; [destruct (j <? i)%N|]; simpl;
      rewrite ?String.eqb_refl, ?M1; auto.
Qed.

Lemma lookup_placeIndex_other (i : N) (k k' : string) (v : V) (d : Dict.t V) :
  k' <> k -> lookup k' (Dict.placeIndex i k v d) = lookup k' d.
Proof.
  intros N. induction d as [|[k1 v1] r IH]; simpl.
  - destruct (String.eqb_spec k k'); congruence.
  - destruct (Str.toIndex k1) as [j|]; [destruct (j <? i)%N|]; simpl;
      rewrite ?IH; try reflexivity;
      destruct (String.eqb_spec k k'); congruence.
Qed.

(** Reading a key just written gives the value written. *)
Lemma get_set_same (k : string) (v : V) (d : Dict.t V) :
  Dict.get k (Dict.set k v d) = Some v.
Proof.
  unfold Dict.get, Dict.set. destruct (Dict.mem k d) eqn:M.
  - now apply lookup_overwrite_same.
  - unfold Dict.place. destruct (Str.toIndex k).
    + now apply lookup_placeIndex_same.
    + now apply lookup_app_same.
Qed.

(** Writing a key leaves every other key as it was. *)
Lemma get_set_other (k k' : string) (v : V) (d : Dict.t V) :
  k' <> k -> Dict.get k' (Dict.set k v d) = Dict.get k' d.
Proof.
  intros N. unfold Dict.get, Dict.set. destruct (Dict.mem k d).
  - now apply lookup_overwrite_other.
  - unfold Dict.place. destruct (Str.toIndex k).
    + now apply lookup_placeIndex_other.
    + now apply lookup_app_other.
Qed.

Lemma NoDup_lookup (k : string) (v : V) (d : list (string * V)) :
  NoDup (map fst d) -> In (k, v) d -> lookup k d = Some v.
Proof.
  induction d as [|[k1 v1] r IH]; simpl; [tauto|].
  intros N [E|I].
  - injection E as -> ->. now rewrite String.eqb_refl.
  - inversion N as [|? ? Nk Nr]; subst.
    destruct (String.eqb_spec k1 k) as [->|_]; [|now apply IH].
    exfalso. apply Nk. apply in_map_iff. now exists (k, v).
Qed.

End LookupFacts.

(** ** The query builder *)

Lemma querySet_keys (k v : string) (q : list (string * string)) (k' : string) :
  In k' (map fst (querySet k v q)) <-> k' = k \/ In k' (map fst q).
Proof.
  unfold querySet. destruct (Dict.mem k q) eqn:M.
  - change (map fst (Dict.overwrite k v q)) with (Dict.keys (Dict.overwrite k v q)).
    rewrite keys_overwrite. apply mem_In in M. unfold Dict.keys in *.
    split; [auto|]. intros [->|I]; assumption.
  - rewrite map_app, in_app_iff. simpl. intuition congruence.
Qed.

Lemma querySet_NoDup (k v : string) (q : list (string * string)) :
  NoDup (map fst q) -> NoDup (map fst (querySet k v q)).
Proof.
  intros N. unfold querySet. destruct (Dict.mem k q) eqn:M.
  - change (map fst (Dict.overwrite k v q)) with (Dict.keys (Dict.overwrite k v q)).
    now rewrite keys_overwrite.
  - rewrite map_app. simpl.
    apply (Permutation_NoDup (l := k :: map fst q)).
    + apply Permutation_cons_append.
    + constructor; [|exact N]. intros I. apply mem_In in I. congruence.
Qed.

Lemma querySet_same (k v : string) (q : list (string * string)) :
  lookup k (querySet k v q) = Some v.
Proof.
  unfold querySet. destruct (Dict.mem k q) eqn:M.
  - now apply lookup_overwrite_same.
  - now apply lookup_app_same.
Qed.

Lemma querySet_other (k k' v : string) (q : list (string * string)) :
  k' <> k -> lookup k' (querySet k v q) = lookup k' q.
Proof.
  intros N. unfold querySet. destruct (Dict.mem k q).
  - now apply lookup_overwrite_other.
  - now apply lookup_app_other.
Qed.

Section QueryFacts.

Context (h : Host).

Lemma params_NoDup (params : list (string * Value)) (q : list (string * string)) :
  NoDup (map fst q) -> NoDup (map fst (fold_left (queryStep h) params q)).
Proof.
  apply (fold_left_invariant (fun q => NoDup (map fst q))).
  intros a p N. unfold queryStep. destruct (isNullish (snd p)); [exact N|].
  now apply querySet_NoDup.
Qed.

Lemma params_keys (params : list (string * Value)) (q : list (string * string))
    (k : string) :
  In k (map fst (fold_left (queryStep h) params q)) <->
  In k (map fst q) \/ exists v, In (k, v) params /\ isNullish v = false.
Proof.
  revert q. induction params as [|[k1 v1] r IH]; simpl; intros q.
  - split; [auto|]. intros [I|[v [[] _]]]. exact I.
  - rewrite IH. unfold queryStep at 1. simpl. destruct (isNullish v1) eqn:N.
    + split.
      * intros [I|[v [I Nv]]]; [now left|right; exists v; auto].
      * intros [I|[v [[E|I] Nv]]]; [now left| |right; exists v; auto].
        injection E as -> ->. congruence.
    + rewrite querySet_keys. split.
      * intros [[->|I]|[v [I Nv]]]; [right; exists v1; auto|now left|right; exists v; auto].
      * intros [I|[v [[E|I] Nv]]]; [left; now right| |right; exists v; auto].
        injection E as -> ->. left. now left.
Qed.

Lemma params_untouched (params : list (string * Value)) (q : list (string * string))
    (k : string) :
  ~ In k (map fst params) ->
  lookup k (fold_left (queryStep h) params q) = lookup k q.
Proof.
  revert q. induction params as [|[k1 v1] r IH]; simpl; intros q N; [reflexivity|].
  rewrite IH by tauto. unfold queryStep. simpl.
  destruct (isNullish v1); [reflexivity|].
  apply querySet_other. intros ->. apply N. now left.
Qed.

Lemma params_value (params : list (string * Value)) (q : list (string * string))
    (k : string) (v : Value) :
  NoDup (map fst params) -> In (k, v) params -> isNullish v = false ->
  lookup k (fold_left (queryStep h) params q) = Some (toStr h v).
Proof.
  revert q. induction params as [|[k1 v1] r IH]; simpl; intros q N I Nv; [tauto|].
  inversion N as [|? ? Nk Nr]; subst. destruct I as [E|I].
  - injection E as -> ->. rewrite params_untouched by exact Nk.
    unfold queryStep. simpl. rewrite Nv. apply querySet_same.
  - now apply IH.
Qed.

(** The query holds each key once.  Its keys are those of the parameters
    that are neither [null] nor [undefined], and [api_key] when a key is
    configured.  A configured key is sent under [api_key], whatever the
    parameters say; and every other parameter that is set is sent as
    [String] of its value. *)
Theorem buildQuery_parameters (params : list (string * Value)) :
  NoDup (map fst (buildQuery h params))
  /\ (forall k,
        In k (map fst (buildQuery h params)) <->
        (exists v, In (k, v) params /\ isNullish v = false)
        \/ (k = "api_key" /\ exists key, API_KEY h = Some key /\ key <> ""))
  /\ (forall key, API_KEY h = Some key -> key <> "" ->
      lookup "api_key" (buildQuery h params) = Some key)
  /\ (NoDup (map fst params) ->
      forall k v, In (k, v) params -> isNullish v = false ->
      k <> "api_key" \/ API_KEY h = None \/ API_KEY h = Some "" ->
      lookup k (buildQuery h params) = Some (toStr h v)).
Proof.
  unfold buildQuery. fold (queryStep h).
  assert (N0 : NoDup (map fst (fold_left (queryStep h) params [])))
    by (apply params_NoDup; constructor).
  assert (K0 : forall k, In k (map fst (fold_left (queryStep h) params [])) <->
                         exists v, In (k, v) params /\ isNullish v = false).
  { intros k. rewrite params_keys. split; [intros [[]|P]; exact P|intros P; now right]. }
  split; [|split; [|split]].
  - destruct (API_KEY h) as [key|]; [|exact N0].
    destruct (String.eqb key ""); [exact N0|]. now apply querySet_NoDup.
  - intros k. destruct (API_KEY h) as [key|].
    + destruct (String.eqb_spec key "") as [->|Nk].
      * rewrite K0. split; [auto|]. intros [P|[_ [key [E Nk]]]]; [exact P|].
        injection E as <-. congruence.
      * rewrite querySet_keys, K0. split.
        -- intros [->|P]; [right; split; [reflexivity|now exists key]|now left].
        -- intros [P|[-> _]]; [now right|now left].
    + rewrite K0. split; [auto|]. intros [P|[_ [key [E _]]]]; [exact P|discriminate].
  - intros key E Nk. rewrite E.
    destruct (String.eqb_spec key ""); [congruence|]. apply querySet_same.
  - intros Np k v I Nv C.
    pose proof (params_value params [] k v Np I Nv) as L.
    destruct (API_KEY h) as [key|]; [|exact L].
    destruct (String.eqb_spec key "") as [->|Nk]; [exact L|].
    rewrite querySet_other; [exact L|].
    destruct C as [C|[C|C]]; [exact C|discriminate|]. injection C as ->. congruence.
Qed.

End QueryFacts.

(** The query of a conversion carries the amount as text. *)
Lemma buildQuery_parameters_witness :
  lookup "amount" (buildQuery Fixture.utcHost (convertRequestParams "EUR" "GBP" 10))
  = Some "10".
Proof.
  destruct (buildQuery_parameters Fixture.utcHost (convertRequestParams "EUR" "GBP" 10))
    as [_ [_ [_ V]]].
  apply (V ltac:(vm_compute; repeat constructor; simpl; intuition discriminate)
           "amount" (VNum 10)).
  - simpl. tauto.
  - reflexivity.
  - left. discriminate.
Defined.

(** ** Display names *)

Lemma mapM_Forall2 {A B : Type} (f : A -> option B) (l : list A) (l' : list B) :
  mapM f l = Some l' -> Forall2 (fun x y => f x = Some y) l l'.
Proof.
  revert l'. induction l as [|x r IH]; simpl; intros l' E.
  - injection E as <-. constructor.
  - destruct (f x) as [y|] eqn:Fx; [|discriminate].
    destruct (mapM f r) as [r'|]; [|discriminate].
    injection E as <-. constructor; [exact Fx|now apply IH].
Qed.

Lemma mapM_None {A B : Type} (f : A -> option B) (l : list A) :
  mapM f l = None <-> exists x, In x l /\ f x = None.
Proof.
  induction l as [|x r IH]; simpl.
  - split; [discriminate|]. intros [x [[] _]].
  - destruct (f x) as [y|] eqn:Fx.
    + destruct (mapM f r) as [r'|].
      * split; [discriminate|]. intros [z [[<-|I] Fz]]; [congruence|].
        destruct IH as [_ IH]. discriminate IH. now exists z.
      * split; [|reflexivity]. intros _.
        destruct IH as [IH _]. destruct (IH eq_refl) as [z [I Fz]]. exists z. auto.
    + split; [|reflexivity]. intros _. exists x. auto.
Qed.

Section NamingFacts.

Context (h : Host).

Lemma withDisplayName_keeps (of_ : string -> option (option string)) (c c' : Currency) :
  withDisplayName of_ c = Some c' ->
  code c' = code c /\ symbol c' = symbol c
  /\ name c' = if hasMeaningfulName c then name c
               else match of_ (code c) with
                    | Some (Some n) => n
                    | _ => name c
                    end.
Proof.
  unfold withDisplayName, hasMeaningfulName.
  destruct (of_ (code c)) as [[n|]|]; [| |discriminate];
    intros E; injection E as <-; simpl; repeat split;
    destruct (negb _ && negb _); reflexivity.
Qed.

Lemma Forall2_same {A : Type} (R : A -> A -> Prop) (l : list A) :
  (forall x, R x x) -> Forall2 R l l.
Proof. intros Rx. induction l; constructor; auto. Qed.

(** Naming keeps every currency in its place with its code and its symbol,
    and leaves alone every name that is not empty and is not the code; the
    select then labels such a currency with its name followed by its code in
    brackets. *)
Theorem currencyNames_preserves (currencies : list Currency) :
  Forall2 (fun c c' => code c' = code c /\ symbol c' = symbol c
                       /\ (hasMeaningfulName c = true ->
                           name c' = name c
                           /\ CurrencySelect.getLabel c'
                              = (name c ++ " (" ++ code c ++ ")")%string))
    currencies (currencyNames h currencies).
Proof.
  assert (L : forall c, hasMeaningfulName c = true ->
                        CurrencySelect.getLabel c
                        = (name c ++ " (" ++ code c ++ ")")%string).
  { intros c M. unfold CurrencySelect.getLabel. unfold hasMeaningfulName in M.
    now rewrite M. }
  unfold currencyNames.
  destruct (displayNames h) as [of_|]; [|apply Forall2_same; auto].
  destruct (mapM (withDisplayName of_) currencies) as [named|] eqn:E;
    [|apply Forall2_same; auto].
  apply mapM_Forall2 in E.
  eapply Forall2_impl; [|exact E]. intros c c' W.
  apply withDisplayName_keeps in W. destruct W as [C [S N]].
  split; [exact C|]. split; [exact S|]. intros M. rewrite M in N.
  split; [exact N|]. rewrite <- N, <- C. apply L.
  unfold hasMeaningfulName in *. now rewrite N, C.
Qed.

(** Naming is all or nothing.  Without [Intl.DisplayNames], or when its
    [of] throws for one code of the list, the list comes back unchanged, the
    currencies it could have named included.  When [of] answers for every
    code, each currency without a name of its own takes the name given, or
    keeps its name where none is given. *)
Theorem currencyNames_all_or_nothing (currencies : list Currency) :
  (displayNames h = None -> currencyNames h currencies = currencies)
  /\ (forall of_, displayNames h = Some of_ ->
      (exists c, In c currencies /\ of_ (code c) = None) ->
      currencyNames h currencies = currencies)
  /\ (forall of_, displayNames h = Some of_ ->
      (forall c, In c currencies -> of_ (code c) <> None) ->
      Forall2 (fun c c' =>
                 name c' = if hasMeaningfulName c then name c
                           else match of_ (code c) with
                                | Some (Some n) => n
                                | _ => name c
                                end)
        currencies (currencyNames h currencies)).
Proof.
  unfold currencyNames. split; [|split].
  - now intros ->.
  - intros of_ -> [c [I T]].
    assert (E : mapM (withDisplayName of_) currencies = None).
    { apply mapM_None. exists c. split; [exact I|].
      unfold withDisplayName. now rewrite T. }
    now rewrite E.
  - intros of_ -> A.
    destruct (mapM (withDisplayName of_) currencies) as [named|] eqn:E.
    + apply mapM_Forall2 in E. eapply Forall2_impl; [|exact E].
      intros c c' W. now apply withDisplayName_keeps in W.
    + apply mapM_None in E. destruct E as [c [I W]]. exfalso. apply (A c I).
      unfold withDisplayName in W. now destruct (of_ (code c)).
Qed.

End NamingFacts.

(** One four-letter code keeps the euro from being named. *)
Lemma currencyNames_all_or_nothing_witness :
  currencyNames Fixture.utcHost Fixture.withTether = Fixture.withTether.
Proof.
  destruct (currencyNames_all_or_nothing Fixture.utcHost Fixture.withTether)
    as [_ [T _]].
  apply (T Fixture.displayNameOf eq_refl).
  exists {| code := "USDT"; name := "USDT"; symbol := None |}.
  split; [right; left; reflexivity|reflexivity].
Defined.

(** ** Trimming and upper-casing *)

Lemma upperChar_idem (c : ascii) : Str.upperChar (Str.upperChar c) = Str.upperChar c.
Proof.
  unfold Str.upperChar. destruct (Str.isLowerAZ c) eqn:L; [|now rewrite L].
  unfold Str.isLowerAZ in *. apply andb_true_iff in L. destruct L as [L1 L2].
  apply Nat.leb_le in L1. apply Nat.leb_le in L2.
  rewrite nat_ascii_embedding by lia.
  replace (97 <=? nat_of_ascii c - 32) with false; [reflexivity|].
  symmetry. apply Nat.leb_gt. lia.
Qed.

Lemma isSpace_upperChar (c : ascii) : Str.isSpace (Str.upperChar c) = Str.isSpace c.
Proof.
  unfold Str.upperChar. destruct (Str.isLowerAZ c) eqn:L; [|reflexivity].
  unfold Str.isLowerAZ in L. apply andb_true_iff in L. destruct L as [L1 L2].
  apply Nat.leb_le in L1. apply Nat.leb_le in L2.
  unfold Str.isSpace. rewrite nat_ascii_embedding by lia.
  replace (nat_of_ascii c - 32 <=? 13) with false by (symmetry; apply Nat.leb_gt; lia).
  replace (nat_of_ascii c - 32 =? 32) with false by (symmetry; apply Nat.eqb_neq; lia).
  replace (nat_of_ascii c <=? 13) with false by (symmetry; apply Nat.leb_gt; lia).
  replace (nat_of_ascii c =? 32) with false by (symmetry; apply Nat.eqb_neq; lia).
  now rewrite !andb_false_r.
Qed.

Lemma toUpperCase_idem (s : string) :
  Str.toUpperCase (Str.toUpperCase s) = Str.toUpperCase s.
Proof.
  induction s as [|c r IH]; simpl; [reflexivity|]. now rewrite upperChar_idem, IH.
Qed.

Lemma trimStart_upper (s : string) :
  Str.trimStart (Str.toUpperCase s) = Str.toUpperCase (Str.trimStart s).
Proof.
  induction s as [|c r IH]; simpl; [reflexivity|].
  rewrite isSpace_upperChar. now destruct (Str.isSpace c).
Qed.

Lemma trimEnd_upper (s : string) :
  Str.trimEnd (Str.toUpperCase s) = Str.toUpperCase (Str.trimEnd s).
Proof.
  induction s as [|c r IH]; simpl; [reflexivity|].
  rewrite IH, isSpace_upperChar.
  destruct (Str.trimEnd r); simpl; [now destruct (Str.isSpace c)|reflexivity].
Qed.

Lemma trim_upper (s : string) :
  Str.trim (Str.toUpperCase s) = Str.toUpperCase (Str.trim s).
Proof. unfold Str.trim. now rewrite trimStart_upper, trimEnd_upper. Qed.

Lemma trimEnd_idem (s : string) : Str.trimEnd (Str.trimEnd s) = Str.trimEnd s.
Proof.
  induction s as [|c r IH]; simpl; [reflexivity|].
  destruct (Str.trimEnd r) as [|a b] eqn:E.
  - destruct (Str.isSpace c) eqn:S; simpl; [reflexivity|now rewrite S].
  - simpl in *. now rewrite IH.
Qed.

Lemma trimStart_head (s : string) :
  match Str.trimStart s with
  | String c _ => Str.isSpace c = false
  | EmptyString => True
  end.
Proof.
  induction s as [|c r IH]; simpl; [exact I|].
  destruct (Str.isSpace c) eqn:S; [exact IH|exact S].
Qed.

Lemma trimEnd_head (s : string) :
  match s with String c _ => Str.isSpace c = false | EmptyString => True end ->
  Str.trimStart (Str.trimEnd s) = Str.trimEnd s.
Proof.
  destruct s as [|c r]; [reflexivity|]. intros S. cbn [Str.trimEnd].
  destruct (Str.trimEnd r); rewrite ?S; cbn [Str.trimStart]; now rewrite S.
Qed.

Lemma trim_idem (s : string) : Str.trim (Str.trim s) = Str.trim s.
Proof.
  unfold Str.trim. rewrite trimEnd_head by apply trimStart_head.
  apply trimEnd_idem.
Qed.

Lemma normalizeSide_idem (s : string) :
  normalizeSide (normalizeSide s) = normalizeSide s.
Proof.
  unfold normalizeSide. now rewrite trim_upper, toUpperCase_idem, trim_idem.
Qed.

Lemma normalizeAmount_idem (x : float) :
  normalizeAmount (normalizeAmount x) = normalizeAmount x.
Proof.
  unfold normalizeAmount. destruct (truthyNum x) eqn:T; [now rewrite T|reflexivity].
Qed.

(** A code that matches the pattern is already trimmed and in upper case. *)
Lemma codePattern_normal (s : string) :
  codePattern s = true -> Str.toUpperCase (Str.trim s) = s.
Proof.
  unfold codePattern. intros P. apply andb_true_iff in P. destruct P as [_ P].
  assert (U : forall c, Str.isUpperAZ c = true ->
                        Str.upperChar c = c /\ Str.isSpace c = false).
  { intros c A. unfold Str.isUpperAZ in A. apply andb_true_iff in A.
    destruct A as [A1 A2]. apply Nat.leb_le in A1. apply Nat.leb_le in A2.
    unfold Str.upperChar, Str.isLowerAZ, Str.isSpace. split.
    - replace (97 <=? nat_of_ascii c) with false; [reflexivity|].
      symmetry. apply Nat.leb_gt. lia.
    - replace (nat_of_ascii c <=? 13) with false by (symmetry; apply Nat.leb_gt; lia).
      replace (nat_of_ascii c =? 32) with false by (symmetry; apply Nat.eqb_neq; lia).
      now rewrite andb_false_r. }
  assert (T : Str.trimStart s = s /\ Str.trimEnd s = s /\ Str.toUpperCase s = s).
  { unfold Str.chars in P. induction s as [|c r IH]; [now repeat split|].
    cbn [list_ascii_of_string forallb] in P.
    apply andb_true_iff in P. destruct P as [Pc Pr].
    destruct (U c Pc) as [Uc Sc]. destruct (IH Pr) as [_ [IE IU]].
    cbn [Str.trimStart Str.trimEnd Str.toUpperCase].
    rewrite Sc, IE, Uc, IU. repeat split. now destruct r. }
  destruct T as [T1 [T2 T3]]. unfold Str.trim. now rewrite T1, T2, T3.
Qed.

Section NormalForms.

Context (h : Host).

(** Codes are read without regard to case and surrounding white space, and
    an amount that is [0] or [NaN] as [0]: a call with its parameters already
    in that form is the same call. *)
Theorem calls_normal_form :
  (forall (params : ConvertParams) (w : World),
     convertOnce h params w
     = convertOnce h {| from := Str.toUpperCase (Str.trim (from params));
                        to := Str.toUpperCase (Str.trim (to params));
                        amount := if truthyNum (amount params) then amount params
                                  else 0%float |} w)
  /\ (forall (fuel : nat) (params : TimeseriesParams) (w : World),
       getTimeseries h fuel params w
       = getTimeseries h fuel
           {| ts_from := Str.toUpperCase (Str.trim (ts_from params));
              ts_to := Str.toUpperCase (Str.trim (ts_to params));
              ts_start := ts_start params;
              ts_end := ts_end params |} w).
Proof.
  split.
  - intros params w.
    pose proof (normalizeSide_idem (from params)) as Ef.
    pose proof (normalizeSide_idem (to params)) as Et.
    pose proof (normalizeAmount_idem (amount params)) as Ea.
    unfold convertOnce. cbn [from to amount].
    unfold normalizeSide, normalizeAmount in *. now rewrite Ef, Et, Ea.
  - intros fuel params w.
    pose proof (normalizeSide_idem (ts_from params)) as Ef.
    pose proof (normalizeSide_idem (ts_to params)) as Et.
    unfold getTimeseries. cbn [ts_from ts_to ts_start ts_end].
    unfold normalizeSide in *. now rewrite Ef, Et.
Qed.

End NormalForms.

(** ** More on the currency-list normaliser *)

Lemma foldM_reaches {A B : Type} (Q : A -> Prop) (f : A -> B -> option A)
    (l : list B) (x : B) (a a' : A) :
  (forall a b a', Q a -> f a b = Some a' -> Q a') ->
  (forall a a', f a x = Some a' -> Q a') ->
  In x l -> foldM f l a = Some a' -> Q a'.
Proof.
  intros Keep Reach. revert a. induction l as [|b r IH]; simpl; intros a I E; [tauto|].
  destruct (f a b) as [a1|] eqn:F; [|discriminate].
  destruct I as [->|I].
  - apply (foldM_invariant Q f r a1); [exact Keep|now apply (Reach a)|exact E].
  - now apply (IH a1).
Qed.

Lemma NoDup_map_injective {A B : Type} (f : A -> B) (l : list A) (a b : A) :
  NoDup (map f l) -> In a l -> In b l -> f a = f b -> a = b.
Proof.
  induction l as [|x r IH]; simpl; [tauto|].
  intros N. inversion N as [|? ? Nx Nr]; subst.
  intros [->|Ia] [->|Ib] E; auto.
  - exfalso. apply Nx. rewrite E. now apply in_map.
  - exfalso. apply Nx. rewrite <- E. now apply in_map.
Qed.

(** Induction on a value, through the elements of its arrays and the
    properties of its objects. *)
Lemma Value_induction (P : Value -> Prop) :
  P VUndefined -> P VNull -> (forall b, P (VBool b)) -> (forall x, P (VNum x)) ->
  (forall s, P (VStr s)) ->
  (forall items, Forall P items -> P (VArr items)) ->
  (forall props, Forall (fun e => P (snd e)) props -> P (VObj props)) ->
  forall v, P v.
Proof.
  intros U N B X S A O. fix IH 1. intros [| |b|x|s|items|props].
  - exact U.
  - exact N.
  - apply B.
  - apply X.
  - apply S.
  - apply A. revert items. fix IHl 1. intros [|e r]; constructor; [apply IH|apply IHl].
  - apply O. revert props. fix IHl 1. intros [|e r]; constructor; [apply IH|apply IHl].
Qed.

Lemma stringThrows_array (items : list Value) :
  stringThrows (VArr items) = existsb stringThrows items.
Proof. simpl. induction items as [|e r IH]; [reflexivity|]. simpl. now rewrite IH. Qed.

Lemma hasToString_array (items : list Value) :
  hasToString (VArr items) = existsb hasToString items.
Proof. simpl. induction items as [|e r IH]; [reflexivity|]. simpl. now rewrite IH. Qed.

Lemma hasToString_object (props : list (string * Value)) :
  hasToString (VObj props)
  = existsb (fun e => String.eqb (fst e) "toString" || hasToString (snd e)) props.
Proof.
  simpl. induction props as [|[k x] r IH]; [reflexivity|]. simpl. now rewrite IH.
Qed.

(** Without a property [toString] anywhere in it, a value is converted to
    text, and so is every value read from it. *)
Lemma hasToString_stringThrows (v : Value) :
  hasToString v = false -> stringThrows v = false.
Proof.
  induction v as [| | | | |items IH|props IH] using Value_induction; try reflexivity.
  - rewrite hasToString_array, stringThrows_array.
    induction IH as [|e r He Hr IHr]; [reflexivity|]. simpl.
    intros C. apply orb_false_iff in C. destruct C as [Ce Cr].
    now rewrite (He Ce), (IHr Cr).
  - rewrite hasToString_object. clear IH. cbn [stringThrows].
    induction props as [|[k x] r IHr]; [reflexivity|]. simpl.
    intros C. apply orb_false_iff in C. destruct C as [Ce Cr].
    apply orb_false_iff in Ce. destruct Ce as [Ck _]. rewrite Ck. now apply IHr.
Qed.

Lemma hasToString_element (items : list Value) (i : N) (x : Value) :
  existsb hasToString items = false -> element i items = Some x ->
  hasToString x = false.
Proof.
  intros C E. unfold element in E.
  destruct (i <? N.of_nat (List.length items))%N; [|discriminate].
  apply nth_error_In in E.
  destruct (hasToString x) eqn:T; [|reflexivity].
  assert (X : existsb hasToString items = true) by (apply existsb_exists; now exists x).
  congruence.
Qed.

Lemma hasToString_getProp (v : Value) (k : string) :
  hasToString v = false -> hasToString (getProp v k) = false.
Proof.
  destruct v as [| |b|x|s|items|props]; try reflexivity.
  - simpl. destruct (Str.toIndex k) as [i|]; [|reflexivity].
    now destruct (element i (Str.chars s)).
  - rewrite hasToString_array. cbn [getProp]. intros C.
    destruct (Str.toIndex k) as [i|]; [|reflexivity].
    destruct (element i items) as [x|] eqn:E; [|reflexivity].
    now apply (hasToString_element items i).
  - rewrite hasToString_object. cbn [getProp].
    induction props as [|[k' x] r IH]; [reflexivity|]. simpl.
    intros C. apply orb_false_iff in C. destruct C as [Ce Cr].
    apply orb_false_iff in Ce. destruct Ce as [_ Cx].
    destruct (String.eqb k' k); [exact Cx|now apply IH].
Qed.

Lemma hasToString_optProp (v : Value) (k : string) :
  hasToString v = false -> hasToString (optProp v k) = false.
Proof.
  intros C. unfold optProp. destruct (isNullish v); [reflexivity|].
  now apply hasToString_getProp.
Qed.

Lemma hasToString_coalesce (a b : Value) :
  hasToString a = false -> hasToString b = false -> hasToString (a ?? b) = false.
Proof. intros A B. unfold coalesce. now destruct (isNullish a). Qed.

Lemma hasToString_recordName (v c : Value) :
  hasToString v = false -> hasToString c = false ->
  hasToString (recordName v c) = false.
Proof.
  intros V C. unfold recordName.
  repeat (apply hasToString_coalesce; [now apply hasToString_getProp|]). exact C.
Qed.

Lemma hasToString_itemCode (v : Value) :
  hasToString v = false -> hasToString (itemCode v) = false.
Proof.
  intros V. unfold itemCode.
  repeat (apply hasToString_coalesce; [now apply hasToString_getProp|]).
  now apply hasToString_getProp.
Qed.

Lemma hasToString_entryCode (key : string) (v : Value) :
  hasToString v = false -> hasToString (entryCode key v) = false.
Proof.
  intros V. unfold entryCode.
  repeat (apply hasToString_coalesce; [now apply hasToString_getProp|]).
  unfold keyCode. now destruct (codePattern key).
Qed.

Lemma hasToString_sources (raw : Value) (type : CurrencyType) (source : Value) :
  hasToString raw = false -> In source (currencySources raw type) ->
  hasToString source = false.
Proof.
  intros C I. unfold currencySources in I. simpl in I.
  repeat (destruct I as [<-|I]; [repeat apply hasToString_optProp; exact C|]).
  destruct I.
Qed.

Section MoreNormalizerFacts.

Context (h : Host).

(** A top-level array is read as the array it is: none of the other six
    locations exists in it. *)
Lemma parseCurrenciesJSON_array (items : list Value) (type : CurrencyType) :
  parseCurrenciesJSON h (VArr items) type
  = match foldM (addItem h) items Dict.empty with
    | Some d => Some (sortCurrencies h (Dict.values d))
    | None => None
    end.
Proof.
  unfold parseCurrenciesJSON.
  assert (E : foldM (addSource h) (currencySources (VArr items) type) Dict.empty
              = foldM (addItem h) items Dict.empty).
  { destruct type; cbn;
      now destruct (foldM (addItem h) items Dict.empty). }
  now rewrite E.
Qed.

Lemma table_values (d : Dict.t Currency) (k : string) (c : Currency) :
  Dict.get k d = Some c -> In c (Dict.values d).
Proof.
  intros G. apply lookup_In in G. unfold Dict.values.
  apply in_map_iff. now exists (k, c).
Qed.

(** A code once in the table stays in it. *)
Lemma addCandidate_grows (c n s : Value) (d d' : Dict.t Currency) (k : string) :
  Dict.mem k d = true -> addCandidate h c n s d = Some d' -> Dict.mem k d' = true.
Proof.
  intros M. unfold addCandidate.
  destruct (normalizeCode h c) as [k'|]; [|discriminate].
  destruct (codePattern k'); simpl.
  - destruct (stringOf h (n ?? VStr k')); [|discriminate].
    intros X. injection X as <-. rewrite set_mem, M. apply orb_true_r.
  - intros X. now injection X as <-.
Qed.

Lemma addItem_grows (d : Dict.t Currency) (item : Value) (d' : Dict.t Currency)
    (k : string) :
  Dict.mem k d = true -> addItem h d item = Some d' -> Dict.mem k d' = true.
Proof.
  intros M. unfold addItem.
  match goal with |- context [if ?b then _ else _] => destruct b end.
  - now apply addCandidate_grows.
  - intros X. now injection X as <-.
Qed.

Lemma addEntry_grows (d : Dict.t Currency) (e : string * Value) (d' : Dict.t Currency)
    (k : string) :
  Dict.mem k d = true -> addEntry h d e = Some d' -> Dict.mem k d' = true.
Proof.
  intros M. destruct e as [key value]. unfold addEntry.
  destruct value;
    repeat match goal with
           | |- context [if ?b then _ else _] => destruct b
           end;
    try (intros X; now injection X as <-); now apply addCandidate_grows.
Qed.

Lemma addSource_grows (d : Dict.t Currency) (source : Value) (d' : Dict.t Currency)
    (k : string) :
  Dict.mem k d = true -> addSource h d source = Some d' -> Dict.mem k d' = true.
Proof.
  intros M. unfold addSource.
  destruct (negb (truthy source) || negb (typeofObject source));
    [intros X; now injection X as <-|].
  destruct (isArray source).
  - destruct source; try (intros X; now injection X as <-).
    apply (foldM_invariant (fun t => Dict.mem k t = true));
      [intros a b a'; apply addItem_grows|exact M].
  - apply (foldM_invariant (fun t => Dict.mem k t = true));
      [intros a b a'; apply addEntry_grows|exact M].
Qed.

Lemma addCandidate_reaches (c n s : Value) (d d' : Dict.t Currency) (k : string) :
  normalizeCode h c = Some k -> codePattern k = true ->
  addCandidate h c n s d = Some d' -> Dict.mem k d' = true.
Proof.
  unfold addCandidate. intros -> ->. simpl.
  destruct (stringOf h (n ?? VStr k)); [|discriminate].
  intros X. injection X as <-. rewrite set_mem, String.eqb_refl. reflexivity.
Qed.

(** The codes of the list are the keys of the table. *)
Lemma table_code (d : Dict.t Currency) (k : string) :
  TableOK d ->
  In k (map code (sortCurrencies h (Dict.values d))) <-> Dict.mem k d = true.
Proof.
  intros [_ F].
  assert (E : map code (Dict.values d) = Dict.keys d).
  { unfold Dict.values, Dict.keys. rewrite map_map. apply map_ext_in. intros e I.
    rewrite Forall_forall in F. now apply F. }
  rewrite mem_In, <- E. split; apply Permutation_in; apply Permutation_map.
  - apply sortCurrencies_perm.
  - symmetry. apply sortCurrencies_perm.
Qed.

(** The normaliser returns for a candidate, a record, an entry and a source
    that hold no property [toString]. *)
Lemma addCandidate_returns (c n s : Value) (d : Dict.t Currency) :
  hasToString c = false -> hasToString n = false ->
  addCandidate h c n s d <> None.
Proof.
  intros C N. unfold addCandidate, normalizeCode, stringOf.
  assert (Cc : stringThrows (c ?? VStr "") = false).
  { apply hasToString_stringThrows. now apply hasToString_coalesce. }
  rewrite Cc.
  destruct (negb (codePattern _)); [discriminate|].
  match goal with
  | |- context [stringThrows (n ?? VStr ?k)] =>
      assert (Cn : stringThrows (n ?? VStr k) = false)
        by (apply hasToString_stringThrows; now apply hasToString_coalesce)
  end.
  rewrite Cn. discriminate.
Qed.

Lemma addItem_returns (d : Dict.t Currency) (item : Value) :
  hasToString item = false -> addItem h d item <> None.
Proof.
  intros C. unfold addItem.
  assert (V : hasToString (item ?? VObj []) = false)
    by now apply hasToString_coalesce.
  match goal with |- context [if ?b then _ else _] => destruct b end; [|discriminate].
  apply addCandidate_returns.
  - now apply hasToString_itemCode.
  - apply hasToString_recordName; [exact V|now apply hasToString_itemCode].
Qed.

Lemma addEntry_returns (d : Dict.t Currency) (key : string) (value : Value) :
  hasToString value = false -> addEntry h d (key, value) <> None.
Proof.
  intros C. unfold addEntry.
  assert (V : hasToString (value ?? VObj []) = false)
    by now apply hasToString_coalesce.
  assert (R : (if truthy (entryCode key (value ?? VObj []))
                  && truthy (recordName (value ?? VObj [])
                               (entryCode key (value ?? VObj [])))
               then addCandidate h (entryCode key (value ?? VObj []))
                      (recordName (value ?? VObj []) (entryCode key (value ?? VObj [])))
                      (recordSymbol (value ?? VObj [])) d
               else Some d) <> None).
  { match goal with |- context [if ?b then _ else _] => destruct b end; [|discriminate].
    apply addCandidate_returns.
    - now apply hasToString_entryCode.
    - apply hasToString_recordName; [exact V|now apply hasToString_entryCode]. }
  destruct value; try exact R.
  destruct (codePattern key); [|discriminate].
  now apply addCandidate_returns.
Qed.

Lemma addSource_returns (d : Dict.t Currency) (source : Value) :
  hasToString source = false -> addSource h d source <> None.
Proof.
  intros C. unfold addSource.
  destruct source as [| |b|x|s|items|props];
    cbn [truthy typeofObject negb orb isArray entries]; try discriminate.
  - now rewrite orb_true_r.
  - now rewrite orb_true_r.
  - now rewrite orb_true_r.
  - rewrite hasToString_array in C.
    destruct (foldM_returns (addItem h) items d) as [d' E]; [|now rewrite E].
    intros a item I. apply addItem_returns.
    destruct (hasToString item) eqn:T; [|reflexivity].
    assert (X : existsb hasToString items = true)
      by (apply existsb_exists; now exists item).
    congruence.
  - rewrite hasToString_object in C.
    destruct (foldM_returns (addEntry h) props d) as [d' E]; [|now rewrite E].
    intros a [key value] I. apply addEntry_returns.
    destruct (hasToString value) eqn:T; [|reflexivity].
    assert (X : existsb (fun e => String.eqb (fst e) "toString" || hasToString (snd e))
                  props = true).
    { apply existsb_exists. exists (key, value). split; [exact I|].
      simpl. rewrite T. apply orb_true_r. }
    congruence.
Qed.

(** A payload without a property [toString] is normalised. *)
Lemma parseCurrenciesJSON_returns (raw : Value) (type : CurrencyType) :
  hasToString raw = false -> exists list, parseCurrenciesJSON h raw type = Some list.
Proof.
  intros C. unfold parseCurrenciesJSON.
  destruct (foldM_returns (addSource h) (currencySources raw type) Dict.empty)
    as [d E].
  - intros a source I. apply addSource_returns.
    now apply (hasToString_sources raw type).
  - rewrite E. now eexists.
Qed.

(** The text that [toStr] gives for a value that [String] cannot convert
    is longer than a code, so that it fails the code pattern: [looksValid]
    answers for such a code what the handler of line 254 does. *)
Lemma length_append (a b : string) :
  String.length (a ++ b) = String.length a + String.length b.
Proof. induction a as [|c a IH]; simpl; [reflexivity|now rewrite IH]. Qed.

Lemma join_length (sep x : string) (l : list string) :
  In x l -> String.length x <= String.length (Str.join sep l).
Proof.
  induction l as [|y r IH]; [intros []|].
  intros I. cbn [Str.join]. destruct r as [|z r'].
  - destruct I as [->|[]]. lia.
  - rewrite !length_append. destruct I as [->|I]; [lia|].
    specialize (IH I). lia.
Qed.

Lemma stringThrows_length (v : Value) :
  stringThrows v = true -> 15 <= String.length (toStr h v).
Proof.
  induction v as [| | | | |items IH|props IH] using Value_induction;
    try discriminate.
  - rewrite stringThrows_array. intros T.
    apply existsb_exists in T. destruct T as [e [I Te]].
    rewrite Forall_forall in IH. specialize (IH e I Te).
    cbn [toStr]. eapply Nat.le_trans; [exact IH|].
    apply join_length. apply in_map_iff. exists e. split; [|exact I].
    destruct e; try discriminate Te; reflexivity.
  - intros _. simpl. lia.
Qed.

Lemma stringThrows_pattern (v : Value) :
  stringThrows v = true -> codePattern (toStr h v) = false.
Proof.
  intros T. apply stringThrows_length in T. unfold codePattern.
  replace (String.length (toStr h v) <=? 5) with false
    by (symmetry; apply Nat.leb_gt; lia).
  now rewrite andb_false_r.
Qed.

(** A payload that is no object, or an empty one, yields no currency. *)
Theorem parseCurrenciesJSON_nothing (type : CurrencyType) :
  parseCurrenciesJSON h VUndefined type = Some []
  /\ parseCurrenciesJSON h VNull type = Some []
  /\ (forall b, parseCurrenciesJSON h (VBool b) type = Some [])
  /\ (forall x, parseCurrenciesJSON h (VNum x) type = Some [])
  /\ (forall s, parseCurrenciesJSON h (VStr s) type = Some [])
  /\ parseCurrenciesJSON h (VArr []) type = Some []
  /\ parseCurrenciesJSON h (VObj []) type = Some [].
Proof.
  assert (N : forall x d, addSource h d (VNum x) = Some d).
  { intros x d. unfold addSource. cbn [typeofObject negb]. now rewrite orb_true_r. }
  destruct type; repeat split; try reflexivity;
    try (intros [|]; reflexivity);
    intros x; unfold parseCurrenciesJSON; cbn [currencySources foldM];
    change (optProp (VNum x) ?k) with VUndefined; cbn [optProp isNullish];
    cbn [addSource truthy negb orb]; rewrite N; reflexivity.
Qed.

(** In an array payload the last record wins.  Take a record at the end of
    the array whose code and name are truthy and are converted to text, the
    code to a text that matches the pattern once trimmed and upper-cased.  In
    the list that the normaliser returns it is listed with that code, its name
    as text and its symbol, and no other entry has its code, whatever records
    came before.  The normaliser does return a list when no earlier record
    holds a property [toString]. *)
Theorem last_record_wins (items : list Value) (item : Value) (type : CurrencyType)
    (k t : string) :
  let v := item ?? VObj [] in
  let record := {| code := k; name := t; symbol := Some (recordSymbol v) |} in
  truthy (itemCode v) = true ->
  truthy (recordName v (itemCode v)) = true ->
  normalizeCode h (itemCode v) = Some k ->
  codePattern k = true ->
  stringOf h (recordName v (itemCode v)) = Some t ->
  (forall list,
      parseCurrenciesJSON h (VArr (items ++ [item])) type = Some list ->
      In record list /\ (forall c, In c list -> code c = k -> c = record))
  /\ (Forall (fun earlier => hasToString earlier = false) items ->
      exists list, parseCurrenciesJSON h (VArr (items ++ [item])) type = Some list).
Proof.
  intros v record Tc Tn N P St.
  assert (Last : forall d, addItem h d item = Some (Dict.set k record d)).
  { intros d. unfold addItem. fold v. rewrite Tc, Tn. simpl.
    apply addCandidate_stored; try assumption. now apply truthy_present. }
  split.
  - intros list L.
    assert (I : In record list).
    { rewrite parseCurrenciesJSON_array, foldM_app in L.
      destruct (foldM (addItem h) items Dict.empty) as [d1|]; [|discriminate].
      simpl in L. rewrite Last in L. injection L as <-.
      apply (Permutation_in _ (Permutation_sym (sortCurrencies_perm h _))).
      apply (table_values _ k). apply get_set_same. }
    split; [exact I|]. intros c Ic E.
    destruct (parseCurrenciesJSON_codes h _ type list L) as [D _].
    now apply (NoDup_map_injective code _ c record D Ic I).
  - intros C. rewrite parseCurrenciesJSON_array, foldM_app.
    destruct (foldM_returns (addItem h) items Dict.empty) as [d1 E].
    + intros a earlier I. apply addItem_returns.
      rewrite Forall_forall in C. now apply C.
    + rewrite E. simpl. rewrite Last. now eexists.
Qed.

(** Every probed location contributes.  Whichever of the seven locations
    holds it, an array element whose code and name are truthy and whose code
    is a text that matches the pattern once trimmed and upper-cased, a string
    under a key that matches the pattern, and an object-map value accepted the
    same way, each has its code in the list that the normaliser returns; and
    it returns a list for a payload that holds no property [toString]. *)
Theorem every_location_contributes (raw : Value) (type : CurrencyType)
    (source : Value) :
  source = optProp (optProp raw "response") "currencies"
  \/ source = optProp (optProp raw "response") (typeName type)
  \/ source = optProp raw "currencies"
  \/ source = optProp (optProp raw "data") "currencies"
  \/ source = optProp (optProp raw "data") (typeName type)
  \/ source = optProp raw "response"
  \/ source = raw ->
  (forall list,
      parseCurrenciesJSON h raw type = Some list ->
      (forall items item k,
          source = VArr items -> In item items ->
          truthy (itemCode (item ?? VObj [])) = true ->
          truthy (recordName (item ?? VObj []) (itemCode (item ?? VObj []))) = true ->
          normalizeCode h (itemCode (item ?? VObj [])) = Some k ->
          codePattern k = true ->
          In k (map code list))
      /\ (forall props key text,
          source = VObj props -> In (key, VStr text) props ->
          codePattern key = true ->
          In key (map code list))
      /\ (forall props key value k,
          source = VObj props -> In (key, value) props ->
          typeofString value = false ->
          truthy (entryCode key (value ?? VObj [])) = true ->
          truthy (recordName (value ?? VObj []) (entryCode key (value ?? VObj []))) = true ->
          normalizeCode h (entryCode key (value ?? VObj [])) = Some k ->
          codePattern k = true ->
          In k (map code list)))
  /\ (hasToString raw = false ->
      exists list, parseCurrenciesJSON h raw type = Some list).
Proof.
  intros S. split; [|apply parseCurrenciesJSON_returns].
  intros list L.
  assert (S' : In source (currencySources raw type)).
  { unfold currencySources. simpl. intuition auto. }
  destruct (parseCurrenciesJSON_table h raw type list L) as [d [T ->]].
  assert (Reach : forall k,
            (forall a a', addSource h a source = Some a' -> Dict.mem k a' = true) ->
            In k (map code (sortCurrencies h (Dict.values d)))).
  { intros k R. apply table_code; [now apply (table_ok h raw type)|].
    apply (foldM_reaches (fun t => Dict.mem k t = true) (addSource h)
             (currencySources raw type) source Dict.empty d);
      [intros a b a'; apply addSource_grows|exact R|exact S'|exact T]. }
  split; [|split].
  - intros items item k -> I Tc Tn N P. apply Reach. intros a a'.
    unfold addSource. simpl.
    apply (foldM_reaches (fun t => Dict.mem k t = true) (addItem h) items item);
      [intros b c b'; apply addItem_grows| |exact I].
    intros b b'. unfold addItem. rewrite Tc, Tn. simpl.
    now apply addCandidate_reaches.
  - intros props key text -> I P. apply Reach. intros a a'.
    unfold addSource. simpl.
    apply (foldM_reaches (fun t => Dict.mem key t = true) (addEntry h) props
             (key, VStr text));
      [intros b c b'; apply addEntry_grows| |exact I].
    intros b b'. unfold addEntry. rewrite P.
    apply addCandidate_reaches; [|exact P].
    unfold normalizeCode, stringOf. simpl. now rewrite codePattern_normal.
  - intros props key value k -> I Sv Tc Tn N P. apply Reach. intros a a'.
    unfold addSource. simpl.
    apply (foldM_reaches (fun t => Dict.mem k t = true) (addEntry h) props
             (key, value));
      [intros b c b'; apply addEntry_grows| |exact I].
    intros b b'. unfold addEntry.
    destruct value; try discriminate Sv;
      rewrite Tc, Tn; simpl; now apply addCandidate_reaches.
Qed.

End MoreNormalizerFacts.

(** The later of two records of one code is the one listed. *)
Lemma last_record_wins_witness :
  parseCurrenciesJSON Fixture.utcHost
    (VArr ([Fixture.dollarOld] ++ [Fixture.dollarNew])) Fiat
  = Some [{| code := "USD"; name := "US Dollar"; symbol := Some (VStr "$") |}].
Proof.
  destruct (last_record_wins Fixture.utcHost [Fixture.dollarOld] Fixture.dollarNew Fiat
              "USD" "US Dollar" eq_refl eq_refl eq_refl eq_refl eq_refl) as [_ R].
  destruct R as [list L]; [repeat constructor|].
  rewrite L. vm_compute in L. symmetry. exact L.
Defined.

(** The string under the top-level key EUR is found although an array
    under [response] was found first. *)
Lemma every_location_contributes_witness :
  exists list,
    parseCurrenciesJSON Fixture.utcHost Fixture.mixedPayload Fiat = Some list
    /\ In "EUR" (map code list).
Proof.
  destruct (every_location_contributes Fixture.utcHost Fixture.mixedPayload Fiat
              Fixture.mixedPayload) as [S R].
  - repeat right. reflexivity.
  - destruct (R eq_refl) as [list L]. exists list. split; [exact L|].
    destruct (S list L) as [_ [E _]].
    apply (E _ "EUR" "Euro" eq_refl); [simpl; tauto|reflexivity].
Defined.

(** ** More on the rate-map normaliser *)

Lemma fold_addRate_untouched (ents : list (string * Value)) (out : Dict.t float)
    (k : string) :
  (forall k0 x, In (k0, VNum x) ents -> isFinite x = true -> Str.toUpperCase k0 <> k) ->
  Dict.get k (fold_left addRate ents out) = Dict.get k out.
Proof.
  revert out. induction ents as [|[k1 v] r IH]; simpl; intros out N; [reflexivity|].
  rewrite IH by (intros k0 x I; apply N; now right).
  destruct v; try reflexivity. destruct (isFinite x) eqn:F; [|reflexivity].
  apply get_set_other. intros E. apply (N k1 x); [now left|exact F|now symmetry].
Qed.

(** The rate of a code is the last finite number that the rates object
    holds under a key equal to the code once upper-cased: the case of the keys
    of the payload does not matter, and of two keys that differ in case only
    the later wins.  A code with no such entry has no rate. *)
Theorem parseRates_lookup (json : Value) :
  truthy (ratesObject json) && typeofObject (ratesObject json) = true ->
  (forall before k0 x after,
     entries (ratesObject json) = before ++ (k0, VNum x) :: after ->
     isFinite x = true ->
     (forall k1 y, In (k1, VNum y) after -> isFinite y = true ->
                   Str.toUpperCase k1 <> Str.toUpperCase k0) ->
     Dict.get (Str.toUpperCase k0) (parseRates json) = Some x)
  /\ (forall k,
      (forall k0 x, In (k0, VNum x) (entries (ratesObject json)) -> isFinite x = true ->
                    Str.toUpperCase k0 <> k) ->
      Dict.get k (parseRates json) = None).
Proof.
  intros B. unfold parseRates.
  apply andb_true_iff in B. destruct B as [T O]. rewrite T, O. simpl.
  split.
  - intros before k0 x after E F N. rewrite E, fold_left_app. simpl.
    rewrite F. rewrite fold_addRate_untouched by exact N. apply get_set_same.
  - intros k N. now rewrite fold_addRate_untouched.
Qed.

(** Of [eur] and [EUR] the later gives the rate of EUR. *)
Lemma parseRates_lookup_witness :
  Dict.get "EUR" (parseRates Fixture.euroTwice) = Some 0.25%float.
Proof.
  destruct (parseRates_lookup Fixture.euroTwice eq_refl) as [L _].
  apply (L [("eur", VNum 0.5)] "EUR" 0.25%float [("GBP", VNum 2)]).
  - reflexivity.
  - reflexivity.
  - intros k1 y [E|[]] _. injection E as <- _. discriminate.
Defined.

(** ** More on the currency cache *)

Lemma existsb_eqb_In (x : string) (l : list string) :
  existsb (String.eqb x) l = true <-> In x l.
Proof.
  rewrite existsb_exists. split.
  - intros [y [I E]]. apply String.eqb_eq in E. now subst.
  - intros I. exists x. split; [exact I|apply String.eqb_refl].
Qed.

Lemma uniqFrom_In (seen l : list string) (x : string) :
  In x (uniqFrom seen l) <-> In x l /\ ~ In x seen.
Proof.
  revert seen. induction l as [|y r IH]; simpl; intros seen; [tauto|].
  destruct (existsb (String.eqb y) seen) eqn:E.
  - apply existsb_eqb_In in E. rewrite IH. split; [tauto|].
    intros [[->|I] N]; tauto.
  - assert (Ny : ~ In y seen).
    { intros I. apply existsb_eqb_In in I. congruence. }
    simpl. rewrite IH. simpl. split.
    + intros [->|[I N]]; [tauto|]. split; [tauto|]. intros S. apply N. now right.
    + intros [[->|I] N]; [now left|].
      destruct (String.eqb_spec y x) as [->|D]; [now left|].
      right. split; [exact I|]. intros [S|S]; tauto.
Qed.

Lemma uniqFrom_NoDup (seen l : list string) : NoDup (uniqFrom seen l).
Proof.
  revert seen. induction l as [|y r IH]; simpl; intros seen; [constructor|].
  destruct (existsb (String.eqb y) seen); [apply IH|].
  constructor; [|apply IH]. rewrite uniqFrom_In. simpl. tauto.
Qed.

Lemma currenciesOfRates_codes (rates : Dict.t float) :
  map code (currenciesOfRates rates)
  = filter codePattern (uniq ("USD" :: Dict.keys rates)).
Proof.
  unfold currenciesOfRates. rewrite map_map. cbn [code]. apply map_id.
Qed.

Lemma currenciesOfRates_NoDup (rates : Dict.t float) :
  NoDup (map code (currenciesOfRates rates)).
Proof.
  rewrite currenciesOfRates_codes. apply NoDup_filter, uniqFrom_NoDup.
Qed.

Lemma currenciesOfRates_In (rates : Dict.t float) (c : string) :
  In c (map code (currenciesOfRates rates)) <->
  codePattern c = true /\ (c = "USD" \/ Dict.mem c rates = true).
Proof.
  rewrite currenciesOfRates_codes, filter_In. unfold uniq.
  rewrite uniqFrom_In, mem_In. simpl. intuition congruence.
Qed.

Section MoreCacheFacts.

Context (h : Host).

Lemma final_codes (l : list Currency) :
  Permutation (map code (sortCurrencies h (currencyNames h l))) (map code l).
Proof.
  rewrite <- (currencyNames_codes h l).
  apply Permutation_map, sortCurrencies_perm.
Qed.

(** The list chosen by the fetches, before naming and sorting. *)
Lemma chosen_NoDup (w : World) (type : CurrencyType) (latest : option Value) :
  NoDup (map code (if List.length (primaryList h type w) <? 5
                   then match latest with
                        | Some json => currenciesOfRates (parseRates json)
                        | None => primaryList h type w
                        end
                   else primaryList h type w)).
Proof.
  destruct (primaryList_codes h type w) as [P _].
  destruct (_ <? 5); [|exact P].
  destruct latest; [apply currenciesOfRates_NoDup|exact P].
Qed.

Lemma chosen_valid (w : World) (type : CurrencyType) (latest : option Value) :
  validCodes (if List.length (primaryList h type w) <? 5
              then match latest with
                   | Some json => currenciesOfRates (parseRates json)
                   | None => primaryList h type w
                   end
              else primaryList h type w).
Proof.
  destruct (primaryList_codes h type w) as [_ P].
  destruct (_ <? 5); [|exact P].
  destruct latest; [apply currenciesOfRates_valid|exact P].
Qed.

(** What a fetch returns is well formed.  After a cache miss, with a
    storage that takes the write, the list returned holds each code once,
    every code matches the pattern, the list is sorted by name and then code
    when [localeCompare] is consistent, and it is the list stored under the key
    of the category. *)
Theorem getCurrencies_fresh_list (type : CurrencyType) (w : World) :
  fst (readCache h type w) = Returned None ->
  writable w type ->
  exists final now,
    fst (getCurrencies h type w) = Returned (map currencyValue final)
    /\ NoDup (map code final)
    /\ validCodes final
    /\ (Consistent (localeCompare h) ->
        StronglySorted (fun a b => compareCurrency h a b <> Gt) final)
    /\ lookup (cacheKey type) (storage (snd (getCurrencies h type w)))
       = Some (cacheEntry now final).
Proof.
  intros M W. rewrite getCurrencies_run.
  destruct (unchanged_world h type w) as [_ [_ [_ [Fw _]]]].
  destruct (readCache h type w) as [o w0] eqn:R. simpl in M, Fw. subst o.
  pose proof (fetchCurrencies_run h type w0) as F. cbv zeta in F.
  rewrite Fw, W in F. rewrite F.
  eexists. exists (clock w0 (ticks w0)). cbn [fst snd]. split; [reflexivity|].
  split; [|split; [|split]].
  - apply (Permutation_NoDup (Permutation_sym (final_codes _))).
    apply (chosen_NoDup w0 type (network w0 _ (latestRequest h))).
  - apply final_valid.
    apply (chosen_valid w0 type (network w0 _ (latestRequest h))).
  - intros C. apply sortBy_consistent. now apply compareCurrency_consistent.
  - cbn [storage store lookup]. now rewrite String.eqb_refl.
Qed.

(** The fallback list is the rates' codes and USD.  After a cache miss
    with fewer than five currencies from [currencies] (its failure included),
    when [latest] answers and the storage takes the write, the codes returned
    are exactly USD and the keys of its rate map, as far as they match the code
    pattern: USD is always there. *)
Theorem getCurrencies_fallback_codes (type : CurrencyType) (w : World) (latest : Value) :
  fst (readCache h type w) = Returned None ->
  List.length (primaryList h type w) < 5 ->
  network w (requests w ++ [currenciesRequest h type]) (latestRequest h) = Some latest ->
  writable w type ->
  exists final,
    fst (getCurrencies h type w) = Returned (map currencyValue final)
    /\ (forall c, In c (map code final) <->
                  codePattern c = true
                  /\ (c = "USD" \/ Dict.mem c (parseRates latest) = true))
    /\ In "USD" (map code final).
Proof.
  intros M S L W. rewrite getCurrencies_run.
  destruct (unchanged_world h type w) as [Nw [Rw [_ [Fw _]]]].
  destruct (readCache h type w) as [o w0] eqn:R. simpl in M, Nw, Rw, Fw. subst o.
  assert (P : primaryList h type w0 = primaryList h type w).
  { unfold primaryList. now rewrite Nw, Rw. }
  rewrite fetchCurrencies_run. cbv zeta. cbn [requests logRequest].
  rewrite P, Nw, Rw, Fw, W. apply Nat.ltb_lt in S. rewrite S, L. cbn [fst].
  eexists. split; [reflexivity|].
  assert (C : forall c,
            In c (map code (sortCurrencies h
                              (currencyNames h (currenciesOfRates (parseRates latest)))))
            <-> codePattern c = true
                /\ (c = "USD" \/ Dict.mem c (parseRates latest) = true)).
  { intros c. rewrite <- currenciesOfRates_In.
    split; apply Permutation_in; [|symmetry]; apply final_codes. }
  split; [exact C|]. apply C. split; [reflexivity|now left].
Qed.

(** An empty list is stored but never served.  Once [getCurrencies] has
    returned the empty list, a call that finds the storage as that call left
    it does not use the entry, however fresh: when it reads the storage, it
    fetches again. *)
Theorem getCurrencies_empty_not_cached (type : CurrencyType) (w w1 w2 : World) :
  getCurrencies h type w = (Returned [], w1) ->
  storage w2 = storage w1 ->
  readable w2 type ->
  (forall l, ~ cacheUsable h type w2 l)
  /\ exists more,
       requests (snd (getCurrencies h type w2))
       = requests w2 ++ currenciesRequest h type :: more.
Proof.
  intros G S Rd.
  assert (U : forall l, ~ cacheUsable h type w2 l).
  { intros l [parsed [Lk [_ [_ [I [N _]]]]]].
    unfold getItem in Lk. unfold readable in Rd. rewrite Rd in Lk.
    cbn [fst] in Lk. injection Lk as Lk.
    rewrite getCurrencies_run in G.
    destruct (refused w (GetItem (cacheKey type))) eqn:Gw;
      [rewrite (readCache_refused h type w Gw) in G; discriminate|].
    destruct (readCache_outcome h type w Gw) as [hit E].
    destruct (readCache h type w) as [o w0] eqn:R. simpl in E. subst o.
    destruct hit as [items|].
    - injection G as -> ->. apply (readCache_hit h type w) in R.
      destruct R as [[p [_ [_ [_ [_ [Ne _]]]]]] _]. now apply Ne.
    - destruct (fetchCurrencies_stores h type w0) as [final [w3 [F _]]].
      rewrite F in G. destruct (refused w0 _); [discriminate|].
      injection G as Ef Ew.
      apply map_eq_nil in Ef. subst final.
      rewrite S, <- Ew in Lk. cbn [storage store lookup] in Lk.
      rewrite String.eqb_refl in Lk. injection Lk as <-.
      cbn in I. injection I as <-. now apply N. }
  split; [exact U|].
  rewrite getCurrencies_run.
  destruct (readCache_outcome h type w2 Rd) as [hit E].
  destruct (unchanged_world h type w2) as [_ [Rw _]].
  destruct (readCache h type w2) as [o w0] eqn:R. simpl in E, Rw. subst o.
  destruct hit as [items|].
  - apply (readCache_hit h type w2) in R. destruct R as [C _]. now apply U in C.
  - destruct (fetchCurrencies_stores h type w0) as [final [w3 [F [_ [_ [more Q]]]]]].
    rewrite F. exists more.
    destruct (refused w0 _); cbn [snd requests store tick]; now rewrite Q, Rw.
Qed.

(** The two categories are cached apart: a call for one category leaves
    the stored entry of the other as it was. *)
Theorem getCurrencies_other_category (type other : CurrencyType) (w : World) :
  other <> type ->
  lookup (cacheKey other) (storage (snd (getCurrencies h type w)))
  = lookup (cacheKey other) (storage w).
Proof.
  intros D. rewrite getCurrencies_run.
  destruct (refused w (GetItem (cacheKey type))) eqn:G;
    [now rewrite (readCache_refused h type w G)|].
  destruct (readCache_outcome h type w G) as [hit E].
  destruct (unchanged_world h type w) as [_ [_ [Sw _]]].
  destruct (readCache h type w) as [o w0] eqn:R. simpl in E, Sw. subst o.
  destruct hit as [items|]; cbn [snd]; [now rewrite Sw|].
  destruct (fetchCurrencies_stores h type w0) as [final [w3 [F [_ [S3 _]]]]].
  rewrite F. destruct (refused w0 _); cbn [snd storage store tick lookup];
    rewrite S3, Sw; [reflexivity|].
  replace (String.eqb (cacheKey type) (cacheKey other)) with false; [reflexivity|].
  destruct type, other; try reflexivity; congruence.
Qed.

Lemma foldM_throws {A B : Type} (f : A -> B -> option A) (l : list B) (x : B) (a : A) :
  (forall a, f a x = None) -> In x l -> foldM f l a = None.
Proof.
  intros T. revert a. induction l as [|b r IH]; simpl; intros a I; [tauto|].
  destruct I as [->|I]; [now rewrite T|].
  destruct (f a b); [now apply IH|reflexivity].
Qed.

(** The error of the normaliser.  It returns a list for every payload
    that holds no property [toString]; it throws for an array that holds a
    record with a truthy name whose code cannot be converted to text; and
    [getCurrencies] swallows the error as it does a failed request: the list
    stays empty, the [latest] request follows, and with [latest] down and a
    storage that takes the write the empty list is returned. *)
Theorem parseCurrenciesJSON_throws (raw : Value) (type : CurrencyType) :
  (hasToString raw = false -> exists list, parseCurrenciesJSON h raw type = Some list)
  /\ (forall items item,
        raw = VArr items -> In item items ->
        truthy (recordName (item ?? VObj []) (itemCode (item ?? VObj []))) = true ->
        stringThrows (itemCode (item ?? VObj [])) = true ->
        parseCurrenciesJSON h raw type = None)
  /\ (forall w,
        parseCurrenciesJSON h raw type = None ->
        fst (readCache h type w) = Returned None ->
        network w (requests w) (currenciesRequest h type) = Some raw ->
        requests (snd (getCurrencies h type w))
        = requests w ++ [currenciesRequest h type; latestRequest h]
        /\ (writable w type ->
            network w (requests w ++ [currenciesRequest h type]) (latestRequest h) = None ->
            fst (getCurrencies h type w) = Returned [])).
Proof.
  split; [apply parseCurrenciesJSON_returns|]. split.
  - intros items item -> I Tn T. rewrite parseCurrenciesJSON_array.
    rewrite (foldM_throws (addItem h) items item); [reflexivity| |exact I].
    intros a. unfold addItem.
    assert (Tc : truthy (itemCode (item ?? VObj [])) = true)
      by (destruct (itemCode (item ?? VObj [])); try discriminate T; reflexivity).
    rewrite Tc, Tn. simpl. now apply addCandidate_throws.
  - intros w P M N. rewrite getCurrencies_run.
    destruct (unchanged_world h type w) as [Nw [Rw [_ [Fw _]]]].
    destruct (readCache h type w) as [o w0] eqn:R. simpl in M, Nw, Rw, Fw. subst o.
    rewrite fetchCurrencies_run. cbv zeta. unfold primaryList.
    cbn [requests logRequest]. rewrite Nw, Rw, N, P, Fw.
    cbn [List.length Nat.ltb Nat.leb]. split.
    + destruct (refused w _); cbn [snd requests store tick logRequest];
        now rewrite Rw, <- app_assoc.
    + intros W L. rewrite W, L, currencyNames_nil. reflexivity.
Qed.

End MoreCacheFacts.

(** A first call with the network down, then a call for the other category. *)
Lemma getCurrencies_fresh_list_witness :
  exists final now,
    fst (getCurrencies Fixture.utcHost Fiat
           (Fixture.world (Fixture.only "currencies" Fixture.twoCurrencies) [] 7))
    = Returned (map currencyValue final)
    /\ NoDup (map code final)
    /\ validCodes final
    /\ (Consistent (localeCompare Fixture.utcHost) ->
        StronglySorted (fun a b => compareCurrency Fixture.utcHost a b <> Gt) final)
    /\ lookup (cacheKey Fiat)
         (storage (snd (getCurrencies Fixture.utcHost Fiat
            (Fixture.world (Fixture.only "currencies" Fixture.twoCurrencies) [] 7))))
       = Some (cacheEntry now final).
Proof.
  exact (getCurrencies_fresh_list Fixture.utcHost Fiat
           (Fixture.world (Fixture.only "currencies" Fixture.twoCurrencies) [] 7)
           eq_refl (fun _ => eq_refl)).
Defined.

Lemma getCurrencies_fallback_codes_witness :
  exists final,
    fst (getCurrencies Fixture.utcHost Fiat
           (Fixture.world (Fixture.only "latest" Fixture.latestEurGbp) [] 7))
    = Returned (map currencyValue final)
    /\ (forall c, In c (map code final) <->
                  codePattern c = true
                  /\ (c = "USD" \/ Dict.mem c (parseRates Fixture.latestEurGbp) = true))
    /\ In "USD" (map code final).
Proof.
  apply (getCurrencies_fallback_codes Fixture.utcHost Fiat
           (Fixture.world (Fixture.only "latest" Fixture.latestEurGbp) [] 7)
           Fixture.latestEurGbp eq_refl).
  - vm_compute. lia.
  - reflexivity.
  - intros entry. reflexivity.
Defined.

Lemma getCurrencies_empty_not_cached_witness :
  (forall l, ~ cacheUsable Fixture.utcHost Fiat
                 (snd (getCurrencies Fixture.utcHost Fiat
                         (Fixture.world Fixture.offline [] 7))) l)
  /\ exists more,
       requests (snd (getCurrencies Fixture.utcHost Fiat
                        (snd (getCurrencies Fixture.utcHost Fiat
                                (Fixture.world Fixture.offline [] 7)))))
       = requests (snd (getCurrencies Fixture.utcHost Fiat
                          (Fixture.world Fixture.offline [] 7)))
         ++ currenciesRequest Fixture.utcHost Fiat :: more.
Proof.
  exact (getCurrencies_empty_not_cached Fixture.utcHost Fiat
           (Fixture.world Fixture.offline [] 7)
           (snd (getCurrencies Fixture.utcHost Fiat (Fixture.world Fixture.offline [] 7)))
           (snd (getCurrencies Fixture.utcHost Fiat (Fixture.world Fixture.offline [] 7)))
           eq_refl eq_refl eq_refl).
Defined.

(** A record whose code holds a property [toString]: the normaliser throws,
    and [getCurrencies] asks [latest] and, with it down, returns no currency. *)
Lemma parseCurrenciesJSON_throws_witness :
  parseCurrenciesJSON Fixture.utcHost Fixture.unreadableCode Fiat = None
  /\ requests (snd (getCurrencies Fixture.utcHost Fiat
                      (Fixture.world (Fixture.only "currencies" Fixture.unreadableCode)
                         [] 7)))
     = [currenciesRequest Fixture.utcHost Fiat; latestRequest Fixture.utcHost]
  /\ fst (getCurrencies Fixture.utcHost Fiat
            (Fixture.world (Fixture.only "currencies" Fixture.unreadableCode) [] 7))
     = Returned [].
Proof.
  destruct (parseCurrenciesJSON_throws Fixture.utcHost Fixture.unreadableCode Fiat)
    as [_ [T S]].
  assert (P : parseCurrenciesJSON Fixture.utcHost Fixture.unreadableCode Fiat = None).
  { apply (T _ (VObj [("code", VObj [("toString", VNull)]); ("name", VStr "Dollar")])
             eq_refl); [simpl; tauto|reflexivity|reflexivity]. }
  split; [exact P|].
  destruct (S (Fixture.world (Fixture.only "currencies" Fixture.unreadableCode) [] 7)
              P eq_refl eq_refl) as [Q E].
  split; [exact Q|]. apply E; [intros entry; reflexivity|reflexivity].
Defined.

Lemma getCurrencies_other_category_witness :
  lookup (cacheKey Fiat)
    (storage (snd (getCurrencies Fixture.utcHost Crypto
                     (Fixture.world Fixture.offline Fixture.cachedFiat 2000))))
  = Some (cacheEntry 1000 Fixture.euroOnly).
Proof.
  rewrite (getCurrencies_other_category Fixture.utcHost Crypto Fiat).
  - reflexivity.
  - discriminate.
Defined.

(** ** More on the conversion engine *)

Section MoreConversionFacts.

Context (h : Host).

Lemma convertResult_coalesce (json : Value) :
  convertResult h json = toNumber h (coalesceAll (resultPlaces json)).
Proof. reflexivity. Qed.

(** The primary path.  When [convert] answers, its result is read from the
    first of [result], [response.value], [response.result], [data.result],
    [value] that is neither [null] nor [undefined], as [Number] reads it; if
    that number is finite it is returned with the payload as metadata and the
    per-unit rate [result / amount] for an amount other than 0, and no other
    request is made. *)
Theorem convertOnce_primary (params : ConvertParams) (w : World) (json : Value) :
  let from' := normalizeSide (from params) in
  let to' := normalizeSide (to params) in
  let amount' := normalizeAmount (amount params) in
  let primary := request h "convert" (convertRequestParams from' to' amount') in
  network w (requests w) primary = Some json ->
  (forall i x,
     nth_error (resultPlaces json) i = Some x ->
     isNullish x = false ->
     (forall j y, j < i -> nth_error (resultPlaces json) j = Some y ->
                  isNullish y = true) ->
     convertResult h json = toNumber h x)
  /\ (isFinite (convertResult h json) = true ->
      convertOnce h params w
      = (Returned {| result := convertResult h json;
                     rate := if truthyNum amount'
                             then Some (convertResult h json / amount')%float
                             else None;
                     meta := json |},
         logRequest primary w)
      /\ requests (snd (convertOnce h params w)) = requests w ++ [primary]).
Proof.
  cbv zeta. intros P. split.
  - intros i x Hx Hp Hb. rewrite convertResult_coalesce.
    now rewrite (coalesceAll_first _ i x Hx Hp Hb).
  - intros F. rewrite convertOnce_run. cbv zeta. rewrite P, F. now split.
Qed.

(** Whatever path answered, an amount other than 0 comes back with a rate. *)
Lemma convertOnce_rate_present (params : ConvertParams) (w w' : World)
    (res : ConvertResponse) :
  truthyNum (amount params) = true ->
  convertOnce h params w = (Returned res, w') ->
  exists r, rate res = Some r.
Proof.
  intros T. rewrite convertOnce_run. cbv zeta.
  unfold normalizeAmount. rewrite !T.
  assert (V : forall w0, convertViaUSD h (normalizeSide (from params))
                           (normalizeSide (to params)) (amount params) w0
                         = (Returned res, w') -> exists r, rate res = Some r).
  { intros w0. rewrite convertViaUSD_run. cbv zeta.
    destruct (network w0 _ _) as [latest|]; [|discriminate].
    destruct (rateUSD _ (parseRates latest)) as [f|]; [|discriminate].
    destruct (rateUSD _ (parseRates latest)) as [t|]; [|discriminate].
    intros E. injection E as <- _. eexists. reflexivity. }
  destruct (network w (requests w) _) as [json|]; [|apply V].
  destruct (isFinite (convertResult h json)); [|apply V].
  intros E. injection E as <- _. eexists. reflexivity.
Qed.

(** The conversion effect of the application.  With an amount that is 0,
    [NaN] or negative, or with a code missing, it clears the result and makes
    no request.  Otherwise it calls [convertOnce] once and never throws: a
    result is shown with the rate [convertOnce] returned, which is always
    there, so that the rate [result / amount] computed in its place is never
    used; an error is kept and the result cleared. *)
Theorem convertEffect_shows (debouncedAmount : float) (fromCode toCode : string)
    (s : App.ConversionState) (w : World) :
  let params := {| from := fromCode; to := toCode; amount := debouncedAmount |} in
  (App.nothingToConvert debouncedAmount fromCode toCode = true ->
   App.convertEffect h debouncedAmount fromCode toCode s w
   = (Returned {| App.converted := None; App.displayRate := None;
                  App.loadingConv := App.loadingConv s;
                  App.errConv := App.errConv s |}, w))
  /\ (App.nothingToConvert debouncedAmount fromCode toCode = false ->
      (forall res w', convertOnce h params w = (Returned res, w') ->
         exists r, rate res = Some r
           /\ App.convertEffect h debouncedAmount fromCode toCode s w
              = (Returned {| App.converted := Some (result res);
                             App.displayRate := Some r;
                             App.loadingConv := false;
                             App.errConv := None |}, w'))
      /\ (forall e w', convertOnce h params w = (Thrown e, w') ->
          App.convertEffect h debouncedAmount fromCode toCode s w
          = (Returned {| App.converted := None; App.displayRate := None;
                         App.loadingConv := false;
                         App.errConv := Some e |}, w'))
      /\ exists s' w', App.convertEffect h debouncedAmount fromCode toCode s w
                       = (Returned s', w')).
Proof.
  cbv zeta. unfold App.convertEffect. split.
  - now intros ->.
  - intros G. rewrite G.
    assert (T : truthyNum debouncedAmount = true).
    { unfold App.nothingToConvert in G.
      destruct (truthyNum debouncedAmount); [reflexivity|discriminate]. }
    split; [|split].
    + intros res w' E.
      destruct (convertOnce_rate_present
                  {| from := fromCode; to := toCode; amount := debouncedAmount |}
                  w w' res T E) as [r R].
      exists r. split; [exact R|]. rewrite E. unfold App.rateOf. now rewrite R.
    + intros e w' E. now rewrite E.
    + assert (C := convertOnce_run h
                     {| from := fromCode; to := toCode; amount := debouncedAmount |} w).
      cbv zeta in C.
      destruct (convertOnce h _ w) as [[res|e|] w'] eqn:E; eauto.
      exfalso. rewrite convertViaUSD_run in C. cbv zeta in C.
      destruct (network w (requests w) _) as [json|].
      * destruct (isFinite (convertResult h json)); [discriminate|].
        destruct (network _ _ _); [|discriminate].
        destruct (rateUSD _ _); [|discriminate]. destruct (rateUSD _ _); discriminate.
      * destruct (network _ _ _); [|discriminate].
        destruct (rateUSD _ _); [|discriminate]. destruct (rateUSD _ _); discriminate.
Qed.

End MoreConversionFacts.

(** [result] is [null], so the value under [response] is the result. *)
Lemma convertOnce_primary_witness :
  convertOnce Fixture.utcHost Fixture.usdToEur3
    (Fixture.world (Fixture.only "convert" Fixture.convertedUnderResponse) [] 0)
  = (Returned {| result := 9; rate := Some 3%float;
                 meta := Fixture.convertedUnderResponse |},
     logRequest (request Fixture.utcHost "convert" (convertRequestParams "USD" "EUR" 3))
       (Fixture.world (Fixture.only "convert" Fixture.convertedUnderResponse) [] 0)).
Proof.
  destruct (convertOnce_primary Fixture.utcHost Fixture.usdToEur3
              (Fixture.world (Fixture.only "convert" Fixture.convertedUnderResponse) [] 0)
              Fixture.convertedUnderResponse eq_refl) as [_ R].
  destruct (R eq_refl) as [E _]. rewrite E. reflexivity.
Defined.

(** The effect on 3 USD with [convert] answering 9. *)
Lemma convertEffect_shows_witness :
  exists r,
    rate {| result := 9; rate := Some 3%float; meta := Fixture.convertedUnderResponse |}
    = Some r
    /\ App.convertEffect Fixture.utcHost 3 "USD" "EUR" Fixture.idle
         (Fixture.world (Fixture.only "convert" Fixture.convertedUnderResponse) [] 0)
       = (Returned {| App.converted := Some 9%float; App.displayRate := Some r;
                      App.loadingConv := false; App.errConv := None |},
          logRequest (request Fixture.utcHost "convert" (convertRequestParams "USD" "EUR" 3))
            (Fixture.world (Fixture.only "convert" Fixture.convertedUnderResponse) [] 0)).
Proof.
  destruct (convertEffect_shows Fixture.utcHost 3 "USD" "EUR" Fixture.idle
              (Fixture.world (Fixture.only "convert" Fixture.convertedUnderResponse) [] 0))
    as [_ G].
  destruct (G eq_refl) as [R _].
  exact (R {| result := 9; rate := Some 3%float; meta := Fixture.convertedUnderResponse |}
           _ eq_refl).
Defined.

(** ** The currency select *)

Lemma sortBy_sorted_same {A : Type} (cmp : A -> A -> comparison) (l : list A) :
  StronglySorted (fun a b => cmp a b <> Gt) l -> sortBy cmp l = l.
Proof.
  induction 1 as [|x r S IH F]; [reflexivity|].
  simpl. rewrite IH. destruct r as [|y r']; [reflexivity|].
  simpl. inversion F as [|? ? Fy _]; subst.
  apply leBy_iff in Fy. now rewrite Fy.
Qed.

(** The select shows the currencies in the order the API layer gave them.
    Under a consistent [localeCompare] its own sort rearranges the options
    into name-then-code order without adding or losing one, and it leaves a
    list that is already in that order, such as a normalised or a fetched
    one, exactly as it is. *)
Theorem CurrencySelect_keeps_order (h : Host) (options : list Currency) :
  Consistent (localeCompare h) ->
  Permutation (CurrencySelect.sorted h options) options
  /\ StronglySorted (fun a b => compareCurrency h a b <> Gt)
       (CurrencySelect.sorted h options)
  /\ CurrencySelect.sorted h (sortCurrencies h options) = sortCurrencies h options
  /\ (forall raw type list,
        parseCurrenciesJSON h raw type = Some list ->
        CurrencySelect.sorted h list = list).
Proof.
  intros C.
  assert (S : forall l, StronglySorted (fun a b => compareCurrency h a b <> Gt)
                          (sortCurrencies h l)).
  { intros l. apply sortBy_consistent. now apply compareCurrency_consistent. }
  split; [apply sortBy_perm|]. split; [apply S|].
  split; [apply (sortBy_sorted_same (compareCurrency h)), S|].
  intros raw type list P.
  destruct (parseCurrenciesJSON_table h raw type list P) as [d [_ ->]].
  apply (sortBy_sorted_same (compareCurrency h)), S.
Qed.

Lemma CurrencySelect_keeps_order_witness :
  exists list,
    parseCurrenciesJSON Fixture.utcHost Fixture.mixedPayload Fiat = Some list
    /\ map code list = ["GBP"; "EUR"; "USD"; "JPY"]
    /\ CurrencySelect.sorted Fixture.utcHost list = list.
Proof.
  destruct (CurrencySelect_keeps_order Fixture.utcHost [] string_compare_consistent)
    as [_ [_ [_ E]]].
  eexists. split; [vm_compute; reflexivity|]. split; [reflexivity|].
  apply (E Fixture.mixedPayload Fiat). vm_compute. reflexivity.
Defined.

(** ** More on the timeseries engine *)

Section MoreTimeseriesFacts.

Context (h : Host).

Lemma historicalPoint_run (from to day : string) (w : World) :
  historicalPoint h from to day w
  = (Returned
       match network w (requests w) (historicalRequest h from to day) with
       | Some json =>
           match rateUSD from (parseRates json), rateUSD to (parseRates json) with
           | Some rFrom, Some rTo =>
               Some {| TimeseriesPoint.date := day;
                       TimeseriesPoint.rate := (rTo / rFrom)%float |}
           | _, _ => None
           end
       | None => None
       end,
     logRequest (historicalRequest h from to day) w).
Proof.
  unfold historicalPoint, tryCatch, bind, get, ret. fold (historicalRequest h from to day).
  destruct (network w (requests w) (historicalRequest h from to day)) as [json|];
    [|reflexivity].
  destruct (rateUSD from (parseRates json)), (rateUSD to (parseRates json)); reflexivity.
Qed.

(** The days of the fallback: one request each, in order, never an error,
    and at most one point per day, dated by it. *)
Lemma historicalSeries_run (from to : string) (days : list string) (w : World) :
  exists points w',
    historicalSeries h from to days w = (Returned points, w')
    /\ requests w' = requests w ++ map (historicalRequest h from to) days
    /\ List.length points <= List.length days
    /\ Forall (fun p => In (TimeseriesPoint.date p) days) points.
Proof.
  revert w. induction days as [|day rest IH]; intros w.
  - exists [], w. simpl. rewrite app_nil_r. repeat split; auto.
  - cbn [historicalSeries]. unfold bind at 1. rewrite historicalPoint_run.
    destruct (IH (logRequest (historicalRequest h from to day) w))
      as [ps [w' [E [R [L F]]]]].
    unfold bind at 1. rewrite E. unfold ret.
    eexists. exists w'. split; [reflexivity|].
    assert (F' : Forall (fun p => In (TimeseriesPoint.date p) (day :: rest)) ps).
    { eapply Forall_impl; [|exact F]. intros p I. now right. }
    split; [|split].
    + rewrite R. cbn [requests logRequest map]. now rewrite <- app_assoc.
    + destruct (network w (requests w) _) as [json|]; [|simpl; lia].
      destruct (rateUSD from (parseRates json)), (rateUSD to (parseRates json));
        simpl; lia.
    + destruct (network w (requests w) _) as [json|]; [|exact F'].
      destruct (rateUSD from (parseRates json)), (rateUSD to (parseRates json));
        try exact F'.
      constructor; [now left|exact F'].
Qed.

(** The series of the batch request, empty when it fails. *)
Lemma getTimeseries_run (fuel : nat) (params : TimeseriesParams) (w : World) :
  let from' := Str.toUpperCase (Str.trim (ts_from params)) in
  let to' := Str.toUpperCase (Str.trim (ts_to params)) in
  let batch := request h "timeseries" (timeseriesParams from' to' params) in
  let series := match network w (requests w) batch with
                | Some json => batchSeries from' to' json
                | None => []
                end in
  getTimeseries h fuel params w
  = match series with
    | _ :: _ => (Returned series, logRequest batch w)
    | [] =>
        match DateTime.daysBetween h fuel (dateParse h (ts_start params))
                (dateParse h (ts_end params)) with
        | None => (OutOfFuel, logRequest batch w)
        | Some days =>
            match historicalSeries h from' to' days (logRequest batch w) with
            | (Returned results, w') => (Returned (sortBy (compareDate h) results), w')
            | (Thrown e, w') => (Thrown e, w')
            | (OutOfFuel, w') => (OutOfFuel, w')
            end
        end
    end.
Proof.
  cbv zeta. unfold getTimeseries, tryCatch, bind, get, ret.
  destruct (network w (requests w) _) as [json|].
  - destruct (batchSeries _ _ json); [|reflexivity].
    destruct (DateTime.daysBetween h fuel _ _); [|reflexivity].
    destruct (historicalSeries h _ _ l _) as [[?|?|] ?]; reflexivity.
  - destruct (DateTime.daysBetween h fuel _ _); [|reflexivity].
    destruct (historicalSeries h _ _ l _) as [[?|?|] ?]; reflexivity.
Qed.

(** [getTimeseries] never throws: a failure of the batch request leads to
    the per-day requests, and a failure of a day leaves that day out.  When
    the loop that lists the days ends, a series is returned. *)
Theorem getTimeseries_never_throws (fuel : nat) (params : TimeseriesParams) (w : World) :
  (forall e, fst (getTimeseries h fuel params w) <> Thrown e)
  /\ (DateTime.daysBetween h fuel (dateParse h (ts_start params))
        (dateParse h (ts_end params)) <> None ->
      exists series, fst (getTimeseries h fuel params w) = Returned series).
Proof.
  rewrite getTimeseries_run. cbv zeta.
  destruct (match network w (requests w) _ with Some _ => _ | None => _ end)
    as [|p series]; [|split; [discriminate|intros _; eexists; reflexivity]].
  destruct (DateTime.daysBetween h fuel _ _) as [days|].
  - destruct (historicalSeries_run (Str.toUpperCase (Str.trim (ts_from params)))
                (Str.toUpperCase (Str.trim (ts_to params))) days
                (logRequest (request h "timeseries"
                   (timeseriesParams (Str.toUpperCase (Str.trim (ts_from params)))
                      (Str.toUpperCase (Str.trim (ts_to params))) params)) w))
      as [ps [w' [E _]]].
    rewrite E. split; [discriminate|intros _; eexists; reflexivity].
  - split; [discriminate|congruence].
Qed.

(** The per-day fallback.  When the batch request fails or yields no
    point and the loop lists [days], the requests made are the batch request
    and then one [historical] request per listed day, in order; the series is
    a rearrangement of the points collected, at most one per listed day, and
    every point carries the date of a listed day. *)
Theorem getTimeseries_fallback (fuel : nat) (params : TimeseriesParams) (w : World)
    (days : list string) :
  let from' := Str.toUpperCase (Str.trim (ts_from params)) in
  let to' := Str.toUpperCase (Str.trim (ts_to params)) in
  let batch := request h "timeseries" (timeseriesParams from' to' params) in
  match network w (requests w) batch with
  | Some json => batchSeries from' to' json = []
  | None => True
  end ->
  DateTime.daysBetween h fuel (dateParse h (ts_start params)) (dateParse h (ts_end params))
  = Some days ->
  exists series,
    fst (getTimeseries h fuel params w) = Returned series
    /\ requests (snd (getTimeseries h fuel params w))
       = requests w ++ batch :: map (historicalRequest h from' to') days
    /\ List.length series <= List.length days
    /\ Forall (fun p => In (TimeseriesPoint.date p) days) series.
Proof.
  cbv zeta. intros B D. rewrite getTimeseries_run. cbv zeta.
  assert (E : match network w (requests w)
                      (request h "timeseries"
                         (timeseriesParams (Str.toUpperCase (Str.trim (ts_from params)))
                            (Str.toUpperCase (Str.trim (ts_to params))) params))
              with
              | Some json => batchSeries (Str.toUpperCase (Str.trim (ts_from params)))
                               (Str.toUpperCase (Str.trim (ts_to params))) json
              | None => []
              end = []).
  { destruct (network w (requests w) _); [exact B|reflexivity]. }
  rewrite E, D.
  destruct (historicalSeries_run (Str.toUpperCase (Str.trim (ts_from params)))
              (Str.toUpperCase (Str.trim (ts_to params))) days
              (logRequest (request h "timeseries"
                 (timeseriesParams (Str.toUpperCase (Str.trim (ts_from params)))
                    (Str.toUpperCase (Str.trim (ts_to params))) params)) w))
    as [ps [w' [R [Q [L F]]]]].
  rewrite R. cbn [fst snd]. eexists. split; [reflexivity|].
  pose proof (sortBy_perm (compareDate h) ps) as P.
  split; [|split].
  - rewrite Q. cbn [requests logRequest]. now rewrite <- app_assoc.
  - now rewrite (Permutation_length P).
  - apply (Permutation_Forall (Permutation_sym P)). exact F.
Qed.

(** A range with no day in it.  When the batch request fails or yields no
    point and a bound is not a date, or the start lies after the end, the
    series is empty and no [historical] request is made. *)
Theorem getTimeseries_empty_range (fuel : nat) (params : TimeseriesParams) (w : World) :
  let from' := Str.toUpperCase (Str.trim (ts_from params)) in
  let to' := Str.toUpperCase (Str.trim (ts_to params)) in
  let batch := request h "timeseries" (timeseriesParams from' to' params) in
  match network w (requests w) batch with
  | Some json => batchSeries from' to' json = []
  | None => True
  end ->
  match dateParse h (ts_start params), dateParse h (ts_end params) with
  | Some s, Some e => (e < s)%Z
  | _, _ => True
  end ->
  0 < fuel ->
  getTimeseries h fuel params w = (Returned [], logRequest batch w).
Proof.
  cbv zeta. intros B R Fu. rewrite getTimeseries_run. cbv zeta.
  assert (E : match network w (requests w)
                      (request h "timeseries"
                         (timeseriesParams (Str.toUpperCase (Str.trim (ts_from params)))
                            (Str.toUpperCase (Str.trim (ts_to params))) params))
              with
              | Some json => batchSeries (Str.toUpperCase (Str.trim (ts_from params)))
                               (Str.toUpperCase (Str.trim (ts_to params))) json
              | None => []
              end = []).
  { destruct (network w (requests w) _); [exact B|reflexivity]. }
  rewrite E.
  assert (D : DateTime.daysBetween h fuel (dateParse h (ts_start params))
                (dateParse h (ts_end params)) = Some []).
  { destruct fuel as [|n]; [lia|]. simpl.
    destruct (dateParse h (ts_start params)) as [s|]; [|reflexivity].
    destruct (dateParse h (ts_end params)) as [e|]; [|reflexivity].
    replace (s <=? e)%Z with false; [reflexivity|]. symmetry. apply Z.leb_gt. exact R. }
  rewrite D. reflexivity.
Qed.

End MoreTimeseriesFacts.

Section Termination.

Context (h : Host) (offset : Z).

Hypothesis fixedAtUTC : forall t, offsetAtUTC h t = offset.
Hypothesis fixedAtLocal : forall t, offsetAtLocal h t = offset.

Lemma setNextDate_fixed (t : Z) :
  DateTime.setNextDate h t = DateTime.timeClip (t + DateTime.msPerDay).
Proof.
  unfold DateTime.setNextDate. rewrite fixedAtUTC, fixedAtLocal. f_equal. lia.
Qed.

Lemma daysBetween_ends (e : Z) (fuel : nat) :
  forall t,
    Z.to_nat ((e - t) / DateTime.msPerDay) + 2 <= fuel ->
    exists days,
      DateTime.daysBetween h fuel (Some t) (Some e) = Some days
      /\ List.length days <= Z.to_nat ((e - t) / DateTime.msPerDay) + 1.
Proof.
  induction fuel as [|f IH]; intros t B; [lia|].
  cbn [DateTime.daysBetween]. destruct (Z.leb_spec t e) as [Le|Gt].
  - rewrite setNextDate_fixed. unfold DateTime.timeClip.
    destruct (Z.abs (t + DateTime.msPerDay) <=? DateTime.maxTime)%Z.
    + destruct (Z.leb_spec (t + DateTime.msPerDay) e) as [Le'|Gt'].
      * assert (D : ((e - t) / DateTime.msPerDay
                     = (e - (t + DateTime.msPerDay)) / DateTime.msPerDay + 1)%Z).
        { replace (e - t)%Z with (e - (t + DateTime.msPerDay) + 1 * DateTime.msPerDay)%Z
            by lia.
          apply Z.div_add. unfold DateTime.msPerDay. lia. }
        assert (P : (0 <= (e - (t + DateTime.msPerDay)) / DateTime.msPerDay)%Z).
        { apply Z.div_pos; [lia|unfold DateTime.msPerDay; lia]. }
        destruct (IH (t + DateTime.msPerDay)%Z) as [days [E L]]; [lia|].
        rewrite E. eexists. split; [reflexivity|]. simpl. lia.
      * destruct f as [|f']; [lia|]. cbn [DateTime.daysBetween].
        replace (t + DateTime.msPerDay <=? e)%Z with false
          by (symmetry; apply Z.leb_gt; lia).
        eexists. split; [reflexivity|]. simpl. lia.
    + destruct f as [|f']; [lia|]. cbn [DateTime.daysBetween].
      eexists. split; [reflexivity|]. simpl. lia.
  - eexists. split; [reflexivity|]. simpl. lia.
Qed.

(** On a host whose local time keeps one offset from UTC the loop that
    lists the days steps by exactly one day and ends: it takes at most one
    iteration per day of the range and one more, and [getTimeseries] then
    returns a series, whatever the network does. *)
Theorem getTimeseries_returns (fuel : nat) (params : TimeseriesParams) (w : World) :
  daysNeeded h params <= fuel ->
  (exists days,
     DateTime.daysBetween h fuel (dateParse h (ts_start params))
       (dateParse h (ts_end params)) = Some days
     /\ List.length days + 1 <= daysNeeded h params)
  /\ exists series, fst (getTimeseries h fuel params w) = Returned series.
Proof.
  intros B.
  assert (D : exists days,
            DateTime.daysBetween h fuel (dateParse h (ts_start params))
              (dateParse h (ts_end params)) = Some days
            /\ List.length days + 1 <= daysNeeded h params).
  { unfold daysNeeded in *.
    destruct (dateParse h (ts_start params)) as [s|].
    - destruct (dateParse h (ts_end params)) as [e|].
      + destruct (daysBetween_ends e fuel s B) as [days [E L]].
        exists days. split; [exact E|lia].
      + destruct fuel; [lia|]. exists []. split; [reflexivity|simpl; lia].
    - destruct fuel; [lia|]. exists []. split; [reflexivity|simpl; lia]. }
  split; [exact D|]. destruct D as [days [E _]].
  rewrite getTimeseries_run. cbv zeta.
  destruct (match network w (requests w) _ with Some _ => _ | None => _ end)
    as [|p series]; [|eexists; reflexivity].
  rewrite E.
  destruct (historicalSeries_run h (Str.toUpperCase (Str.trim (ts_from params)))
              (Str.toUpperCase (Str.trim (ts_to params))) days
              (logRequest (request h "timeseries"
                 (timeseriesParams (Str.toUpperCase (Str.trim (ts_from params)))
                    (Str.toUpperCase (Str.trim (ts_to params))) params)) w))
    as [ps [w' [R _]]].
  rewrite R. eexists. reflexivity.
Qed.

End Termination.

(** Four days on a host on UTC: five iterations suffice. *)
Lemma getTimeseries_returns_witness :
  exists series,
    fst (getTimeseries Fixture.utcHost 5 Fixture.marchRange
           (Fixture.world Fixture.offline [] 0)) = Returned series.
Proof.
  destruct (getTimeseries_returns Fixture.utcHost 0 (fun _ => eq_refl) (fun _ => eq_refl)
              5 Fixture.marchRange (Fixture.world Fixture.offline [] 0)) as [_ R].
  - vm_compute. lia.
  - exact R.
Defined.

(** The fallback over the four days of the range on a host on UTC. *)
Lemma getTimeseries_fallback_witness :
  exists series,
    fst (getTimeseries Fixture.utcHost 5 Fixture.marchRange
           (Fixture.world (Fixture.only "historical" Fixture.historicalEur) [] 0))
    = Returned series
    /\ requests (snd (getTimeseries Fixture.utcHost 5 Fixture.marchRange
                        (Fixture.world (Fixture.only "historical" Fixture.historicalEur)
                           [] 0)))
       = [] ++ request Fixture.utcHost "timeseries"
                 (timeseriesParams "USD" "EUR" Fixture.marchRange)
            :: map (historicalRequest Fixture.utcHost "USD" "EUR")
                 ["2024-03-09"; "2024-03-10"; "2024-03-11"; "2024-03-12"]
    /\ List.length series <= 4
    /\ Forall (fun p => In (TimeseriesPoint.date p)
                          ["2024-03-09"; "2024-03-10"; "2024-03-11"; "2024-03-12"])
         series.
Proof.
  apply (getTimeseries_fallback Fixture.utcHost 5 Fixture.marchRange
           (Fixture.world (Fixture.only "historical" Fixture.historicalEur) [] 0)
           ["2024-03-09"; "2024-03-10"; "2024-03-11"; "2024-03-12"]).
  - exact I.
  - vm_compute. reflexivity.
Defined.

(** A range whose start lies after its end. *)
Lemma getTimeseries_empty_range_witness :
  getTimeseries Fixture.utcHost 1
    {| ts_from := "USD"; ts_to := "EUR"; ts_start := "2024-03-12"; ts_end := "2024-03-09" |}
    (Fixture.world Fixture.offline [] 0)
  = (Returned [],
     logRequest
       (request Fixture.utcHost "timeseries"
          (timeseriesParams "USD" "EUR"
             {| ts_from := "USD"; ts_to := "EUR";
                ts_start := "2024-03-12"; ts_end := "2024-03-09" |}))
       (Fixture.world Fixture.offline [] 0)).
Proof.
  apply (getTimeseries_empty_range Fixture.utcHost 1
           {| ts_from := "USD"; ts_to := "EUR";
              ts_start := "2024-03-12"; ts_end := "2024-03-09" |}
           (Fixture.world Fixture.offline [] 0)).
  - exact I.
  - vm_compute. reflexivity.
  - lia.
Defined.
